(** * Order reconciliation: PUT /orders-by-number/:order_no

    A shallow embedding of the two handlers of the route
    [PUT /orders-by-number/:order_no] (the one of [src/routes/orders.js],
    which runs its statements through [OracleService.executeTransaction],
    and the one of [src/test.js], which drives the connection itself),
    together with the part of the storage engine they talk to.  The
    second part of the definitions has the other routes on orders of the
    two files ([POST /orders], [GET /orders-by-number/:order_no],
    [GET /api/orders/next-order-number]), and from src/test.js the checks
    of the admin sign-up and the update of a customer.

    What the model keeps and what it leaves out:
    - the table is a list of rows; a statement acts on it as its SQL text
      says, and a call the engine rejects is decided by an oracle on the
      position of the call in the request and the statement sent; a
      statement sent without values for some of its placeholders is
      rejected by the driver, whatever the oracle says;
    - a connection holds the committed rows, the rows of the open
      transaction and the log of the statements sent, which is how the
      order of the statements is observed;
    - obtaining the connection from the pool and closing it are not
      modelled, and [connection.rollback()] itself is taken to succeed;
    - identifiers are integers, the date helper of [src/routes/orders.js] is
      a total function on an optional value, and text is a string of bytes,
      the UTF-8 form of the text of the request, in which white space is
      looked for as JavaScript defines it. *)

From stdpp Require Import gmap strings list fin_maps.
From Stdlib Require Import ZArith Lia Ascii DecimalString DecimalNat.

Open Scope string_scope.
Open Scope list_scope.
Open Scope Z_scope.

(** ** JSON values and request items *)

(** A JSON scalar as it arrives in a request body or comes back from a
    column.  An absent property ([undefined]) is a missing key of the map
    that holds the value. *)
Inductive value : Type :=
| VNull
| VBool (b : bool)
| VNum (n : Z)
| VStr (s : string).

#[global] Instance value_eq_dec : EqDecision value.
Proof. solve_decision. Defined.

(** JavaScript truthiness of a property that may be absent. *)
Definition truthy (v : option value) : bool :=
  match v with
  | None => false
  | Some VNull => false
  | Some (VBool b) => b
  | Some (VNum n) => negb (n =? 0)
  | Some (VStr s) => negb (String.eqb s "")
  end.

(** [x || d] on a property that may be absent. *)
Definition or_default (v : option value) (d : value) : value :=
  match v with
  | Some x => if truthy v then x else d
  | None => d
  end.

(** One element of the request body, seen through the destructuring
    [const { id, _deleted, ...fields } = item] both handlers use: the
    persisted numeric identifier when there is one, the deletion flag, and
    the remaining properties. *)
Record item : Type := Item {
  id : option Z;
  _deleted : bool;
  fields : gmap string value
}.

(** [item.id] as a condition: an absent, [null] or [0] identifier is falsy. *)
Definition has_id (i : item) : bool :=
  match id i with
  | Some n => negb (n =? 0)
  | None => false
  end.

(** [(a.id || 0)], the sort key of the comparator. *)
Definition id_key (i : item) : Z :=
  match id i with
  | Some n => n
  | None => 0
  end.

(** ** [[...req.body].sort((a, b) => (a.id || 0) - (b.id || 0))]

    [Array.prototype.sort] is stable; with a comparator that subtracts two
    integer keys it is the stable sort by that key. *)
Section StableSort.
Context {A : Type} (key : A → Z).

Fixpoint insert_by (x : A) (l : list A) : list A :=
  match l with
  | [] => [x]
  | y :: l' => if key x <=? key y then x :: y :: l' else y :: insert_by x l'
  end.

Fixpoint sort_by (l : list A) : list A :=
  match l with
  | [] => []
  | x :: l' => insert_by x (sort_by l')
  end.

(** Ascending keys, neighbours compared. *)
Fixpoint ascending (l : list A) : Prop :=
  match l with
  | [] => True
  | x :: l' => match l' with
               | [] => True
               | y :: _ => key x <= key y
               end ∧ ascending l'
  end.
End StableSort.

Definition sort_items (body : list item) : list item := sort_by id_key body.

(** The three partitions, as the three [filter] calls compute them. *)
Definition is_insert (i : item) : bool := negb (has_id i) && negb (_deleted i).
Definition is_update (i : item) : bool := has_id i && negb (_deleted i).
Definition is_delete (i : item) : bool := has_id i && _deleted i.

Definition itemsToInsert (allItems : list item) : list item := List.filter is_insert allItems.
Definition itemsToUpdate (allItems : list item) : list item := List.filter is_update allItems.
Definition itemsToDelete (allItems : list item) : list item := List.filter is_delete allItems.

(** ** The [orders] table and the statements sent to it *)

(** A row of [orders]: the generated [id], the business key [order_no], and
    the other columns by name. *)
Record row : Type := Row {
  row_id : Z;
  row_order_no : string;
  cols : gmap string value
}.

#[global] Instance row_eq_dec : EqDecision row.
Proof. solve_decision. Defined.

(** The statements the two handlers send, named by what their SQL text says;
    the arguments are the bind values. *)
Inductive statement : Type :=
| Begin
    (* BEGIN *)
| SelectCount (key : string)
    (* SELECT COUNT( * ) as count FROM orders WHERE order_no = :1 *)
| SelectIdsIn (ids : list Z) (key : string)
    (* SELECT id FROM orders WHERE id IN (..) AND order_no = :n *)
| DeleteIn (ids : list Z) (key : string)
    (* DELETE FROM orders WHERE id IN (..) AND order_no = :n *)
| DeleteReturning (ids : list Z) (key : string)
    (* DELETE FROM orders WHERE id IN (..) AND order_no = :n
       RETURNING id, item_name INTO :ids, :names *)
| SelectOrderNo (i : Z)
    (* SELECT order_no FROM orders WHERE id = :1 *)
| UpdateRow (sets : gmap string value) (i : Z) (key : string)
    (* UPDATE orders SET .. WHERE id = :k AND order_no = :k+1 *)
| InsertRow (key : string) (vals : gmap string value)
    (* INSERT INTO orders (order_no, ..) VALUES (..) *)
| UpdateCommon (common : gmap string value) (key : string)
    (* UPDATE orders SET voucher_type = :1, .. WHERE order_no = :15 *)
| SelectAll (key : string)
    (* SELECT * FROM orders WHERE order_no = :1 ORDER BY id *)
| Commit.
    (* connection.commit() *)

#[global] Instance statement_eq_dec : EqDecision statement.
Proof. solve_decision. Defined.

(** What [connection.execute] resolves to. *)
Record reply : Type := Reply {
  rows : list row;        (* result.rows *)
  count : nat;            (* result.rows[0].COUNT *)
  rowsAffected : nat;     (* result.rowsAffected *)
  outBinds : list Z       (* ids handed back by RETURNING *)
}.

Definition no_reply : reply := Reply [] 0 0 [].

Definition in_order (key : string) (r : row) : bool := String.eqb (row_order_no r) key.
Definition has_row_id (i : Z) (r : row) : bool := row_id r =? i.
Definition id_in (ids : list Z) (r : row) : bool := existsb (Z.eqb (row_id r)) ids.

(** [SET c1 = v1, ..]: the named columns are overwritten, the others kept. *)
Definition set_cols (sets : gmap string value) (r : row) : row :=
  Row (row_id r) (row_order_no r) (sets ∪ cols r).

Definition update_where (p : row → bool) (sets : gmap string value) (t : list row) : list row :=
  map (fun r => if p r then set_cols sets r else r) t.

(** The stored rows together with the generator of the [id] column. *)
Record db : Type := Db {
  db_rows : list row;
  db_next_id : Z
}.

(** The effect of one statement on the rows a connection sees. *)
Definition run_statement (s : statement) (d : db) : reply * db :=
  let t := db_rows d in
  match s with
  | Begin => (no_reply, d)
  | SelectCount key =>
      (Reply [] (length (List.filter (in_order key) t)) 0 [], d)
  | SelectIdsIn ids key =>
      (Reply (List.filter (fun r => id_in ids r && in_order key r) t) 0 0 [], d)
  | DeleteIn ids key | DeleteReturning ids key =>
      let gone := List.filter (fun r => id_in ids r && in_order key r) t in
      (Reply [] 0 (length gone) (map row_id gone),
       Db (List.filter (fun r => negb (id_in ids r && in_order key r)) t) (db_next_id d))
  | SelectOrderNo i =>
      (Reply (List.filter (has_row_id i) t) 0 0 [], d)
  | UpdateRow sets i key =>
      let p := fun r => has_row_id i r && in_order key r in
      (Reply [] 0 (length (List.filter p t)) [],
       Db (update_where p sets t) (db_next_id d))
  | InsertRow key vals =>
      (Reply [] 0 1 [db_next_id d],
       Db (t ++ [Row (db_next_id d) key vals]) (db_next_id d + 1))
  | UpdateCommon common key =>
      (Reply [] 0 (length (List.filter (in_order key) t)) [],
       Db (update_where (in_order key) common t) (db_next_id d))
  | SelectAll key =>
      (Reply (sort_by row_id (List.filter (in_order key) t)) 0 0 [], d)
  | Commit => (no_reply, d)
  end.

(** ** Connections, transactions and errors *)

(** Everything one of the handlers can answer with instead of the rows. *)
Inductive error : Type :=
| OrderNumberRequired
    (* 400 'Order Number is required' *)
| NoDataProvided
    (* 400 'No data provided' *)
| OrderDoesNotExist (key : string)
    (* `Order ${order_no} does not exist and no new items provided` *)
| CannotDelete (missing : list Z) (key : string)
    (* `Cannot delete items: ${missingIds.join(', ')} - they do not belong to order ${order_no}` *)
| ItemDoesNotExist (i : Z)
    (* `Item with ID ${id} does not exist` *)
| ItemBelongsTo (i : Z) (found requested : string)
    (* `Item ${id} belongs to order ${found}, not ${order_no}` *)
| NoRecordFound (i : Z) (key : string)
    (* `No record found for id ${id} in order ${order_no}` *)
| StorageError (n : nat) (s : statement).
    (* the driver rejected the n-th call of the request, which sent s *)

#[global] Instance error_eq_dec : EqDecision error.
Proof. solve_decision. Defined.

(** A connection: the rows as committed, the rows as the open transaction
    sees them, the [id] generator (a sequence, which a rollback does not
    rewind) and the statements sent so far. *)
Record conn : Type := Conn {
  committed : list row;
  working : list row;
  next_id : Z;
  log : list statement
}.

Definition connect (d : db) : conn := Conn (db_rows d) (db_rows d) (db_next_id d) [].

(** Code that runs on a connection and may throw. *)
Definition M (A : Type) : Type := conn → (error + A) * conn.

Definition ret {A} (a : A) : M A := fun c => (inr a, c).
Definition throw {A} (e : error) : M A := fun c => (inl e, c).
Definition bind {A B} (k : A → M B) (m : M A) : M B :=
  fun c => match m c with
           | (inr a, c') => k a c'
           | (inl e, c') => (inl e, c')
           end.

#[global] Instance M_ret : MRet M := @ret.
#[global] Instance M_bind : MBind M := @bind.

(** [for (const x of l) body(x)]. *)
Fixpoint for_each {A} (l : list A) (body : A → M unit) : M unit :=
  match l with
  | [] => ret tt
  | x :: l' => body x;; for_each l' body
  end.

(** [if (b) { .. }] around statements. *)
Definition when (b : bool) (m : M unit) : M unit := if b then m else ret tt.

(** What a handler answers on success: [data] and [operations]. *)
Record response : Type := Response {
  data : list row;
  inserted : nat;
  updated : nat;
  deleted : nat
}.

(** *** White space

    What [trim], [parseInt] and the class [\s] take for white space: the
    characters [WhiteSpace] and [LineTerminator] of ECMAScript, here in
    UTF-8.  In well-formed UTF-8 the bytes of a character do not occur
    inside the bytes of another, so that the bytes of a white-space
    character, wherever they are found, are that character. *)

(** The string of the bytes [l]. *)
Definition bytes (l : list nat) : string :=
  fold_right (fun n s => String (ascii_of_nat n) s) EmptyString l.

(** TAB, LF, VT, FF, CR, SP, U+00A0, U+1680, U+2000 to U+200A, U+2028,
    U+2029, U+202F, U+205F, U+3000 and U+FEFF. *)
Definition white_space : list string :=
  map bytes [
    [9]; [10]; [11]; [12]; [13]; [32];
    [194; 160];
    [225; 154; 128];
    [226; 128; 128]; [226; 128; 129]; [226; 128; 130]; [226; 128; 131];
    [226; 128; 132]; [226; 128; 133]; [226; 128; 134]; [226; 128; 135];
    [226; 128; 136]; [226; 128; 137]; [226; 128; 138];
    [226; 128; 168]; [226; 128; 169];
    [226; 128; 175];
    [226; 129; 159];
    [227; 128; 128];
    [239; 187; 191]
  ]%nat.

(** [s] without the string [p] it starts with. *)
Fixpoint strip_prefix (p s : string) : option string :=
  match p with
  | EmptyString => Some s
  | String a p' =>
      match s with
      | String b s' => if Ascii.eqb a b then strip_prefix p' s' else None
      | EmptyString => None
      end
  end.

(** [s] without the white-space character it starts with, when it starts
    with one. *)
Definition space_ahead (s : string) : option string :=
  fold_right (fun p found =>
                match strip_prefix p s with
                | Some rest => Some rest
                | None => found
                end) None white_space.

(** [s] without the white space at its head, [n] characters of it at most. *)
Fixpoint skip_spaces (n : nat) (s : string) : string :=
  match n with
  | O => s
  | S n' =>
      match space_ahead s with
      | Some rest => skip_spaces n' rest
      | None => s
      end
  end.

(** [s.trimStart()]: a string has no more characters than bytes. *)
Definition skip_space (s : string) : string := skip_spaces (String.length s) s.

(** Whether [s] is white space from end to end. *)
Definition all_space (s : string) : bool := String.eqb (skip_space s) "".

(** [s.trimEnd()]: [s] up to where only white space follows. *)
Fixpoint trim_end (s : string) : string :=
  match s with
  | EmptyString => EmptyString
  | String a s' => if all_space s then EmptyString else String a (trim_end s')
  end.

(** [s.trim()]. *)
Definition trim (s : string) : string := trim_end (skip_space s).

(** [!order_no || order_no.trim() === ""] and [!order_no?.trim()]. *)
Definition blank (s : string) : bool := String.eqb (trim s) "".

(** One white-space character is not the beginning of another. *)
Definition not_begun_by (p q : string) : bool :=
  match strip_prefix q p with
  | Some (String _ _) => false
  | _ => true
  end.

Definition null {A} (l : list A) : bool :=
  match l with [] => true | _ => false end.

(** [m.k] where the property is known to be there. *)
Definition get (m : gmap string value) (k : string) : value := default VNull (m !! k).

(** The options of [connection.execute] that bear on the stored rows:
    [autoCommit], off when it is not given. *)
Record options : Type := Options {
  autoCommit : bool
}.

(** An operation handed to [OracleService.executeTransaction]: [sql] and
    [binds], which make the statement, and [options], which may be absent. *)
Record operation : Type := Operation {
  op_statement : statement;
  op_options : option options
}.

(** [{ sql, binds }]. *)
Definition sql_binds (s : statement) : operation := Operation s None.


Section Handlers.
(** Which calls the storage engine rejects (constraint violation, lost
    connection, ..): the position of the call in the request and the
    statement it sends. *)
Variable fails : nat → statement → bool.

(** [await connection.execute(sql, binds)]. *)
Definition execute (s : statement) : M reply :=
  fun c =>
    let c1 := Conn (committed c) (working c) (next_id c) (log c ++ [s]) in
    if fails (length (log c)) s then (inl (StorageError (length (log c)) s), c1)
    else
      let '(r, d) := run_statement s (Db (working c) (next_id c)) in
      (inr r, Conn (committed c) (db_rows d) (db_next_id d) (log c ++ [s])).

(** [await connection.execute(sql, binds, options)] for a statement whose
    text has placeholders that [binds] gives no value for, the out binds
    being described where the driver reads its options: the driver
    rejects the call, whatever the storage would have done with it. *)
Definition execute_unbound (s : statement) : M reply :=
  fun c =>
    (inl (StorageError (length (log c)) s),
     Conn (committed c) (working c) (next_id c) (log c ++ [s])).

(** [await connection.commit()]. *)
Definition commit : M unit :=
  fun c =>
    let c1 := Conn (committed c) (working c) (next_id c) (log c ++ [Commit]) in
    if fails (length (log c)) Commit then (inl (StorageError (length (log c)) Commit), c1)
    else (inr tt, Conn (working c) (working c) (next_id c) (log c ++ [Commit])).

(** [await connection.rollback()]. *)
Definition rollback (c : conn) : conn :=
  Conn (committed c) (committed c) (next_id c) (log c).

(** [try { body } catch (error) { await connection.rollback(); .. }]. *)
Definition try_rollback {A} (body : M A) : M A :=
  fun c => match body c with
           | (inr a, c') => (inr a, c')
           | (inl e, c') => (inl e, rollback c')
           end.

(** *** src/test.js *)

(** [new Date().toISOString().split('T')[0]]. *)
Variable today : string.

Definition defaultOrderDetails : gmap string value :=
  list_to_map [
    ("voucher_type", VStr "Sales Order");
    ("order_date", VStr today);
    ("customer_code", VStr "");
    ("customer_name", VStr "");
    ("executive", VStr "");
    ("role", VStr "");
    ("status", VStr "pending");
    ("total_quantity", VNum 0);
    ("total_amount", VNum 0);
    ("total_amount_without_tax", VNum 0);
    ("total_sgst_amount", VNum 0);
    ("total_cgst_amount", VNum 0);
    ("total_igst_amount", VNum 0);
    ("remarks", VStr "")
  ].

Definition commonFields : list string := [
  "voucher_type"; "order_date"; "customer_code"; "customer_name";
  "executive"; "role"; "status"; "total_quantity"; "total_amount";
  "total_amount_without_tax"; "total_sgst_amount"; "total_cgst_amount";
  "total_igst_amount"; "remarks"
].

(** [commonFields.forEach(field => { if (priorityItem[field] !== undefined)
    commonOrderDetails[field] = priorityItem[field]; })]. *)
Definition overlay (priorityItem : item) (details : gmap string value) : gmap string value :=
  foldl (fun acc field =>
           match fields priorityItem !! field with
           | Some v => <[field := v]> acc
           | None => acc
           end) details commonFields.

Definition commonOrderDetails (allItems : list item) : gmap string value :=
  let validItems := List.filter (fun i => negb (_deleted i)) allItems in
  match validItems with
  | [] => defaultOrderDetails
  | first :: _ =>
      let priorityItem := default first (List.find has_id validItems) in
      overlay priorityItem defaultOrderDetails
  end.

Definition allowedFields_test : list string := [
  "status"; "disc_percentage"; "disc_amount"; "spl_disc_percentage";
  "spl_disc_amount"; "net_rate"; "gross_amount"; "total_quantity";
  "total_amount"; "total_amount_without_tax"; "remarks"; "quantity";
  "delivery_date"; "delivery_mode"; "transporter_name";
  "total_sgst_amount"; "total_cgst_amount"; "total_igst_amount";
  "sgst"; "cgst"; "igst"; "gst"; "hsn"; "rate"; "amount"; "uom";
  "item_code"; "item_name"; "order_date"
].

(** The properties of an update item that are on the allow-list. *)
Definition filter_allowed (allowed : list string) (f : gmap string value) : gmap string value :=
  filter (fun kv => kv.1 ∈ allowed) f.

(** The [id] of an element of [itemsToUpdate] or [itemsToDelete]. *)
Definition the_id (i : item) : Z := id_key i.

(** Handle deletions: the DELETE names [:ids] and [:names] after the
    placeholders of its WHERE clause and is sent with the values of the
    WHERE clause only; what follows it, the line that logs
    [deleteResult.outBinds.ids?.length], is not reached. *)
Definition handle_deletions (orderExists : bool) (order_no : string)
    (itemsToDelete : list item) : M unit :=
  when (negb (null itemsToDelete)) (
    let deleteIds := map the_id itemsToDelete in
    when orderExists (
      verifyResult ← execute (SelectIdsIn deleteIds order_no);
      if negb (length (rows verifyResult) =? length deleteIds)%nat then
        let foundIds := map row_id (rows verifyResult) in
        let missingIds := List.filter (fun i => negb (existsb (Z.eqb i) foundIds)) deleteIds in
        throw (CannotDelete missingIds order_no)
      else mret tt);;
    execute_unbound (DeleteReturning deleteIds order_no);;
    mret tt).

(** One round of [for (const [index, update] of itemsToUpdate.entries())]. *)
Definition handle_update (orderExists : bool) (order_no : string) (update : item) : M unit :=
  let i := the_id update in
  when orderExists (
    itemCheck ← execute (SelectOrderNo i);
    match rows itemCheck with
    | [] => throw (ItemDoesNotExist i)
    | r :: _ =>
        if String.eqb (row_order_no r) order_no then mret tt
        else throw (ItemBelongsTo i (row_order_no r) order_no)
    end);;
  let filteredFields := filter_allowed allowedFields_test (fields update) in
  if bool_decide (filteredFields = ∅) then mret tt
  else
    result ← execute (UpdateRow filteredFields i order_no);
    if (rowsAffected result =? 0)%nat then throw (NoRecordFound i order_no)
    else mret tt.

Definition insertItem_test (common : gmap string value) (cleanNewItem : gmap string value)
    : gmap string value :=
  list_to_map [
    ("voucher_type", get common "voucher_type");
    ("order_date", get common "order_date");
    ("customer_code", get common "customer_code");
    ("customer_name", get common "customer_name");
    ("executive", get common "executive");
    ("role", get common "role");
    ("status", get common "status");
    ("item_code", or_default (cleanNewItem !! "item_code") (VStr ""));
    ("item_name", or_default (cleanNewItem !! "item_name") (VStr ""));
    ("hsn", or_default (cleanNewItem !! "hsn") (VStr ""));
    ("gst", or_default (cleanNewItem !! "gst") (VNum 0));
    ("sgst", or_default (cleanNewItem !! "sgst") (VNum 0));
    ("cgst", or_default (cleanNewItem !! "cgst") (VNum 0));
    ("igst", or_default (cleanNewItem !! "igst") (VNum 0));
    ("delivery_date", or_default (cleanNewItem !! "delivery_date") VNull);
    ("delivery_mode", or_default (cleanNewItem !! "delivery_mode") (VStr ""));
    ("quantity", or_default (cleanNewItem !! "quantity") (VNum 0));
    ("uom", or_default (cleanNewItem !! "uom") (VStr ""));
    ("rate", or_default (cleanNewItem !! "rate") (VNum 0));
    ("amount", or_default (cleanNewItem !! "amount") (VNum 0));
    ("net_rate", or_default (cleanNewItem !! "net_rate") (VNum 0));
    ("gross_amount", or_default (cleanNewItem !! "gross_amount") (VNum 0));
    ("disc_percentage", or_default (cleanNewItem !! "disc_percentage") (VNum 0));
    ("disc_amount", or_default (cleanNewItem !! "disc_amount") (VNum 0));
    ("spl_disc_percentage", or_default (cleanNewItem !! "spl_disc_percentage") (VNum 0));
    ("spl_disc_amount", or_default (cleanNewItem !! "spl_disc_amount") (VNum 0));
    ("total_quantity", get common "total_quantity");
    ("total_amount", get common "total_amount");
    ("total_amount_without_tax", get common "total_amount_without_tax");
    ("total_sgst_amount", get common "total_sgst_amount");
    ("total_cgst_amount", get common "total_cgst_amount");
    ("total_igst_amount", get common "total_igst_amount");
    ("remarks", get common "remarks");
    ("transporter_name", or_default (cleanNewItem !! "transporter_name") (VStr ""))
  ].

(** One round of [for (const newItem of itemsToInsert)]. *)
Definition handle_insert (common : gmap string value) (order_no : string) (newItem : item) : M unit :=
  execute (InsertRow order_no (insertItem_test common (fields newItem)));;
  mret tt.

(** The body of the [try] block of [app.put("/orders-by-number/:order_no")]. *)
Definition transaction_test (order_no : string) (allItems : list item) : M response :=
  let itemsToInsert := itemsToInsert allItems in
  let itemsToUpdate := itemsToUpdate allItems in
  let itemsToDelete := itemsToDelete allItems in
  execute Begin;;
  orderCheck ← execute (SelectCount order_no);
  let orderExists := (0 <? count orderCheck)%nat in
  (if negb orderExists && null itemsToInsert
   then throw (OrderDoesNotExist order_no) else mret tt);;
  let common := commonOrderDetails allItems in
  handle_deletions orderExists order_no itemsToDelete;;
  when (negb (null itemsToUpdate))
    (for_each itemsToUpdate (handle_update orderExists order_no));;
  when (negb (null itemsToInsert))
    (for_each itemsToInsert (handle_insert common order_no));;
  when (orderExists || negb (null itemsToInsert))
    (execute (UpdateCommon common order_no);; mret tt);;
  commit;;
  finalResult ← execute (SelectAll order_no);
  mret (Response (rows finalResult)
          (length itemsToInsert) (length itemsToUpdate) (length itemsToDelete)).

(** [app.put("/orders-by-number/:order_no", ..)] of src/test.js. *)
Definition put_order_test (order_no : string) (body : list item) : M response :=
  let allItems := sort_items body in
  if blank order_no then throw OrderNumberRequired
  else if null allItems then throw NoDataProvided
  else try_rollback (transaction_test order_no allItems).

(** *** src/routes/orders.js and [OracleService] *)

(** [toOracleDate] of utils/helpers.js, which is not part of the sources
    at hand: taken as it comes, from a property that may be absent to the
    value it binds. *)
Variable toOracleDate : option value → value.

(** [new Date()]. *)
Variable now : value.

Definition allowedFields : list string := [
  "status"; "disc_percentage"; "disc_amount"; "spl_disc_percentage";
  "spl_disc_amount"; "net_rate"; "gross_amount"; "quantity"; "gst";
  "sgst"; "cgst"; "igst"; "hsn"; "rate"; "amount"; "uom"; "item_code";
  "item_name"; "delivery_date"; "delivery_mode"; "transporter_name";
  "total_quantity"; "total_amount"; "total_amount_without_tax";
  "total_sgst_amount"; "total_cgst_amount"; "total_igst_amount";
  "remarks"; "order_date"
].

(** [keys.map(k => (k === 'order_date' || k === 'delivery_date')
    ? toOracleDate(filtered[k]) : filtered[k])]. *)
Definition update_values (filtered : gmap string value) : gmap string value :=
  alter (fun v => toOracleDate (Some v)) "order_date"
    (alter (fun v => toOracleDate (Some v)) "delivery_date" filtered).

(** One round of [for (const row of itemsToUpdate)]: the operation it
    pushes, if any. *)
Definition update_operation (order_no : string) (row : item) : list statement :=
  let filtered := filter_allowed allowedFields (fields row) in
  if bool_decide (filtered = ∅) then []
  else [UpdateRow (update_values filtered) (the_id row) order_no].

Definition insertData (item : gmap string value) : gmap string value :=
  list_to_map [
    ("voucher_type", or_default (item !! "voucher_type") (VStr "Distributor Order-Web Based"));
    ("order_date", or_default (Some (toOracleDate (item !! "order_date"))) now);
    ("customer_code", or_default (item !! "customer_code") (VStr ""));
    ("customer_name", or_default (item !! "customer_name") (VStr ""));
    ("executive", or_default (item !! "executive") (VStr ""));
    ("role", or_default (item !! "role") (VStr "distributor"));
    ("status", or_default (item !! "status") (VStr "pending"));
    ("item_code", or_default (item !! "item_code") (VStr ""));
    ("item_name", or_default (item !! "item_name") (VStr ""));
    ("hsn", or_default (item !! "hsn") (VStr ""));
    ("gst", or_default (item !! "gst") (VNum 0));
    ("sgst", or_default (item !! "sgst") (VNum 0));
    ("cgst", or_default (item !! "cgst") (VNum 0));
    ("igst", or_default (item !! "igst") (VNum 0));
    ("delivery_date", toOracleDate (item !! "delivery_date"));
    ("delivery_mode", or_default (item !! "delivery_mode") (VStr ""));
    ("transporter_name", or_default (item !! "transporter_name") (VStr ""));
    ("quantity", or_default (item !! "quantity") (VNum 0));
    ("uom", or_default (item !! "uom") (VStr ""));
    ("rate", or_default (item !! "rate") (VNum 0));
    ("amount", or_default (item !! "amount") (VNum 0));
    ("net_rate", or_default (item !! "net_rate") (VNum 0));
    ("gross_amount", or_default (item !! "gross_amount") (VNum 0));
    ("disc_percentage", or_default (item !! "disc_percentage") (VNum 0));
    ("disc_amount", or_default (item !! "disc_amount") (VNum 0));
    ("spl_disc_percentage", or_default (item !! "spl_disc_percentage") (VNum 0));
    ("spl_disc_amount", or_default (item !! "spl_disc_amount") (VNum 0));
    ("total_quantity", or_default (item !! "total_quantity") (VNum 0));
    ("total_amount", or_default (item !! "total_amount") (VNum 0));
    ("total_amount_without_tax", or_default (item !! "total_amount_without_tax") (VNum 0));
    ("total_sgst_amount", or_default (item !! "total_sgst_amount") (VNum 0));
    ("total_cgst_amount", or_default (item !! "total_cgst_amount") (VNum 0));
    ("total_igst_amount", or_default (item !! "total_igst_amount") (VNum 0));
    ("remarks", or_default (item !! "remarks") (VStr ""))
  ].

(** The [operations] array the handler builds: the delete, the updates,
    the inserts; each is pushed as [{ sql, binds }]. *)
Definition operations (order_no : string) (allItems : list item) : list statement :=
  let itemsToInsert := itemsToInsert allItems in
  let itemsToUpdate := itemsToUpdate allItems in
  let itemsToDelete := itemsToDelete allItems in
  (if null itemsToDelete then []
   else [DeleteIn (map the_id itemsToDelete) order_no])
  ++ flat_map (update_operation order_no) itemsToUpdate
  ++ map (fun item => InsertRow order_no (insertData (fields item))) itemsToInsert.

(** [await connection.execute(sql, binds, options)]: with [autoCommit]
    the driver commits the open transaction when the statement has gone
    through. *)
Definition execute_with (s : statement) (o : options) : M reply :=
  r ← execute s;
  if autoCommit o
  then (fun c => (inr r, Conn (working c) (working c) (next_id c) (log c))) : M reply
  else mret r.

(** [op.options ? connection.execute(op.sql, op.binds, op.options)
               : connection.execute(op.sql, op.binds)]. *)
Definition execute_operation (op : operation) : M reply :=
  match op_options op with
  | Some o => execute_with (op_statement op) o
  | None => execute (op_statement op)
  end.

(** [for (const op of operations) results.push(await connection.execute(..))]. *)
Fixpoint execute_all (ops : list operation) : M (list reply) :=
  match ops with
  | [] => mret []
  | op :: ops' =>
      r ← execute_operation op;
      rs ← execute_all ops';
      mret (r :: rs)
  end.

(** [OracleService.executeTransaction]. *)
Definition executeTransaction (ops : list operation) : M (list reply) :=
  try_rollback (results ← execute_all ops; commit;; mret results).

(** [OracleService.executeQuery]: a connection of its own, which sees the
    committed rows. *)
Definition executeQuery (s : statement) : M reply :=
  fun c => execute s (Conn (committed c) (committed c) (next_id c) (log c)).

(** [router.put('/orders-by-number/:order_no', ..)] of src/routes/orders.js. *)
Definition put_order_routes (order_no : string) (body : list item) : M response :=
  let allItems := sort_items body in
  if blank order_no then throw OrderNumberRequired
  else if null allItems then throw NoDataProvided
  else
    executeTransaction (map sql_binds (operations order_no allItems));;
    result ← executeQuery (SelectAll order_no);
    mret (Response (rows result)
            (length (itemsToInsert allItems))
            (length (itemsToUpdate allItems))
            (length (itemsToDelete allItems))).
End Handlers.

(** The two implementations of the route. *)
Inductive handler : Type := TestJs | RoutesJs.

Section Route.
Variable fails : nat → statement → bool.
Variable today : string.
Variable toOracleDate : option value → value.
Variable now : value.

Definition put_order (h : handler) (order_no : string) (body : list item) : M response :=
  match h with
  | TestJs => put_order_test fails today order_no body
  | RoutesJs => put_order_routes fails toOracleDate now order_no body
  end.
End Route.

(** A storage engine that rejects nothing. *)
Definition nofail : nat → statement → bool := fun _ _ => false.

(** [triple P m Q E]: started where [P] holds, [m] either returns [a] where
    [Q a] holds or throws [e] where [E e] holds. *)
Definition triple {A} (P : conn → Prop) (m : M A)
    (Q : A → conn → Prop) (E : error → conn → Prop) : Prop :=
  ∀ c, P c →
    match m c with
    | (inr a, c') => Q a c'
    | (inl e, c') => E e c'
    end.

(** [I] is what holds between the statements, [E] what holds when one of
    them has been rejected or a check has thrown: the statement [s] keeps
    [I], the throw of [e] is covered by [E]. *)
Definition keeps (fails : nat → statement → bool) (I : conn → Prop)
    (E : error → conn → Prop) (s : statement) : Prop :=
  triple I (execute fails s) (fun _ => I) E.

Definition raises (I : conn → Prop) (E : error → conn → Prop) (e : error) : Prop :=
  ∀ c, I c → E e c.

(** The throw of the driver that rejects the statement [s] is covered by
    [E]. *)
Definition refuses (I : conn → Prop) (E : error → conn → Prop) (s : statement) : Prop :=
  triple I (execute_unbound s) (fun _ _ => False) E.

(** The error of the read-back that follows the commit. *)
Definition read_back_error (key : string) (e : error) : Prop :=
  ∃ n, e = StorageError n (SelectAll key).

(** ** The statements of a call, by kind *)

Definition is_update_statement (s : statement) : bool :=
  match s with UpdateRow _ _ _ => true | _ => false end.

Definition is_insert_statement (s : statement) : bool :=
  match s with InsertRow _ _ => true | _ => false end.

Definition update_statements (l : list statement) : list statement :=
  List.filter is_update_statement l.

Definition insert_statements (l : list statement) : list statement :=
  List.filter is_insert_statement l.

(** The lookups that check an id before it is deleted or updated. *)
Definition is_verification (s : statement) : bool :=
  match s with
  | SelectIdsIn _ _ | SelectOrderNo _ => true
  | _ => false
  end.

(** The UPDATE that a round of the update loop of src/test.js sends for an
    item, when it sends one. *)
Definition update_statement_test (key : string) (u : item) : list statement :=
  let filteredFields := filter_allowed allowedFields_test (fields u) in
  if bool_decide (filteredFields = ∅) then []
  else [UpdateRow filteredFields (the_id u) key].

(** What a call of src/test.js sends, in order, when nothing stops it; a
    call with an item to delete stops at its DELETE. *)
Definition success_log_test (today : string) (orderExists : bool) (key : string)
    (allItems : list item) : list statement :=
  [Begin; SelectCount key]
  ++ (if null (itemsToDelete allItems) then []
      else (if orderExists
            then [SelectIdsIn (map the_id (itemsToDelete allItems)) key] else [])
           ++ [DeleteReturning (map the_id (itemsToDelete allItems)) key])
  ++ flat_map (fun u => (if orderExists then [SelectOrderNo (the_id u)] else [])
                        ++ update_statement_test key u)
       (itemsToUpdate allItems)
  ++ map (fun i => InsertRow key
                     (insertItem_test (commonOrderDetails today allItems) (fields i)))
       (itemsToInsert allItems)
  ++ [UpdateCommon (commonOrderDetails today allItems) key; Commit; SelectAll key].

(** The statements sent after [L] are a beginning of [block]. *)
Definition sent_within (L block : list statement) (c : conn) : Prop :=
  ∃ p, p `prefix_of` block ∧ log c = L ++ p.

(** [m], started when [L] has been sent, sends [block] and returns, or
    throws after a beginning of [block]. *)
Definition logs {A} (L block : list statement) (m : M A) : Prop :=
  triple (fun c => log c = L) m
         (fun _ c => log c = L ++ block) (fun _ => sent_within L block).

(** The UPDATE and the INSERT a handler sends for an item. *)
Definition update_statement_of (toOracleDate : option value → value)
    (h : handler) (key : string) (u : item) : list statement :=
  match h with
  | TestJs => update_statement_test key u
  | RoutesJs => update_operation toOracleDate key u
  end.

Definition insert_statement_of (today : string) (toOracleDate : option value → value)
    (now : value) (h : handler) (key : string) (allItems : list item) (i : item)
    : statement :=
  match h with
  | TestJs => InsertRow key (insertItem_test (commonOrderDetails today allItems) (fields i))
  | RoutesJs => InsertRow key (insertData toOracleDate now (fields i))
  end.

(** ** Rows of other orders, and the statements scoped to an order *)

(** The rows that do not belong to the order [key]. *)
Definition others (key : string) (t : list row) : list row :=
  List.filter (fun r => negb (in_order key r)) t.

(** The statements whose WHERE clause (or whose inserted row) names the
    order [key], and those that change nothing. *)
Definition scoped (key : string) (s : statement) : Prop :=
  match s with
  | DeleteIn _ k | DeleteReturning _ k | UpdateRow _ _ k | InsertRow k _
  | UpdateCommon _ k => k = key
  | Begin | SelectCount _ | SelectIdsIn _ _ | SelectOrderNo _ | SelectAll _ | Commit => True
  end.

(** A property of the rows that holds of what the transaction sees and of
    what is committed. *)
Definition both (G : list row → Prop) (c : conn) : Prop :=
  G (working c) ∧ G (committed c).


(** The rows the verification lookup of the delete set returns, and the
    ids it then reports as missing. *)
Definition verified_rows (ids : list Z) (key : string) (t : list row) : list row :=
  List.filter (fun r => id_in ids r && in_order key r) t.

Definition missing_ids (ids : list Z) (key : string) (t : list row) : list Z :=
  List.filter (fun i => negb (existsb (Z.eqb i) (map row_id (verified_rows ids key t)))) ids.

(** The statements up to the verification lookup of the delete set. *)
Definition up_to_verification (ids : list Z) (key : string) : list statement :=
  [Begin; SelectCount key; SelectIdsIn ids key].

(** Where the transaction stands while nothing has been changed: the rows
    [t0] of before the call, seen and committed, and the statements sent. *)
Definition untouched (t0 : list row) (sent : list statement) (c : conn) : Prop :=
  working c = t0 ∧ committed c = t0 ∧ log c = sent.

(** How a call stops at the verification of the delete set: at the guard,
    the lookup sent, or at a statement the engine rejected on the way. *)
Definition stopped (fails : nat → statement → bool) (key : string) (t0 : list row)
    (ids : list Z) (e : error) (c : conn) : Prop :=
  committed c = t0
  ∧ ((e = CannotDelete (missing_ids ids key t0) key
      ∧ log c = up_to_verification ids key)
     ∨ (∃ n s, fails n s = true ∧ e = StorageError n s
               ∧ log c `prefix_of` up_to_verification ids key)).

(** Every row of the order [key] carries the order-level fields [common]. *)
Definition headed (common : gmap string value) (key : string) (t : list row) : Prop :=
  ∀ r, In r t → in_order key r = true → common ⊆ cols r.

(** A stored row as a request item: its id, no deletion flag, and its
    columns, the order number among them. *)
Definition item_of_row (r : row) : item :=
  Item (Some (row_id r)) false (<["order_no" := VStr (row_order_no r)]> (cols r)).

(** The rows of an order, in the order of the table. *)
Definition rows_of (key : string) (t : list row) : list row :=
  List.filter (in_order key) t.

(** Both the rows seen and the rows committed are [t0]. *)
Definition unchanged (t0 : list row) (c : conn) : Prop :=
  working c = t0 ∧ committed c = t0.

(** The date helper gives back the dates the row stores. *)
Definition dates_kept (toOracleDate : option value → value) (r : row) : Prop :=
  ∀ k v, k = "order_date" ∨ k = "delivery_date" →
         cols r !! k = Some v → toOracleDate (Some v) = v.

(** The operation counts of a response are those of the partitions. *)
Definition counts_of (allItems : list item) (r : response) : Prop :=
  inserted r = length (itemsToInsert allItems)
  ∧ updated r = length (itemsToUpdate allItems)
  ∧ deleted r = length (itemsToDelete allItems).

(** No lookup that checks an id has been sent. *)
Definition unverified (c : conn) : Prop :=
  Forall (fun s => is_verification s = false) (log c).

(** The three errors of the id checks of src/test.js. *)
Definition is_guard_error (e : error) : bool :=
  match e with
  | CannotDelete _ _ | ItemDoesNotExist _ | ItemBelongsTo _ _ _ => true
  | _ => false
  end.

(** ** Sample data *)

Definition today0 : string := "2026-11-02".
Definition now0 : value := VStr "2026-11-02T09:00:00.000Z".

(** A date helper that binds what it is given, and NULL for an absent
    property. *)
Definition bind_as_given (v : option value) : value := default VNull v.

(** An update of row 1, the deletion of row 2 and a new item. *)
Definition mixed_body : list item :=
  [Item (Some 1) false {["quantity" := VNum 7]};
   Item (Some 2) true ∅;
   Item None false (<["item_name" := VStr "New"]> {["quantity" := VNum 2]})].

(** Two updates and two new items, the higher id first. *)
Definition shuffled_body : list item :=
  [Item (Some 2) false {["quantity" := VNum 9]};
   Item None false {["item_name" := VStr "Nut"]};
   Item (Some 1) false {["quantity" := VNum 8]};
   Item None false {["item_name" := VStr "Bolt"]}].



(** The deletion of rows 1, 2 and 3. *)
Definition delete_123 : list item :=
  [Item (Some 1) true ∅; Item (Some 2) true ∅; Item (Some 3) true ∅].

(** The deletion of row 1 and a new item. *)
Definition delete_and_insert : list item :=
  [Item (Some 1) true ∅; Item None false {["item_name" := VStr "New"]}].

(** An item flagged for deletion that was never persisted. *)
Definition flagged_unsaved : item := Item None true {["item_name" := VStr "Gone"]}.

(** A call on a fresh connection, with the sample clock and date helper. *)
Definition call (fails : nat → statement → bool) (h : handler) (key : string)
    (body : list item) (d : db) : (error + response) * conn :=
  put_order fails today0 bind_as_given now0 h key body (connect d).

(** A storage engine that rejects the call at position [n]. *)
Definition fail_at (n : nat) : nat → statement → bool := fun k _ => Nat.eqb k n.

(** Whether a call answered with the rows, and what it answered. *)
Definition succeeded (x : (error + response) * conn) : bool :=
  match x.1 with inr _ => true | inl _ => false end.

Definition answer (x : (error + response) * conn) : response :=
  match x.1 with inr r => r | inl _ => Response [] 0 0 0 end.

(** The id an UPDATE names. *)
Definition updated_id (s : statement) : Z :=
  match s with UpdateRow _ i _ => i | _ => 0 end.

(** The value an INSERT gives a column. *)
Definition inserted_value (k : string) (s : statement) : value :=
  match s with InsertRow _ vals => get vals k | _ => VNull end.

(** Order A with two rows, order B with one. *)
Definition sample_db : db :=
  Db [Row 1 "A" (<["customer_name" := VStr "Acme"]> {["quantity" := VNum 5]});
      Row 2 "A" (<["customer_name" := VStr "Acme"]> {["quantity" := VNum 3]});
      Row 3 "B" (<["customer_name" := VStr "Zenith"]> {["quantity" := VNum 1]})] 4.

(** The rows of order A, submitted as they are stored. *)
Definition resubmitted_A : list item := map item_of_row (rows_of "A" (db_rows sample_db)).

(** * The other routes *)

(** ** Text and numbers as the handlers use them

    Text is a string of bytes, in UTF-8; white space is that of
    [white_space], for [trim], [parseInt] and the class [\s] alike.
    Numbers are integers: what the handlers compute with them is exact
    below [2 ^ 53], and the facts about numbers stay below it. *)

(** [s.split(sep)] for a separator of one character. *)
Fixpoint split_on (sep : ascii) (s : string) : list string :=
  match s with
  | EmptyString => [EmptyString]
  | String a s' =>
      if Ascii.eqb a sep then EmptyString :: split_on sep s'
      else match split_on sep s' with
           | part :: parts => String a part :: parts
           | [] => [String a EmptyString]
           end
  end.

Fixpoint repeat_char (n : nat) (a : ascii) : string :=
  match n with
  | O => EmptyString
  | S n' => String a (repeat_char n' a)
  end.

(** [s.padStart(targetLength, fill)] for a filler of one character. *)
Definition padStart (targetLength : nat) (fill : ascii) (s : string) : string :=
  repeat_char (targetLength - String.length s) fill +:+ s.

Fixpoint string_drop (n : nat) (s : string) : string :=
  match n, s with
  | S n', String _ s' => string_drop n' s'
  | _, _ => s
  end.

(** [s.slice(-n)]: the last [n] characters, all of [s] when it is shorter. *)
Definition slice_last (n : nat) (s : string) : string :=
  string_drop (String.length s - n) s.

(** [n.toString()] for a natural number: its decimal digits. *)
Definition dec (n : nat) : string := NilEmpty.string_of_uint (Nat.to_uint n).

(** [n.toString()] for an integer. *)
Definition toString (n : Z) : string :=
  if n <? 0 then String "-" (dec (Z.to_nat (- n))) else dec (Z.to_nat n).

(** The value of a character as a digit, in a radix up to 36. *)
Definition digit_value (a : ascii) : option Z :=
  let n := Z.of_nat (nat_of_ascii a) in
  if (48 <=? n) && (n <=? 57) then Some (n - 48)
  else if (97 <=? n) && (n <=? 122) then Some (n - 87)
  else if (65 <=? n) && (n <=? 90) then Some (n - 55)
  else None.

Definition digit_in (radix : Z) (a : ascii) : option Z :=
  match digit_value a with
  | Some d => if d <? radix then Some d else None
  | None => None
  end.

(** The number written by the digits at the head of [s]; [None] when there
    is none. *)
Fixpoint digits_prefix (radix : Z) (s : string) (acc : option Z) : option Z :=
  match s with
  | EmptyString => acc
  | String a s' =>
      match digit_in radix a with
      | Some d => digits_prefix radix s' (Some (radix * default 0 acc + d))
      | None => acc
      end
  end.

(** [parseInt(s)] without a radix: leading white space, a sign, [0x] for
    hexadecimal, then the digits there are; [None] is [NaN]. *)
Definition parseInt (s : string) : option Z :=
  let s1 := skip_space s in
  let '(sign, s2) :=
    match s1 with
    | String a s' =>
        if Ascii.eqb a "-" then (-1, s')
        else if Ascii.eqb a "+" then (1, s')
        else (1, s1)
    | EmptyString => (1, s1)
    end in
  let '(radix, s3) :=
    match s2 with
    | String a (String b s') =>
        if Ascii.eqb a "0" && (Ascii.eqb b "x" || Ascii.eqb b "X") then (16, s')
        else (10, s2)
    | _ => (10, s2)
    end in
  Z.mul sign <$> digits_prefix radix s3 None.

(** ** GET /api/orders/next-order-number *)

(** What [new Date()] tells the handler: [getDate()], [getMonth()] and
    [getFullYear()]. *)
Record date : Type := Date {
  getDate : nat;
  getMonth : nat;
  getFullYear : nat
}.

Definition day (today : date) : string := padStart 2 "0" (dec (getDate today)).
Definition month (today : date) : string := padStart 2 "0" (dec (getMonth today + 1)).
Definition year (today : date) : string := slice_last 2 (dec (getFullYear today)).

(** [`SQ-${day}-${month}-${year}-${nextSequence}`]. *)
Definition orderNumber (today : date) (nextSequence : string) : string :=
  "SQ-" +:+ day today +:+ "-" +:+ month today +:+ "-" +:+ year today
  +:+ "-" +:+ nextSequence.

(** The sequence part the handler settles on, from [result.rows] of the
    query for the latest order number; a row is the object the driver
    hands back, keyed by the names it gives the columns, and
    [row0 !! "order_no"] is [result.rows[0].order_no].  [None] is the
    [TypeError] of [orderNo.split] on a value that is not text. *)
Definition nextSequence (rows : list (gmap string value)) (today : date) : option string :=
  match rows with
  | [] => Some "0001"
  | row0 :: _ =>
      if truthy (row0 !! "order_no") then
        match row0 !! "order_no" with
        | Some (VStr orderNo) =>
            let parts := split_on "-" orderNo in
            if (5 <=? length parts)%nat then
              let lastDate :=
                nth 1 parts "" +:+ "-" +:+ nth 2 parts "" +:+ "-" +:+ nth 3 parts "" in
              let currentDate := day today +:+ "-" +:+ month today +:+ "-" +:+ year today in
              if String.eqb lastDate currentDate then
                let lastSequence := default 0 (parseInt (nth 4 parts "")) in
                Some (padStart 4 "0" (toString (lastSequence + 1)))
              else Some "0001"
            else Some "0001"
        | _ => None
        end
      else Some "0001"
  end.

(** The [orderNumber] of the answer, once the query has answered; the
    two handlers of the route, in src/test.js and src/routes/orders.js,
    compute it alike. *)
Definition next_order_number (rows : list (gmap string value)) (today : date) : option string :=
  orderNumber today <$> nextSequence rows today.

(** *** What the facts about order numbers speak of *)

(** Whether the character [c] is absent from [s]. *)
Fixpoint without (c : ascii) (s : string) : bool :=
  match s with
  | EmptyString => true
  | String a s' => negb (Ascii.eqb a c) && without c s'
  end.

(** Whether [a] is one of the ten decimal digits. *)
Definition is_decimal (a : ascii) : bool :=
  match digit_in 10 a with Some _ => true | None => false end.

Fixpoint all_decimal (s : string) : bool :=
  match s with
  | EmptyString => true
  | String a s' => is_decimal a && all_decimal s'
  end.

(** The object of a row of the query whose column is named as the handler
    reads it. *)
Definition latest (orderNo : string) : gmap string value := {["order_no" := VStr orderNo]}.

(** The third of February 2025. *)
Definition sample_day : date := Date 3 1 2025.

(** ** POST /orders *)

(** [v ?? d]. *)
Definition or_nullish (v : option value) (d : value) : value :=
  match v with
  | None | Some VNull => d
  | Some x => x
  end.

(** [String(v)]. *)
Definition String_of (v : option value) : string :=
  match v with
  | None => "undefined"
  | Some VNull => "null"
  | Some (VBool true) => "true"
  | Some (VBool false) => "false"
  | Some (VNum n) => toString n
  | Some (VStr s) => s
  end.

(** Whether [/\s*%/] matches at the head of [s], and what is left of [s]
    after the match. *)
Definition match_percent (s : string) : option string :=
  match skip_space s with
  | String a rest => if Ascii.eqb a "%" then Some rest else None
  | EmptyString => None
  end.

(** [s.replace(/\s*%/, '')]: the leftmost match goes. *)
Fixpoint replace_percent (s : string) : string :=
  match match_percent s with
  | Some rest => rest
  | None =>
      match s with
      | EmptyString => EmptyString
      | String a s' => String a (replace_percent s')
      end
  end.

(** Whether [s] has no white space at either end. *)
Definition trimmed (s : string) : Prop := trim s = s.

(** A bind value that may be [undefined]: the driver sends NULL for it. *)
Definition bind_of (v : option value) : value := default VNull v.

(** What the handlers of [POST /orders] answer instead of the ids. *)
Inductive post_error : Type :=
| NoOrdersProvided
    (* 400 'No orders provided' *)
| OrderNumberRequiredAt (index : nat)
    (* `Order number is required for item at index ${index}` *)
| DeliveryDateRequired (order_no : string)
    (* `Delivery date is required for order ${order_no}` *)
| TrimNotAFunction
    (* TypeError: item.order_no?.trim is not a function *)
| PostFailed (e : error).
    (* what the transaction threw *)

(** [insertedCount] and the ids handed back by [RETURNING id]. *)
Record post_response : Type := PostResponse {
  insertedCount : nat;
  insertedIds : list (option Z)
}.

(** The rows that the INSERTs among [ops] add to a table whose next id is
    [next]. *)
Fixpoint rows_inserted (next : Z) (ops : list statement) : list row :=
  match ops with
  | [] => []
  | InsertRow key vals :: ops' => Row next key vals :: rows_inserted (next + 1) ops'
  | _ :: ops' => rows_inserted next ops'
  end.

(** [first], [first + 1], .. : [n] ids. *)
Fixpoint ids_from (first : Z) (n : nat) : list Z :=
  match n with
  | O => []
  | S n' => first :: ids_from (first + 1) n'
  end.

Section PostOrders.
Variable fails : nat → statement → bool.
Variable toOracleDate : option value → value.
Variable now : value.

(** *** src/routes/orders.js *)

(** The [binds] of the INSERT, but for [order_no] and the out bind [id]. *)
Definition post_binds (item : gmap string value) (order_date delivery_date : value)
    : gmap string value :=
  list_to_map [
    ("voucher_type", or_default (item !! "voucher_type") (VStr "Distributor Order-Web Based"));
    ("order_date", order_date);
    ("status", or_default (item !! "status") (VStr "pending"));
    ("customer_code", or_default (item !! "customer_code") (VStr ""));
    ("executive", or_default (item !! "executive") (VStr ""));
    ("role", or_default (item !! "role") (VStr "distributor"));
    ("customer_name", or_default (item !! "customer_name") (VStr ""));
    ("item_code", or_default (item !! "item_code") (VStr ""));
    ("item_name", or_default (item !! "item_name") (VStr ""));
    ("hsn", or_default (item !! "hsn") (VStr ""));
    ("gst", match item !! "gst" with
            | None | Some VNull => VNum 0
            | gst => VStr (replace_percent (String_of gst))
            end);
    ("sgst", or_nullish (item !! "sgst") (VNum 0));
    ("cgst", or_nullish (item !! "cgst") (VNum 0));
    ("igst", or_nullish (item !! "igst") (VNum 0));
    ("delivery_date", delivery_date);
    ("delivery_mode", or_default (item !! "delivery_mode") (VStr ""));
    ("transporter_name", or_default (item !! "transporter_name") (VStr ""));
    ("quantity", or_nullish (item !! "quantity") (VNum 0));
    ("uom", or_default (item !! "uom") (VStr ""));
    ("rate", or_nullish (item !! "rate") (VNum 0));
    ("amount", or_nullish (item !! "amount") (VNum 0));
    ("net_rate", or_nullish (item !! "net_rate") (VNum 0));
    ("gross_amount", or_nullish (item !! "gross_amount") (VNum 0));
    ("disc_percentage", or_nullish (item !! "disc_percentage") (VNum 0));
    ("disc_amount", or_nullish (item !! "disc_amount") (VNum 0));
    ("spl_disc_percentage", or_nullish (item !! "spl_disc_percentage") (VNum 0));
    ("spl_disc_amount", or_nullish (item !! "spl_disc_amount") (VNum 0));
    ("total_quantity", or_nullish (item !! "total_quantity") (VNum 0));
    ("total_amount_without_tax", or_nullish (item !! "total_amount_without_tax") (VNum 0));
    ("total_cgst_amount", or_nullish (item !! "total_cgst_amount") (VNum 0));
    ("total_sgst_amount", or_nullish (item !! "total_sgst_amount") (VNum 0));
    ("total_igst_amount", or_nullish (item !! "total_igst_amount") (VNum 0));
    ("total_amount", or_nullish (item !! "total_amount") (VNum 0));
    ("remarks", or_default (item !! "remarks") (VStr ""))
  ].

(** One round of [data.map((item, index) => ..)]: the operation, or what
    the round throws. *)
Definition post_operation (index : nat) (item : gmap string value)
    : post_error + statement :=
  match item !! "order_no" with
  | Some (VBool _) | Some (VNum _) => inl TrimNotAFunction
  | given =>
      let order_no := match given with Some (VStr s) => trim s | _ => "" end in
      let order_date := or_default (Some (toOracleDate (item !! "date"))) now in
      let delivery_date :=
        or_default (Some (toOracleDate (item !! "delivery_date"))) order_date in
      if String.eqb order_no "" then inl (OrderNumberRequiredAt index)
      else if negb (truthy (Some delivery_date)) then inl (DeliveryDateRequired order_no)
      else inr (InsertRow order_no (post_binds item order_date delivery_date))
  end.

Fixpoint post_operations (index : nat) (data : list (gmap string value))
    : post_error + list statement :=
  match data with
  | [] => inr []
  | item :: data' =>
      match post_operation index item with
      | inl e => inl e
      | inr op =>
          match post_operations (S index) data' with
          | inl e => inl e
          | inr ops => inr (op :: ops)
          end
      end
  end.

(** [router.post('/orders', ..)] of src/routes/orders.js. *)
Definition post_orders_routes (data : list (gmap string value))
    : conn → (post_error + post_response) * conn :=
  fun c =>
    if null data then (inl NoOrdersProvided, c)
    else
      match post_operations 0 data with
      | inl e => (inl e, c)
      | inr operations =>
          match executeTransaction fails (map sql_binds operations) c with
          | (inl e, c') => (inl (PostFailed e), c')
          | (inr results, c') =>
              (inr (PostResponse (length data) (map (fun r => head (outBinds r)) results)),
               c')
          end
      end.

(** *** src/test.js *)

(** What the column [order_no] makes of a bind value that is bound as it
    comes, text or not. *)
Variable as_text : option value → string.

Definition post_binds_test (item : gmap string value) : gmap string value :=
  list_to_map [
    ("voucher_type", bind_of (item !! "voucher_type"));
    ("order_date", bind_of (item !! "date"));
    ("status", bind_of (item !! "status"));
    ("customer_code", bind_of (item !! "customer_code"));
    ("executive", bind_of (item !! "executive"));
    ("role", bind_of (item !! "role"));
    ("customer_name", bind_of (item !! "customer_name"));
    ("item_code", bind_of (item !! "item_code"));
    ("item_name", bind_of (item !! "item_name"));
    ("hsn", bind_of (item !! "hsn"));
    ("gst", VStr (replace_percent (String_of (item !! "gst"))));
    ("sgst", bind_of (item !! "sgst"));
    ("cgst", bind_of (item !! "cgst"));
    ("igst", bind_of (item !! "igst"));
    ("delivery_date", bind_of (item !! "delivery_date"));
    ("delivery_mode", bind_of (item !! "delivery_mode"));
    ("transporter_name", bind_of (item !! "transporter_name"));
    ("quantity", bind_of (item !! "quantity"));
    ("uom", bind_of (item !! "uom"));
    ("rate", bind_of (item !! "rate"));
    ("amount", bind_of (item !! "amount"));
    ("net_rate", bind_of (item !! "net_rate"));
    ("gross_amount", bind_of (item !! "gross_amount"));
    ("disc_percentage", bind_of (item !! "disc_percentage"));
    ("disc_amount", bind_of (item !! "disc_amount"));
    ("spl_disc_percentage", bind_of (item !! "spl_disc_percentage"));
    ("spl_disc_amount", bind_of (item !! "spl_disc_amount"));
    ("total_quantity", or_nullish (item !! "total_quantity") (VNum 0));
    ("total_amount_without_tax", or_nullish (item !! "total_amount_without_tax") (VNum 0));
    ("total_cgst_amount", or_nullish (item !! "total_cgst_amount") (VNum 0));
    ("total_sgst_amount", or_nullish (item !! "total_sgst_amount") (VNum 0));
    ("total_igst_amount", or_nullish (item !! "total_igst_amount") (VNum 0));
    ("total_amount", or_nullish (item !! "total_amount") (VNum 0));
    ("remarks", or_nullish (item !! "remarks") (VStr ""))
  ].

(** The INSERT of one round of [for (const item of data)]. *)
Definition post_insert_test (item : gmap string value) : statement :=
  InsertRow (as_text (item !! "order_no")) (post_binds_test item).

(** [for (const item of data) { .. insertedIds.push(result.outBinds[0][0]) }]. *)
Fixpoint insert_each (data : list (gmap string value)) : M (list (option Z)) :=
  match data with
  | [] => mret []
  | item :: data' =>
      result ← execute fails (post_insert_test item);
      insertedIds ← insert_each data';
      mret (head (outBinds result) :: insertedIds)
  end.

(** [app.post('/orders', ..)] of src/test.js. *)
Definition post_orders_test (data : list (gmap string value))
    : conn → (post_error + post_response) * conn :=
  fun c =>
    if null data then (inl NoOrdersProvided, c)
    else
      match try_rollback (execute fails Begin;;
                          insertedIds ← insert_each data;
                          commit fails;;
                          mret insertedIds) c with
      | (inl e, c') => (inl (PostFailed e), c')
      | (inr insertedIds, c') =>
          (inr (PostResponse (length insertedIds) insertedIds), c')
      end.

Definition post_orders (h : handler) (data : list (gmap string value))
    : conn → (post_error + post_response) * conn :=
  match h with
  | TestJs => post_orders_test data
  | RoutesJs => post_orders_routes data
  end.

(** The INSERTs a call sends when every round goes through. *)
Definition post_statements (h : handler) (data : list (gmap string value))
    : list statement :=
  match h with
  | TestJs => map post_insert_test data
  | RoutesJs => match post_operations 0 data with inr ops => ops | inl _ => [] end
  end.
End PostOrders.

(** The column [order_no] for the samples: text as it is, nothing for
    anything else. *)
Definition text_of (v : option value) : string :=
  match v with Some (VStr s) => s | _ => "" end.

(** A batch of two for one order, the first with white space around the
    number and a [gst] in percent. *)
Definition sample_orders : list (gmap string value) :=
  [ <["order_no" := VStr " SQ-03-02-25-0001 "]> (<["gst" := VStr "18 %"]> {["item_name" := VStr "Rod"]});
    <["order_no" := VStr "SQ-03-02-25-0001"]> {["item_name" := VStr "Wire"]} ].

(** ** GET /orders-by-number/:order_no *)

(** What the handlers of [GET /orders-by-number/:order_no] answer. *)
Inductive get_answer : Type :=
| GetBadRequest
    (* 400 'Order Number is required' *)
| GetNotFound
    (* 404 'Order not found' (src/routes/orders.js), 'No orders found' (src/test.js) *)
| GetFailed
    (* 500 'Internal server error' *)
| GetFound (data : list row) (count : nat).
    (* { success: true, data: result.rows, count: result.rows.length } *)

Section GetOrders.
(** Whether the storage rejects the query. *)
Variable rejected : bool.
(** The rows whose [created_at] the storage finds equal to the text bound
    for the optional filter. *)
Variable created_at_is : string → row → bool.

(** [SELECT * FROM orders WHERE order_no = :1], with [AND created_at = :2]
    when the query string has a [created_at]; the rows come in the order
    of the table. *)
Definition select_by_number (order_no : string) (created_at : option string)
    (t : list row) : list row :=
  List.filter
    (fun r => in_order order_no r
              && match created_at with
                 | Some at_ => if String.eqb at_ "" then true else created_at_is at_ r
                 | None => true
                 end) t.

(** The handler, on the committed rows [t]. *)
Definition get_orders_by_number (order_no : string) (created_at : option string)
    (t : list row) : get_answer :=
  if String.eqb order_no "" then GetBadRequest
  else if rejected then GetFailed
  else
    let rows := select_by_number order_no created_at t in
    if null rows then GetNotFound else GetFound rows (length rows).
End GetOrders.

(** ** More about the reconciler *)

(** How a call of src/test.js for an order that does not exist stops when
    the body carries an update with a property on the allow-list. *)
Definition fresh_update_error (fails : nat → statement → bool) (key : string)
    (allItems : list item) (e : error) : Prop :=
  (e = OrderDoesNotExist key ∧ itemsToInsert allItems = [])
  ∨ (∃ u, In u (itemsToUpdate allItems) ∧ e = NoRecordFound (the_id u) key)
  ∨ (∃ n s, e = StorageError n s
            ∧ (fails n s = true ∨ s = DeleteReturning (map the_id (itemsToDelete allItems)) key)).

(** No row of the order [key] has the id of an item of [body]. *)
Definition strangers (key : string) (body : list item) (t : list row) : Prop :=
  ∀ i r, In i body → In r t → in_order key r = true → row_id r ≠ id_key i.

(** ** POST /signup-admin: the checks before the storage is asked *)

(** What a pattern reads of a text, one after the other: a white-space
    character, or a byte of a character that is not white space.  Such a
    character makes as many symbols as it has bytes, where the handler
    sees one or two units of it; a pattern that repeats its classes with
    [+], as the one of the sign-up does, cannot tell. *)
Inductive symbol : Type :=
| WhiteSpace
| Other (a : ascii).

(** The symbols of [s], [n] of them at most. *)
Fixpoint symbols_of (n : nat) (s : string) : list symbol :=
  match n with
  | O => []
  | S n' =>
      match space_ahead s with
      | Some rest => WhiteSpace :: symbols_of n' rest
      | None =>
          match s with
          | String a s' => Other a :: symbols_of n' s'
          | EmptyString => []
          end
      end
  end.

Definition symbols (s : string) : list symbol := symbols_of (String.length s) s.

(** A regular expression without groups to remember: what the pattern of
    the handler is made of. *)
Inductive regex : Type :=
| Nothing
| Epsilon
| Class (p : symbol → bool)
| Cat (r1 r2 : regex)
| Or (r1 r2 : regex)
| Star (r : regex).

(** [r+]. *)
Definition Plus (r : regex) : regex := Cat r (Star r).

Fixpoint nullable (r : regex) : bool :=
  match r with
  | Nothing => false
  | Epsilon => true
  | Class _ => false
  | Cat r1 r2 => nullable r1 && nullable r2
  | Or r1 r2 => nullable r1 || nullable r2
  | Star _ => true
  end.

(** What is left of [r] to match once [a] has been read. *)
Fixpoint derive (a : symbol) (r : regex) : regex :=
  match r with
  | Nothing | Epsilon => Nothing
  | Class p => if p a then Epsilon else Nothing
  | Cat r1 r2 =>
      if nullable r1 then Or (Cat (derive a r1) r2) (derive a r2)
      else Cat (derive a r1) r2
  | Or r1 r2 => Or (derive a r1) (derive a r2)
  | Star r1 => Cat (derive a r1) (Star r1)
  end.

(** Whether [r] matches all of the symbols [w]. *)
Fixpoint matches (r : regex) (w : list symbol) : bool :=
  match w with
  | [] => nullable r
  | a :: w' => matches (derive a r) w'
  end.

(** [/^r$/.test(s)]. *)
Definition test (r : regex) (s : string) : bool := matches r (symbols s).


(** [[^\s@]]. *)
Definition not_space_at (x : symbol) : bool :=
  match x with
  | WhiteSpace => false
  | Other a => negb (Ascii.eqb a "@")
  end.

(** The character [c], which is not white space. *)
Definition is_char (c : ascii) (x : symbol) : bool :=
  match x with
  | WhiteSpace => false
  | Other a => Ascii.eqb c a
  end.

(** [/^[^\s@]+@[^\s@]+\.[^\s@]+$/]. *)
Definition emailRegex : regex :=
  Cat (Plus (Class not_space_at))
    (Cat (Class (is_char "@"))
       (Cat (Plus (Class not_space_at))
          (Cat (Class (is_char "."))
             (Plus (Class not_space_at))))).

Inductive signup_error : Type :=
| UsernameAndEmailRequired
    (* 400 "Username and email are required" *)
| InvalidEmailFormat.
    (* 400 "Invalid email format" *)

(** The two checks of the handler on [req.body]; [None] when both pass. *)
Definition signup_checks (username email : option value) : option signup_error :=
  if negb (truthy username) || negb (truthy email) then Some UsernameAndEmailRequired
  else if negb (test emailRegex (String_of email)) then Some InvalidEmailFormat
  else None.



(** ** PUT /distributors/:customer_code and PUT /corporates/:customer_code *)

(** A row of [customer]. *)
Record customer : Type := Customer {
  customer_code : string;
  details : gmap string value
}.

Definition allowedFields_customer : list string := [
  "customer_name"; "mobile_number"; "email"; "customer_type"; "password";
  "role"; "status"; "firebase_uid"
].

Inductive customer_answer : Type :=
| NoUpdateData
    (* 400 "No update data provided" *)
| NoValidFields
    (* 400 "No valid fields to update" *)
| CustomerNotFound
    (* 404 "Distributor not found", "Corporate not found" *)
| DatabaseError
    (* 500 "Database error" *)
| CustomerUpdated (affectedRows : nat).
    (* "Distributor updated successfully", "Corporate updated successfully" *)

(** [UPDATE customer SET .. WHERE customer_code = :n]: the rows affected
    and the table as the transaction then sees it. *)
Definition update_customer (sets : gmap string value) (code : string)
    (t : list customer) : nat * list customer :=
  (length (List.filter (fun c => String.eqb (customer_code c) code) t),
   map (fun c => if String.eqb (customer_code c) code
                 then Customer (customer_code c) (sets ∪ details c) else c) t).

(** [executeQuery] of src/test.js for a statement that changes rows: a
    connection of its own, [autoCommit] as the options say (false when
    they say nothing), released when the statement is done; what has
    not been committed by then is rolled back.  [rejected] tells whether
    the storage refuses the statement. *)
Definition executeQuery_test {T R : Type} (autoCommit rejected : bool)
    (run : T → R * T) (stored : T) : option R * T :=
  if rejected then (None, stored)
  else
    let '(result, seen) := run stored in
    (Some result, if autoCommit then seen else stored).

(** The handler of either route, on the stored rows of [customer]. *)
Definition put_customer (rejected : bool) (customerCode : string)
    (updates : gmap string value) (stored : list customer)
    : customer_answer * list customer :=
  if bool_decide (updates = ∅) then (NoUpdateData, stored)
  else
    let filteredUpdates := filter_allowed allowedFields_customer updates in
    if bool_decide (filteredUpdates = ∅) then (NoValidFields, stored)
    else
      match executeQuery_test false rejected
              (update_customer filteredUpdates customerCode) stored with
      | (None, stored') => (DatabaseError, stored')
      | (Some rowsAffected, stored') =>
          if (rowsAffected =? 0)%nat then (CustomerNotFound, stored')
          else (CustomerUpdated rowsAffected, stored')
      end.

(** Two customers. *)
Definition sample_customers : list customer :=
  [Customer "D1" {["customer_name" := VStr "Acme"]};
   Customer "K7" {["customer_name" := VStr "Zenith"]}].

(** ** More sample data *)

(** A batch of three, the second item without an order number. *)
Definition unnumbered_orders : list (gmap string value) :=
  [ <["order_no" := VStr "SQ-03-02-25-0001"]> {["item_name" := VStr "Rod"]};
    {["item_name" := VStr "Wire"]};
    <["order_no" := VStr "SQ-03-02-25-0002"]> {["item_name" := VStr "Flux"]} ].


(** The same, the first with [autoCommit]. *)
Definition committing_operations : list operation :=
  [Operation (InsertRow "C" {["item_name" := VStr "Rod"]}) (Some (Options true));
   sql_binds (DeleteIn [1] "A")].

(** An update of row 1 and a new item. *)
Definition update_and_insert : list item :=
  [Item (Some 1) false {["quantity" := VNum 7]};
   Item None false {["item_name" := VStr "New"]}].

(** An update of row 3, which belongs to order B, and the deletion of a
    row that does not exist. *)
Definition strangers_body : list item :=
  [Item (Some 3) false {["quantity" := VNum 9]}; Item (Some 9) true ∅].

(** * More about the update of an order *)

(** An item that is flagged for deletion and has no id: it falls in none
    of the three partitions. *)
Definition is_dropped (i : item) : bool := negb (has_id i) && _deleted i.

(** An update of row 1, and an item flagged for deletion that was never
    persisted. *)
Definition update_and_unsaved : list item :=
  [Item (Some 1) false {["quantity" := VNum 7]}; flagged_unsaved].

(** Rows 1 and 2 of order A flagged for deletion, row 1 twice. *)
Definition delete_twice : list item :=
  [Item (Some 1) true ∅; Item (Some 2) true ∅; Item (Some 1) true ∅].

(** Row 1 of order A flagged for deletion, one row changed, two items new. *)
Definition delete_update_insert : list item :=
  [Item None false {["item_name" := VStr "Bolt"]};
   Item (Some 1) true ∅;
   Item None false {["item_name" := VStr "Nut"]};
   Item (Some 2) false {["quantity" := VNum 4]}].

(** The columns a handler can write to a row that is there: the
    allow-list of its update loop and, in src/test.js, the order-level
    fields of the final UPDATE. *)
Definition writable (h : handler) : list string :=
  match h with
  | TestJs => allowedFields_test ++ commonFields
  | RoutesJs => allowedFields
  end.

(** The rows of the order [key] that were there before the call (their id
    is below [next0], where the sequence stood) still have in column [k]
    what they had among the rows [t0]. *)
Definition column_kept (k key : string) (t0 : list row) (next0 : Z) (c : conn) : Prop :=
  next0 ≤ next_id c
  ∧ ∀ row, In row (working c) → in_order key row = true → row_id row < next0 →
      ∃ row0, In row0 (rows_of key t0) ∧ row_id row0 = row_id row
              ∧ cols row !! k = cols row0 !! k.

(** An update of row 1 of order A that names the customer, which is on
    neither allow-list, and the quantity. *)
Definition rename_customer : list item :=
  [Item (Some 1) false (<["customer_name" := VStr "Zenith"]> {["quantity" := VNum 8]})].

(** None of the rows of the order [key] that were there before the call
    (their id is below [next0], where the sequence stood) has its id
    among [ids]. *)
Definition deleted_stay_out (ids : list Z) (key : string) (next0 : Z) (c : conn) : Prop :=
  next0 ≤ next_id c
  ∧ ∀ row, In row (working c) → in_order key row = true → row_id row < next0 →
      id_in ids row = false.

(** The allow-list of the update loop of a handler. *)
Definition allow_list (h : handler) : list string :=
  match h with
  | TestJs => allowedFields_test
  | RoutesJs => allowedFields
  end.

(** The value a handler binds for the property [f] of an update item:
    src/routes/orders.js passes the two dates through [toOracleDate]. *)
Definition written (toOracleDate : option value → value) (h : handler)
    (f : string) (v : value) : value :=
  match h with
  | TestJs => v
  | RoutesJs =>
      if String.eqb f "order_date" || String.eqb f "delivery_date"
      then toOracleDate (Some v) else v
  end.

(** Once the update of the row [i] has been sent ([seen]), every row of
    the order [key] with this id has [w] in column [f]. *)
Definition update_seen (i : Z) (f : string) (w : value) (key : string) (next0 : Z)
    (seen : bool) (c : conn) : Prop :=
  next0 ≤ next_id c
  ∧ (seen = true →
     ∀ row, In row (working c) → in_order key row = true → row_id row = i →
       cols row !! f = Some w).

(** The UPDATE statements for the row [i]. *)
Definition updates_row (i : Z) (s : statement) : bool :=
  match s with
  | UpdateRow _ i' _ => i' =? i
  | _ => false
  end.

(** The order [key] has a row with the id [i], as the transaction sees it. *)
Definition row_there (i : Z) (key : string) (c : conn) : Prop :=
  ∃ row, In row (working c) ∧ in_order key row = true ∧ row_id row = i.

(** An update of the quantity of row 2 of order A. *)
Definition update_row_2 : list item :=
  [Item (Some 2) false {["quantity" := VNum 4]}].

(** * Facts about the definitions *)

(** ** The stable sort *)

Section StableSortFacts.
Context {A : Type} (key : A → Z).

Lemma ascending_tail x l : ascending key (x :: l) → ascending key l.
Proof. simpl. tauto. Qed.

Lemma ascending_head x l : ascending key (x :: l) → ∀ y, In y l → key x <= key y.
Proof.
  revert x. induction l as [|z l IH]; intros x H y Hy; [done|].
  destruct H as [Hxz Hl]. destruct Hy as [->|Hy]; [done|].
  specialize (IH z Hl y Hy). lia.
Qed.

Lemma insert_by_ascending x l : ascending key l → ascending key (insert_by key x l).
Proof.
  induction l as [|y l IH]; intros Hl; [done|]. simpl.
  destruct (key x <=? key y) eqn:Hle.
  - split; [lia|done].
  - specialize (IH (ascending_tail _ _ Hl)). split; [|done].
    destruct l as [|z l]; simpl in *; [lia|].
    destruct (key x <=? key z); [lia|]. tauto.
Qed.

Lemma sort_by_ascending l : ascending key (sort_by key l).
Proof. induction l; simpl; [done|]. by apply insert_by_ascending. Qed.

Lemma insert_by_In x l y : In y (insert_by key x l) ↔ y = x ∨ In y l.
Proof.
  induction l as [|z l IH]; simpl; [intuition congruence|].
  destruct (key x <=? key z); simpl; [intuition congruence|].
  rewrite IH. intuition congruence.
Qed.

Lemma sort_by_In l y : In y (sort_by key l) ↔ In y l.
Proof.
  induction l as [|x l IH]; simpl; [done|].
  rewrite insert_by_In, IH. intuition congruence.
Qed.

Lemma sort_by_length l : length (sort_by key l) = length l.
Proof.
  assert (Hi : ∀ x l, length (insert_by key x l) = Datatypes.S (length l)).
  { intros x l0. induction l0 as [|y l0 IH]; simpl; [done|].
    destruct (_ <=? _); simpl; by rewrite ?IH. }
  induction l as [|x l IH]; simpl; [done|]. by rewrite Hi, IH.
Qed.

(** Inserting in front of keys that are not smaller. *)
Lemma insert_by_front x l :
  (∀ y, In y l → key x <= key y) → insert_by key x l = x :: l.
Proof.
  destruct l as [|y l]; intros H; [done|]. simpl.
  specialize (H y (or_introl eq_refl)).
  destruct (key x <=? key y) eqn:Hle; [done|lia].
Qed.

(** A list whose keys already ascend is left as it is. *)
Lemma sort_by_ascending_id l : ascending key l → sort_by key l = l.
Proof.
  induction l as [|x l IH]; intros Hl; [done|]. simpl.
  rewrite IH by (by eapply ascending_tail).
  apply insert_by_front. by apply ascending_head.
Qed.

(** Stability: the elements a test keeps come out of the sorted list in
    the order in which sorting them alone would put them. *)
Lemma filter_insert_by (p : A → bool) x l :
  ascending key l →
  List.filter p (insert_by key x l)
  = if p x then insert_by key x (List.filter p l) else List.filter p l.
Proof.
  induction l as [|y l IH]; intros Hl; simpl; [done|].
  destruct (key x <=? key y) eqn:Hle; simpl.
  - destruct (p x) eqn:Hx; [|done].
    destruct (p y) eqn:Hy; simpl; [by rewrite Hle|].
    symmetry. apply insert_by_front. intros z Hz.
    apply filter_In in Hz as [Hz _].
    pose proof (ascending_head _ _ Hl z Hz). lia.
  - rewrite IH by (by eapply ascending_tail).
    destruct (p y) eqn:Hy, (p x) eqn:Hx; simpl; by rewrite ?Hle.
Qed.

Lemma filter_sort_by (p : A → bool) l :
  List.filter p (sort_by key l) = sort_by key (List.filter p l).
Proof.
  induction l as [|x l IH]; simpl; [done|].
  rewrite filter_insert_by by apply sort_by_ascending.
  rewrite IH. by destruct (p x).
Qed.

(** Elements with one and the same key keep their order. *)
Lemma sort_by_constant k l :
  (∀ x, In x l → key x = k) → sort_by key l = l.
Proof.
  intros H. apply sort_by_ascending_id.
  induction l as [|x l IH]; [done|]. split.
  - destruct l as [|y l]; [done|].
    rewrite (H x), (H y); [lia|right; by left|by left].
  - apply IH. intros y Hy. apply H. by right.
Qed.
End StableSortFacts.

Lemma existsb_false_filter {A} (p : A → bool) t :
  existsb p t = false → List.filter p t = [].
Proof.
  induction t as [|r t IH]; simpl; [done|].
  destruct (p r); simpl; [done|exact IH].
Qed.

(** The partitions of the sorted body, in terms of the body as submitted. *)
Lemma is_insert_key i : is_insert i = true → id_key i = 0.
Proof.
  unfold is_insert, has_id, id_key. destruct (id i) as [n|]; [|done].
  destruct (n =? 0) eqn:Hn; simpl; [lia|done].
Qed.

Lemma itemsToInsert_sorted body :
  itemsToInsert (sort_items body) = List.filter is_insert body.
Proof.
  unfold itemsToInsert, sort_items. rewrite filter_sort_by.
  apply (sort_by_constant _ 0). intros x Hx.
  apply filter_In in Hx as [_ Hx]. by apply is_insert_key.
Qed.

Lemma itemsToUpdate_sorted body :
  itemsToUpdate (sort_items body) = sort_by id_key (List.filter is_update body).
Proof. apply filter_sort_by. Qed.

Lemma itemsToDelete_sorted body :
  itemsToDelete (sort_items body) = sort_by id_key (List.filter is_delete body).
Proof. apply filter_sort_by. Qed.

(** * Reasoning about code on a connection *)

Lemma triple_ret {A} (P : conn → Prop) (a : A) Q E :
  (∀ c, P c → Q a c) → triple P (mret a) Q E.
Proof. intros H c Hc. cbn. auto. Qed.

Lemma triple_throw {A} (P : conn → Prop) e (Q : A → conn → Prop) (E : error → conn → Prop) :
  (∀ c, P c → E e c) → triple P (throw e) Q E.
Proof. intros H c Hc. cbn. auto. Qed.

Lemma triple_bind {A B} (P : conn → Prop) (m : M A) (k : A → M B) R Q E :
  triple P m R E → (∀ a, triple (R a) (k a) Q E) → triple P (m ≫= k) Q E.
Proof.
  intros Hm Hk c Hc. specialize (Hm c Hc).
  unfold mbind, M_bind, bind. destruct (m c) as [[e|a] c']; [exact Hm|].
  apply Hk, Hm.
Qed.

Lemma triple_weaken {A} (P P' : conn → Prop) (m : M A) (Q Q' : A → conn → Prop) (E E' : error → conn → Prop) :
  triple P' m Q' E' →
  (∀ c, P c → P' c) → (∀ a c, Q' a c → Q a c) → (∀ e c, E' e c → E e c) →
  triple P m Q E.
Proof.
  intros Hm HP HQ HE c Hc. specialize (Hm c (HP c Hc)).
  destruct (m c) as [[e|a] c']; auto.
Qed.

Lemma triple_when (P : conn → Prop) b m (Q : unit → conn → Prop) E :
  (b = true → triple P m Q E) → (b = false → ∀ c, P c → Q tt c) →
  triple P (when b m) Q E.
Proof.
  intros H1 H2. destruct b eqn:Hb; cbn; [auto|]. intros c Hc. cbn. auto.
Qed.

Lemma triple_for_each {A} (I : conn → Prop) (l : list A) body E :
  (∀ x, In x l → triple I (body x) (fun _ => I) E) →
  triple I (for_each l body) (fun _ => I) E.
Proof.
  induction l as [|x l IH]; intros H; cbn.
  - apply triple_ret; auto.
  - eapply triple_bind; [apply H; by left|].
    intros []. apply IH. intros y Hy. apply H. by right.
Qed.

Lemma triple_any {A} (m : M A) :
  triple (fun _ => True) m (fun _ _ => True) (fun _ _ => True).
Proof. intros c _. by destruct (m c) as [[e|a] c']. Qed.

Lemma triple_false {A} (m : M A) Q E : triple (fun _ => False) m Q E.
Proof. by intros c []. Qed.

Lemma triple_pure {A} (φ : Prop) (P : conn → Prop) (m : M A) Q E :
  (φ → triple P m Q E) → triple (fun c => φ ∧ P c) m Q E.
Proof. intros H c [Hφ Hc]. by apply H. Qed.


Section ExecuteRules.
Variable fails : nat → statement → bool.

(** What a call of [execute] does, by cases on the engine. *)
Lemma triple_execute (P : conn → Prop) s (Q : reply → conn → Prop) E :
  (∀ c, P c →
     if fails (length (log c)) s
     then E (StorageError (length (log c)) s)
            (Conn (committed c) (working c) (next_id c) (log c ++ [s]))
     else Q (run_statement s (Db (working c) (next_id c))).1
            (Conn (committed c)
               (db_rows (run_statement s (Db (working c) (next_id c))).2)
               (db_next_id (run_statement s (Db (working c) (next_id c))).2)
               (log c ++ [s]))) →
  triple P (execute fails s) Q E.
Proof.
  intros H c Hc. specialize (H c Hc). unfold execute.
  destruct (fails (length (log c)) s); [exact H|].
  destruct (run_statement s _) as [r d]. exact H.
Qed.

(** The driver rejects a statement it cannot bind. *)
Lemma triple_execute_unbound (P : conn → Prop) s (Q : reply → conn → Prop) E :
  (∀ c, P c →
     E (StorageError (length (log c)) s)
       (Conn (committed c) (working c) (next_id c) (log c ++ [s]))) →
  triple P (execute_unbound s) Q E.
Proof. intros H c Hc. exact (H c Hc). Qed.

Lemma triple_try_rollback {A} (P : conn → Prop) (body : M A) Q E E' :
  triple P body Q E' →
  (∀ e c, E' e c → E e (rollback c)) →
  triple P (try_rollback body) Q E.
Proof.
  intros Hb HE c Hc. specialize (Hb c Hc). unfold try_rollback.
  destruct (body c) as [[e|a] c']; auto.
Qed.

Lemma triple_executeQuery (P : conn → Prop) s (Q : reply → conn → Prop) E :
  triple (fun c => ∃ c0, P c0 ∧ c = Conn (committed c0) (committed c0) (next_id c0) (log c0))
         (execute fails s) Q E →
  triple P (executeQuery fails s) Q E.
Proof.
  intros H c Hc. unfold executeQuery. apply H. eauto.
Qed.

Lemma triple_commit (P : conn → Prop) (Q : unit → conn → Prop) E :
  (∀ c, P c →
     if fails (length (log c)) Commit
     then E (StorageError (length (log c)) Commit)
            (Conn (committed c) (working c) (next_id c) (log c ++ [Commit]))
     else Q tt (Conn (working c) (working c) (next_id c) (log c ++ [Commit]))) →
  triple P (commit fails) Q E.
Proof.
  intros H c Hc. specialize (H c Hc). unfold commit.
  destruct (fails (length (log c)) Commit); exact H.
Qed.
End ExecuteRules.

(** An operation pushed as [{ sql, binds }] is executed without options. *)
Ltac without_options :=
  repeat match goal with
         | |- context [execute_operation ?f (sql_binds ?s)] =>
             change (execute_operation f (sql_binds s)) with (execute f s)
         end.

(** ** Invariants of the statements a handler sends *)

Section Invariants.
Variable fails : nat → statement → bool.

Variable I : conn → Prop.
Variable E : error → conn → Prop.

Lemma handle_deletions_stable orderExists key l :
  (orderExists = true → ∀ ids, keeps fails I E (SelectIdsIn ids key)) →
  (orderExists = true → ∀ missing, raises I E (CannotDelete missing key)) →
  (∀ ids, refuses I E (DeleteReturning ids key)) →
  triple I (handle_deletions fails orderExists key l) (fun _ => I) E.
Proof.
  intros Hv Hm Hd. unfold handle_deletions.
  apply triple_when; [intros _|auto].
  eapply (triple_bind _ _ _ (fun _ => I)).
  - apply triple_when; [intros Ho|auto].
    eapply (triple_bind _ _ _ (fun _ => I)); [apply Hv; auto|].
    intros r. simpl. destruct (negb _); [apply triple_throw; by apply Hm|apply triple_ret; auto].
  - intros []. eapply (triple_bind _ _ _ (fun _ _ => False)); [apply Hd|].
    intros r. apply triple_false.
Qed.

Lemma handle_update_stable orderExists key u :
  (orderExists = true → keeps fails I E (SelectOrderNo (the_id u))) →
  (orderExists = true → raises I E (ItemDoesNotExist (the_id u))) →
  (orderExists = true → ∀ found, raises I E (ItemBelongsTo (the_id u) found key)) →
  (∀ sets, keeps fails I E (UpdateRow sets (the_id u) key)) →
  raises I E (NoRecordFound (the_id u) key) →
  triple I (handle_update fails orderExists key u) (fun _ => I) E.
Proof.
  intros Hv H1 H2 Hu H3. unfold handle_update.
  eapply (triple_bind _ _ _ (fun _ => I)).
  - apply triple_when; [intros Ho|auto].
    eapply (triple_bind _ _ _ (fun _ => I)); [apply Hv; auto|].
    intros r. simpl. destruct (rows r) as [|r0 ?]; [apply triple_throw; by apply H1|].
    destruct (String.eqb _ _); [apply triple_ret; auto|apply triple_throw; by apply H2].
  - intros []. simpl. case_bool_decide; [apply triple_ret; auto|].
    eapply (triple_bind _ _ _ (fun _ => I)); [apply Hu|].
    intros r. simpl. destruct (_ =? _)%nat; [apply triple_throw; by apply H3|apply triple_ret; auto].
Qed.

Lemma handle_insert_stable common key i :
  (∀ vals, keeps fails I E (InsertRow key vals)) →
  triple I (handle_insert fails common key i) (fun _ => I) E.
Proof.
  intros Hi. unfold handle_insert.
  eapply (triple_bind _ _ _ (fun _ => I)); [apply Hi|].
  intros r. apply triple_ret; auto.
Qed.

(** The statements between the existence check and the commit. *)
Lemma mutations_stable orderExists today key allItems {A} (k : M A) Q :
  (orderExists = true → ∀ ids, keeps fails I E (SelectIdsIn ids key)) →
  (orderExists = true → ∀ missing, raises I E (CannotDelete missing key)) →
  (∀ ids, refuses I E (DeleteReturning ids key)) →
  (orderExists = true → ∀ i, keeps fails I E (SelectOrderNo i)) →
  (orderExists = true → ∀ i, raises I E (ItemDoesNotExist i)) →
  (orderExists = true → ∀ i found, raises I E (ItemBelongsTo i found key)) →
  (∀ sets i, keeps fails I E (UpdateRow sets i key)) →
  (∀ i, raises I E (NoRecordFound i key)) →
  (∀ vals, keeps fails I E (InsertRow key vals)) →
  (∀ common, keeps fails I E (UpdateCommon common key)) →
  triple I k Q E →
  triple I
    (handle_deletions fails orderExists key (itemsToDelete allItems);;
     when (negb (null (itemsToUpdate allItems)))
       (for_each (itemsToUpdate allItems) (handle_update fails orderExists key));;
     when (negb (null (itemsToInsert allItems)))
       (for_each (itemsToInsert allItems)
          (handle_insert fails (commonOrderDetails today allItems) key));;
     when (orderExists || negb (null (itemsToInsert allItems)))
       (execute fails (UpdateCommon (commonOrderDetails today allItems) key);; mret tt);;
     k) Q E.
Proof.
  intros H1 H2 H3 H4 H5 H6 H7 H8 H9 H10 Hk.
  eapply (triple_bind _ _ _ (fun _ => I)).
  { apply handle_deletions_stable; auto. }
  intros []. eapply (triple_bind _ _ _ (fun _ => I)).
  { apply triple_when; [intros _|auto].
    apply triple_for_each.
    intros x _. apply handle_update_stable; auto. }
  intros []. eapply (triple_bind _ _ _ (fun _ => I)).
  { apply triple_when; [intros _|auto].
    apply triple_for_each.
    intros x _. apply handle_insert_stable; auto. }
  intros []. eapply (triple_bind _ _ _ (fun _ => I)).
  { apply triple_when; [intros _|auto].
    eapply (triple_bind _ _ _ (fun _ => I)); [apply H10|].
    intros r. apply triple_ret; auto. }
  intros []. exact Hk.
Qed.

Lemma execute_all_stable ops :
  (∀ s, In s ops → keeps fails I E s) →
  triple I (execute_all fails (map sql_binds ops)) (fun _ => I) E.
Proof.
  induction ops as [|op ops IH]; intros Hs; cbn.
  - apply triple_ret; auto.
  - eapply (triple_bind _ _ _ (fun _ => I)); [apply Hs; by left|].
    intros r. eapply (triple_bind _ _ _ (fun _ => I)); [apply IH; intros; apply Hs; by right|].
    intros rs. apply triple_ret; auto.
Qed.
End Invariants.

(** * The claims *)

(** ** Atomicity *)

Section Atomicity.
Variable fails : nat → statement → bool.
Variable today : string.
Variable toOracleDate : option value → value.
Variable now : value.

(** No statement touches the committed rows; only [commit] does. *)
Lemma execute_keeps_committed t0 s :
  triple (fun c => committed c = t0) (execute fails s)
         (fun _ c => committed c = t0) (fun _ c => committed c = t0).
Proof.
  apply triple_execute. intros c Hc.
  destruct (fails _ _); simpl; exact Hc.
Qed.

Lemma transaction_test_atomic t0 key allItems :
  triple (fun c => committed c = t0)
         (transaction_test fails today key allItems)
         (fun _ _ => True)
         (fun e c => ¬ read_back_error key e → committed c = t0).
Proof.
  set (I := fun c => committed c = t0).
  set (E := fun e c => ¬ read_back_error key e → committed c = t0).
  assert (Hst : ∀ s, keeps fails I E s).
  { intros s. eapply triple_weaken; [apply (execute_keeps_committed t0 s)|subst I E; simpl; auto..]. }
  assert (Hth : ∀ e, raises I E e) by (by intros e c Hc _).
  assert (Hun : ∀ s, refuses I E s) by (by intros s c Hc _).
  unfold transaction_test.
  eapply (triple_bind _ _ _ (fun _ => I)); [apply Hst|].
  intros _. eapply (triple_bind _ _ _ (fun _ => I)); [apply Hst|].
  intros orderCheck. simpl. eapply (triple_bind _ _ _ (fun _ => I)).
  { destruct (_ && _); [apply triple_throw; apply Hth|by apply triple_ret]. }
  intros []. apply (mutations_stable fails I E); auto.
  eapply (triple_bind _ _ _ (fun _ _ => True)).
  { apply triple_commit. intros c Hc. destruct (fails _ _); [by intros _|done]. }
  intros []. eapply (triple_bind _ _ _ (fun _ _ => True)).
  - apply triple_execute. intros c _. destruct (fails _ _); [|done].
    intros H. exfalso. apply H. by eexists.
  - intros r. by apply triple_ret.
Qed.

Lemma executeTransaction_atomic t0 ops :
  triple (fun c => committed c = t0)
         (executeTransaction fails (map sql_binds ops))
         (fun _ _ => True)
         (fun _ c => committed c = t0 ∧ working c = t0).
Proof.
  set (I := fun c => committed c = t0).
  unfold executeTransaction.
  apply triple_try_rollback with (E' := fun _ => I); [|intros e c Hc; split; exact Hc].
  eapply (triple_bind _ _ _ (fun _ => I)).
  { apply (execute_all_stable fails I (fun _ => I)).
    intros s _. apply execute_keeps_committed. }
  intros results. eapply (triple_bind _ _ _ (fun _ _ => True)).
  { apply triple_commit. intros c Hc. destruct (fails _ _); simpl; auto. }
  intros []. by apply triple_ret.
Qed.

(** C1.  Whichever handler serves the call and whatever the storage
    engine rejects: when the call answers with an error that was raised
    before the commit returned (any error but the one of the read-back
    that follows the commit), the committed rows are the rows from
    before the call, the pending changes of the transaction are gone,
    and that error is the whole answer. *)
Theorem failed_call_changes_nothing h key body d e c' :
  put_order fails today toOracleDate now h key body (connect d) = (inl e, c') →
  ¬ read_back_error key e →
  committed c' = db_rows d ∧ working c' = db_rows d.
Proof.
  intros Hrun Hnot. destruct h; simpl in Hrun.
  - unfold put_order_test in Hrun.
    destruct (blank key); [by inversion Hrun|].
    destruct (null _); [by inversion Hrun|].
    pose proof (transaction_test_atomic (db_rows d) key (sort_items body)
                  (connect d) eq_refl) as H.
    unfold try_rollback in Hrun.
    destruct (transaction_test _ _ _ _ _) as [[e'|a] c1]; [|done].
    inversion Hrun; subst. simpl. split; by apply H.
  - unfold put_order_routes in Hrun.
    destruct (blank key); [by inversion Hrun|].
    destruct (null _); [by inversion Hrun|].
    pose proof (executeTransaction_atomic (db_rows d)
                  (operations toOracleDate now key (sort_items body))
                  (connect d) eq_refl) as H.
    unfold mbind, M_bind, bind in Hrun.
    destruct (executeTransaction _ _ _) as [[e'|a] c1].
    + by inversion Hrun; subst.
    + unfold executeQuery, execute in Hrun. simpl in Hrun.
      destruct (fails _ _); [|done].
      inversion Hrun; subst. exfalso. apply Hnot. by eexists.
Qed.
End Atomicity.

(** ** Items flagged for deletion that were never persisted *)

Lemma filter_sort_items_without (p : item → bool) l1 l2 it :
  p it = false →
  List.filter p (sort_items (l1 ++ it :: l2)) = List.filter p (sort_items (l1 ++ l2)).
Proof.
  intros Hp. unfold sort_items. rewrite !filter_sort_by.
  rewrite !List.filter_app. simpl. by rewrite Hp.
Qed.

Lemma null_sort_items l : null (sort_items l) = null l.
Proof.
  pose proof (sort_by_length id_key l) as H. unfold sort_items.
  destruct l, (sort_by id_key _); simpl in *; congruence.
Qed.

Section Dropped.
Variable fails : nat → statement → bool.
Variable today : string.
Variable toOracleDate : option value → value.
Variable now : value.

(** The transaction of src/test.js looks at the sorted body through its
    three partitions and through the items that are not flagged. *)
Lemma transaction_test_ext key l l' :
  itemsToInsert l = itemsToInsert l' →
  itemsToUpdate l = itemsToUpdate l' →
  itemsToDelete l = itemsToDelete l' →
  List.filter (fun i => negb (_deleted i)) l = List.filter (fun i => negb (_deleted i)) l' →
  transaction_test fails today key l = transaction_test fails today key l'.
Proof.
  intros Hi Hu Hd Hv. unfold transaction_test, commonOrderDetails.
  by rewrite Hi, Hu, Hd, Hv.
Qed.

Lemma operations_ext key l l' :
  itemsToInsert l = itemsToInsert l' →
  itemsToUpdate l = itemsToUpdate l' →
  itemsToDelete l = itemsToDelete l' →
  operations toOracleDate now key l = operations toOracleDate now key l'.
Proof. intros Hi Hu Hd. unfold operations. by rewrite Hi, Hu, Hd. Qed.

(** C8.  An item that carries the deletion flag and no id fails the test
    of each of the three partitions, is an element of none of them, and
    leaves them as they are without it; the call with the item does, on
    the connection, what the call without it does (same answer, same
    statements, same rows) as soon as anything else is submitted, so
    that a call that succeeds without the item succeeds with it. *)
Theorem flagged_item_without_id_is_ignored h key l1 l2 it c :
  has_id it = false → _deleted it = true →
  let with_it := sort_items (l1 ++ it :: l2) in
  let without := sort_items (l1 ++ l2) in
  (is_insert it = false ∧ is_update it = false ∧ is_delete it = false) ∧
  (¬ In it (itemsToInsert with_it) ∧ ¬ In it (itemsToUpdate with_it)
   ∧ ¬ In it (itemsToDelete with_it)) ∧
  (itemsToInsert with_it = itemsToInsert without
   ∧ itemsToUpdate with_it = itemsToUpdate without
   ∧ itemsToDelete with_it = itemsToDelete without) ∧
  (l1 ++ l2 ≠ [] →
   put_order fails today toOracleDate now h key (l1 ++ it :: l2) c
   = put_order fails today toOracleDate now h key (l1 ++ l2) c) ∧
  (∀ r c',
     put_order fails today toOracleDate now h key (l1 ++ l2) c = (inr r, c') →
     put_order fails today toOracleDate now h key (l1 ++ it :: l2) c = (inr r, c')).
Proof.
  intros Hid Hdel with_it without.
  assert (Hi : is_insert it = false) by (unfold is_insert; by rewrite Hdel, andb_false_r).
  assert (Hu : is_update it = false) by (unfold is_update; by rewrite Hid).
  assert (Hd : is_delete it = false) by (unfold is_delete; by rewrite Hid).
  assert (Hv : negb (_deleted it) = false) by (by rewrite Hdel).
  assert (Hpi : itemsToInsert with_it = itemsToInsert without)
    by (by apply filter_sort_items_without).
  assert (Hpu : itemsToUpdate with_it = itemsToUpdate without)
    by (by apply filter_sort_items_without).
  assert (Hpd : itemsToDelete with_it = itemsToDelete without)
    by (by apply filter_sort_items_without).
  assert (Hpv : List.filter (fun i => negb (_deleted i)) with_it
                = List.filter (fun i => negb (_deleted i)) without)
    by (by apply (filter_sort_items_without (fun i => negb (_deleted i)))).
  assert (Hsame : l1 ++ l2 ≠ [] →
     put_order fails today toOracleDate now h key (l1 ++ it :: l2) c
     = put_order fails today toOracleDate now h key (l1 ++ l2) c).
  { intros Hne.
    assert (Hn1 : null with_it = false)
      by (subst with_it; rewrite null_sort_items; by destruct l1).
    assert (Hn2 : null without = false)
      by (subst without; rewrite null_sort_items; by destruct (l1 ++ l2)).
    destruct h; simpl.
    - unfold put_order_test. fold with_it without.
      destruct (blank key); [done|]. rewrite Hn1, Hn2.
      by rewrite (transaction_test_ext key _ _ Hpi Hpu Hpd Hpv).
    - unfold put_order_routes. fold with_it without.
      destruct (blank key); [done|]. rewrite Hn1, Hn2.
      by rewrite (operations_ext key _ _ Hpi Hpu Hpd), Hpi, Hpu, Hpd. }
  repeat split; try done.
  - intros Hin. apply filter_In in Hin as [_ Hin]. congruence.
  - intros Hin. apply filter_In in Hin as [_ Hin]. congruence.
  - intros Hin. apply filter_In in Hin as [_ Hin]. congruence.
  - intros r c' Hrun. rewrite Hsame; [done|]. intros Hl.
    rewrite Hl in Hrun. destruct h; simpl in Hrun.
    + unfold put_order_test in Hrun. destruct (blank key); by simpl in Hrun.
    + unfold put_order_routes in Hrun. destruct (blank key); by simpl in Hrun.
Qed.
End Dropped.

(** ** Empty bodies *)

(** src/test.js, nothing rejected: with nothing to insert into an order
    that does not exist, the transaction stops at the existence check. *)
Lemma transaction_test_nothing_to_do today key allItems :
  null (itemsToInsert allItems) = true →
  triple (fun c => existsb (in_order key) (working c) = false)
         (transaction_test nofail today key allItems)
         (fun _ _ => False)
         (fun e _ => e = OrderDoesNotExist key).
Proof.
  intros Hins. unfold transaction_test. rewrite Hins.
  eapply triple_bind.
  { apply triple_execute with
      (Q := fun _ c => existsb (in_order key) (working c) = false).
    intros c Hc. exact Hc. }
  intros ?. eapply triple_bind.
  { apply triple_execute with (Q := fun r c => (0 <? count r)%nat = false ∧ True).
    intros c He. simpl. by rewrite (existsb_false_filter _ _ He). }
  intros orderCheck. apply triple_pure. intros ->. cbn [negb andb].
  eapply (triple_bind _ _ _ (fun _ _ => False)); [by apply triple_throw|].
  intros []. apply triple_false.
Qed.

Section EmptyBody.
Variable fails : nat → statement → bool.
Variable today : string.
Variable toOracleDate : option value → value.
Variable now : value.

(** C6, as the code has it.  Either handler rejects an empty body with
    'No data provided' ('Order Number is required' when the key is blank),
    whatever the storage holds: the answer does not depend on the
    connection, which is left as it was, no statement sent.  Whether the
    order exists matters to src/test.js for a body that is not empty and
    has nothing to insert: the call is then refused when no row carries
    the order number. *)
Theorem empty_body_rejected key :
  (∀ h c,
     put_order fails today toOracleDate now h key [] c
     = (inl (if blank key then OrderNumberRequired else NoDataProvided), c))
  ∧ (∀ body d,
       blank key = false → body ≠ [] →
       null (itemsToInsert (sort_items body)) = true →
       existsb (in_order key) (db_rows d) = false →
       (put_order_test nofail today key body (connect d)).1
       = inl (OrderDoesNotExist key)).
Proof.
  split.
  - intros h c. destruct h; simpl; unfold put_order_test, put_order_routes; simpl;
      by destruct (blank key).
  - intros body d Hb Hne Hins Hfresh. unfold put_order_test. rewrite Hb.
    rewrite null_sort_items. destruct body as [|i body]; [done|]. cbn [null].
    pose proof (transaction_test_nothing_to_do today key (sort_items (i :: body))
                  Hins (connect d) Hfresh) as H.
    unfold try_rollback.
    destruct (transaction_test _ _ _ _ _) as [[e|a] c1]; [by subst|done].
Qed.
End EmptyBody.

(** C6 as worded fails: order A exists, and the empty body is rejected all
    the same, by both handlers. *)
Lemma empty_body_rejected_for_existing_order :
  existsb (in_order "A") (db_rows sample_db) = true
  ∧ call nofail TestJs "A" [] sample_db = (inl NoDataProvided, connect sample_db)
  ∧ call nofail RoutesJs "A" [] sample_db = (inl NoDataProvided, connect sample_db).
Proof. repeat split; reflexivity. Qed.

(** ** The order in which updates and inserts are sent *)

Section Trace.
Variable fails : nat → statement → bool.
Variable today : string.
Variable toOracleDate : option value → value.
Variable now : value.

Lemma logs_ret {A} L (a : A) : logs L [] (mret a).
Proof. apply triple_ret. intros c ->. by rewrite app_nil_r. Qed.

Lemma logs_throw {A} L block e : logs (A := A) L block (throw e).
Proof.
  apply triple_throw. intros c Hc. exists []. split; [apply prefix_nil|].
  by rewrite app_nil_r.
Qed.

Lemma logs_execute L s : logs L [s] (execute fails s).
Proof.
  apply triple_execute. intros c Hc.
  destruct (fails _ _); simpl; [|by rewrite Hc].
  exists [s]. split; [done|]. simpl. by rewrite Hc.
Qed.

Lemma logs_execute_unbound L s : logs L [s] (execute_unbound s).
Proof.
  apply triple_execute_unbound. intros c Hc.
  exists [s]. split; [done|]. simpl. by rewrite Hc.
Qed.

Lemma logs_commit L : logs L [Commit] (commit fails).
Proof.
  apply triple_commit. intros c Hc.
  destruct (fails _ _); simpl; [|by rewrite Hc].
  exists [Commit]. split; [done|]. simpl. by rewrite Hc.
Qed.

Lemma logs_bind {A B} L b1 b2 (m : M A) (k : A → M B) :
  logs L b1 m → (∀ a, logs (L ++ b1) b2 (k a)) → logs L (b1 ++ b2) (m ≫= k).
Proof.
  intros Hm Hk c Hc. specialize (Hm c Hc).
  unfold mbind, M_bind, bind. destruct (m c) as [[e|a] c1].
  - destruct Hm as (p & Hp & Hl). exists p. split; [by apply prefix_app_r|done].
  - specialize (Hk a c1 Hm). destruct (k a c1) as [[e|b] c2].
    + destruct Hk as (p & Hp & Hl). exists (b1 ++ p).
      split; [by apply prefix_app|]. by rewrite Hl, app_assoc.
    + by rewrite Hk, app_assoc.
Qed.

Lemma logs_block {A} L b b' (m : M A) : b = b' → logs L b m → logs L b' m.
Proof. by intros ->. Qed.

Lemma logs_for_each {A} (f : A → list statement) l (body : A → M unit) L :
  (∀ x L, logs L (f x) (body x)) → logs L (flat_map f l) (for_each l body).
Proof.
  intros Hb. revert L. induction l as [|x l IH]; intros L; simpl.
  - apply logs_ret.
  - apply logs_bind; [apply Hb|]. intros []. apply IH.
Qed.

Lemma handle_deletions_logs (orderExists : bool) key (l : list item) L :
  logs L (if null l then []
          else (if orderExists then [SelectIdsIn (map the_id l) key] else [])
               ++ [DeleteReturning (map the_id l) key])
       (handle_deletions fails orderExists key l).
Proof.
  unfold handle_deletions. destruct (null l); cbn [negb when]; [apply logs_ret|].
  apply logs_bind.
  - destruct orderExists; cbn [when]; [|apply logs_ret].
    apply (logs_block L ([SelectIdsIn (map the_id l) key] ++ [])); [done|].
    apply logs_bind; [apply logs_execute|].
    intros r. simpl. destruct (negb _); [apply logs_throw|apply logs_ret].
  - intros []. apply (logs_block _ ([DeleteReturning (map the_id l) key] ++ [])); [done|].
    apply logs_bind; [apply logs_execute_unbound|]. intros r. apply logs_ret.
Qed.

Lemma handle_update_logs (orderExists : bool) key (u : item) L :
  logs L ((if orderExists then [SelectOrderNo (the_id u)] else [])
          ++ update_statement_test key u)
       (handle_update fails orderExists key u).
Proof.
  unfold handle_update, update_statement_test. apply logs_bind.
  - destruct orderExists; cbn [when]; [|apply logs_ret].
    apply (logs_block L ([SelectOrderNo (the_id u)] ++ [])); [done|].
    apply logs_bind; [apply logs_execute|].
    intros r. simpl. destruct (rows r) as [|r0 ?]; [apply logs_throw|].
    destruct (String.eqb _ _); [apply logs_ret|apply logs_throw].
  - intros []. simpl. case_bool_decide; [apply logs_ret|].
    apply (logs_block _ ([UpdateRow (filter_allowed allowedFields_test (fields u))
                            (the_id u) key] ++ [])); [done|].
    apply logs_bind; [apply logs_execute|].
    intros r. simpl. destruct (_ =? _)%nat; [apply logs_throw|apply logs_ret].
Qed.

Lemma handle_insert_logs common key i L :
  logs L [InsertRow key (insertItem_test common (fields i))]
       (handle_insert fails common key i).
Proof.
  unfold handle_insert.
  apply (logs_block _ ([InsertRow key (insertItem_test common (fields i))] ++ [])); [done|].
  apply logs_bind; [apply logs_execute|]. intros r. apply logs_ret.
Qed.

Lemma flat_map_singleton {A B} (f : A → B) l :
  flat_map (fun x => [f x]) l = map f l.
Proof. induction l; simpl; congruence. Qed.

(** What src/test.js has sent: all of [success_log_test] when it answers
    with the rows, a beginning of it when it fails. *)
Lemma transaction_test_log key allItems :
  triple (fun c => log c = [])
    (transaction_test fails today key allItems)
    (fun _ c => ∃ orderExists, log c = success_log_test today orderExists key allItems)
    (fun _ c => ∃ orderExists,
                  log c `prefix_of` success_log_test today orderExists key allItems).
Proof.
  unfold transaction_test.
  eapply (triple_bind _ _ _ (fun _ c => log c = [Begin])).
  { apply triple_execute. intros c Hc. destruct (fails _ _); simpl; [|by rewrite Hc].
    exists true. rewrite Hc. by eexists. }
  intros ?.
  eapply (triple_bind _ _ _ (fun _ c => log c = [Begin; SelectCount key])).
  { apply triple_execute. intros c Hc. destruct (fails _ _); simpl; [|by rewrite Hc].
    exists true. rewrite Hc. by eexists. }
  intros orderCheck. simpl.
  set (orderExists := (0 <? count orderCheck)%nat).
  destruct (negb orderExists && null (itemsToInsert allItems)) eqn:Hchk.
  { eapply (triple_bind _ _ _ (fun _ _ => False)); [|intros []; apply triple_false].
    apply triple_throw. intros c ->. exists true. by eexists. }
  assert (Hprop : orderExists || negb (null (itemsToInsert allItems)) = true)
    by (destruct orderExists, (null _); done).
  rewrite Hprop. cbn [when].
  eapply (triple_bind _ _ _ (fun _ c => log c = [Begin; SelectCount key]));
    [by apply triple_ret|].
  intros [].
  set (del := if null (itemsToDelete allItems) then []
              else (if orderExists
                    then [SelectIdsIn (map the_id (itemsToDelete allItems)) key] else [])
                   ++ [DeleteReturning (map the_id (itemsToDelete allItems)) key]).
  set (upd := flat_map (fun u => (if orderExists then [SelectOrderNo (the_id u)] else [])
                                 ++ update_statement_test key u)
                (itemsToUpdate allItems)).
  set (common := commonOrderDetails today allItems).
  set (ins := map (fun i => InsertRow key (insertItem_test common (fields i)))
                (itemsToInsert allItems)).
  assert (Hlogs : logs [Begin; SelectCount key]
            (del ++ upd ++ ins ++ [UpdateCommon common key] ++ [Commit] ++ [SelectAll key] ++ [])
            (handle_deletions fails orderExists key (itemsToDelete allItems);;
             when (negb (null (itemsToUpdate allItems)))
               (for_each (itemsToUpdate allItems) (handle_update fails orderExists key));;
             when (negb (null (itemsToInsert allItems)))
               (for_each (itemsToInsert allItems) (handle_insert fails common key));;
             (execute fails (UpdateCommon common key);; mret tt);;
             commit fails;;
             finalResult ← execute fails (SelectAll key);
             mret (Response (rows finalResult)
                     (length (itemsToInsert allItems))
                     (length (itemsToUpdate allItems))
                     (length (itemsToDelete allItems))))).
  { apply logs_bind; [apply handle_deletions_logs|]. intros [].
    apply logs_bind.
    { subst upd. destruct (itemsToUpdate allItems) eqn:Hu; cbn [null negb when];
        [apply logs_ret|].
      apply logs_for_each. intros x L. apply handle_update_logs. }
    intros []. apply logs_bind.
    { subst ins. rewrite <- flat_map_singleton.
      destruct (itemsToInsert allItems) eqn:Hi; cbn [null negb when];
        [apply logs_ret|].
      apply logs_for_each. intros x L. apply handle_insert_logs. }
    intros []. apply logs_bind.
    { apply (logs_block _ ([UpdateCommon common key] ++ [])); [done|].
      apply logs_bind; [apply logs_execute|]. intros r. apply logs_ret. }
    intros []. apply logs_bind; [apply logs_commit|].
    intros []. apply logs_bind; [apply logs_execute|].
    intros r. apply logs_ret. }
  assert (Hfull : success_log_test today orderExists key allItems
                  = [Begin; SelectCount key]
                    ++ del ++ upd ++ ins ++ [UpdateCommon common key] ++ [Commit]
                    ++ [SelectAll key] ++ []) by done.
  eapply triple_weaken; [exact Hlogs|done|..].
  - intros _ c ->. exists orderExists. by rewrite Hfull.
  - intros _ c (p & Hp & ->). exists orderExists. rewrite Hfull. by apply prefix_app.
Qed.

Lemma execute_all_logs ops L : logs L ops (execute_all fails (map sql_binds ops)).
Proof.
  revert L. induction ops as [|op ops IH]; intros L; simpl; [apply logs_ret|].
  apply (logs_bind L [op] ops); [apply logs_execute|]. intros r.
  apply (logs_block _ (ops ++ [])); [by rewrite app_nil_r|].
  apply logs_bind; [apply IH|]. intros rs. apply logs_ret.
Qed.

(** What src/routes/orders.js has sent: its operations, the commit and the
    read-back when it answers with the rows, a beginning of these when it
    fails. *)
Lemma put_order_routes_log key body :
  logs [] (operations toOracleDate now key (sort_items body) ++ [Commit; SelectAll key])
       (put_order_routes fails toOracleDate now key body).
Proof.
  unfold put_order_routes.
  destruct (blank key); [apply logs_throw|].
  destruct (null _); [apply logs_throw|].
  set (ops := operations toOracleDate now key (sort_items body)).
  apply (logs_block _ ((ops ++ [Commit] ++ []) ++ [SelectAll key] ++ [])).
  { rewrite !app_nil_r. by rewrite <- app_assoc. }
  apply logs_bind.
  - unfold executeTransaction.
    apply triple_try_rollback
      with (E' := fun _ => sent_within [] (ops ++ [Commit] ++ [])); [|done].
    apply logs_bind; [apply execute_all_logs|]. intros results.
    apply logs_bind; [apply logs_commit|]. intros []. apply logs_ret.
  - intros ?. apply logs_bind; [|intros r; apply logs_ret].
    apply triple_executeQuery.
    eapply triple_weaken;
      [apply (logs_execute ([] ++ ops ++ [Commit] ++ []))| |by intros..].
    by intros c (c0 & Hc0 & ->).
Qed.

Lemma prefix_filter {A} (f : A → bool) (p l : list A) :
  p `prefix_of` l → List.filter f p `prefix_of` List.filter f l.
Proof. intros [k ->]. rewrite List.filter_app. by eexists. Qed.

(** The UPDATEs and the INSERTs among the statements of a successful call. *)
Lemma update_statements_flat_map (pre : item → list statement) key l :
  (∀ u, update_statements (pre u) = []) →
  update_statements (flat_map (fun u => pre u ++ update_statement_test key u) l)
  = flat_map (update_statement_test key) l.
Proof.
  intros Hpre. unfold update_statements in *.
  induction l as [|u l IH]; simpl; [done|].
  rewrite !List.filter_app, Hpre, IH. simpl. f_equal.
  unfold update_statement_test. by case_bool_decide.
Qed.

Lemma insert_statements_flat_map (pre : item → list statement) key l :
  (∀ u, insert_statements (pre u) = []) →
  insert_statements (flat_map (fun u => pre u ++ update_statement_test key u) l) = [].
Proof.
  intros Hpre. unfold insert_statements in *.
  induction l as [|u l IH]; simpl; [done|].
  rewrite !List.filter_app, Hpre, IH. simpl.
  unfold update_statement_test. by case_bool_decide.
Qed.

Lemma update_statements_success_log_test orderExists key allItems :
  update_statements (success_log_test today orderExists key allItems)
  = flat_map (update_statement_test key) (itemsToUpdate allItems).
Proof.
  unfold success_log_test, update_statements. rewrite !List.filter_app.
  fold (update_statements
          (flat_map (fun u => (if orderExists then [SelectOrderNo (the_id u)] else [])
                              ++ update_statement_test key u) (itemsToUpdate allItems))).
  rewrite update_statements_flat_map by (intros u; by destruct orderExists).
  replace (List.filter is_update_statement (map _ (itemsToInsert allItems))) with (@nil statement)
    by (induction (itemsToInsert allItems); simpl; congruence).
  destruct (null _), orderExists; simpl; by rewrite app_nil_r.
Qed.

Lemma insert_statements_success_log_test orderExists key allItems :
  insert_statements (success_log_test today orderExists key allItems)
  = map (fun i => InsertRow key
                    (insertItem_test (commonOrderDetails today allItems) (fields i)))
      (itemsToInsert allItems).
Proof.
  unfold success_log_test, insert_statements. rewrite !List.filter_app.
  fold (insert_statements
          (flat_map (fun u => (if orderExists then [SelectOrderNo (the_id u)] else [])
                              ++ update_statement_test key u) (itemsToUpdate allItems))).
  rewrite insert_statements_flat_map by (intros u; by destruct orderExists).
  replace (List.filter is_insert_statement (map _ (itemsToInsert allItems)))
    with (map (fun i => InsertRow key
                 (insertItem_test (commonOrderDetails today allItems) (fields i)))
            (itemsToInsert allItems))
    by (induction (itemsToInsert allItems); simpl; congruence).
  destruct (null _), orderExists; simpl; by rewrite app_nil_r.
Qed.

Lemma update_statements_operations key allItems :
  update_statements (operations toOracleDate now key allItems ++ [Commit; SelectAll key])
  = flat_map (update_operation toOracleDate key) (itemsToUpdate allItems).
Proof.
  unfold operations, update_statements. rewrite !List.filter_app.
  replace (List.filter is_update_statement (map _ (itemsToInsert allItems))) with (@nil statement)
    by (induction (itemsToInsert allItems); simpl; congruence).
  replace (List.filter is_update_statement
             (flat_map (update_operation toOracleDate key) (itemsToUpdate allItems)))
    with (flat_map (update_operation toOracleDate key) (itemsToUpdate allItems)).
  - destruct (null _); simpl; by rewrite ?app_nil_r.
  - induction (itemsToUpdate allItems) as [|u l IH]; simpl; [done|].
    rewrite List.filter_app, <- IH. f_equal.
    unfold update_operation. by case_bool_decide.
Qed.

Lemma insert_statements_operations key allItems :
  insert_statements (operations toOracleDate now key allItems ++ [Commit; SelectAll key])
  = map (fun i => InsertRow key (insertData toOracleDate now (fields i)))
      (itemsToInsert allItems).
Proof.
  unfold operations, insert_statements. rewrite !List.filter_app.
  replace (List.filter is_insert_statement (map _ (itemsToInsert allItems)))
    with (map (fun i => InsertRow key (insertData toOracleDate now (fields i)))
            (itemsToInsert allItems))
    by (induction (itemsToInsert allItems); simpl; congruence).
  replace (List.filter is_insert_statement
             (flat_map (update_operation toOracleDate key) (itemsToUpdate allItems)))
    with (@nil statement).
  - destruct (null _); simpl; by rewrite ?app_nil_r.
  - induction (itemsToUpdate allItems) as [|u l IH]; simpl; [done|].
    rewrite List.filter_app, <- IH.
    unfold update_operation. by case_bool_decide.
Qed.

(** What a call has sent, whichever handler serves it. *)
Lemma put_order_log h key body d :
  let c' := (put_order fails today toOracleDate now h key body (connect d)).2 in
  let result := (put_order fails today toOracleDate now h key body (connect d)).1 in
  match h with
  | TestJs =>
      ∃ orderExists,
        log c' `prefix_of` success_log_test today orderExists key (sort_items body)
        ∧ (∀ r, result = inr r →
                log c' = success_log_test today orderExists key (sort_items body))
  | RoutesJs =>
      log c' `prefix_of`
        (operations toOracleDate now key (sort_items body) ++ [Commit; SelectAll key])
      ∧ (∀ r, result = inr r →
              log c' = operations toOracleDate now key (sort_items body)
                       ++ [Commit; SelectAll key])
  end.
Proof.
  destruct h; simpl.
  - unfold put_order_test.
    destruct (blank key); [exists true; split; [by eexists|done]|].
    destruct (null _); [exists true; split; [by eexists|done]|].
    pose proof (transaction_test_log key (sort_items body) (connect d) eq_refl) as H.
    unfold try_rollback.
    destruct (transaction_test _ _ _ _ _) as [[e|a] c1]; simpl.
    + destruct H as [oe H]. exists oe. split; [done|]. by intros r.
    + destruct H as [oe H]. exists oe. rewrite H. split; [done|]. by intros r.
  - pose proof (put_order_routes_log key body (connect d) eq_refl) as H.
    destruct (put_order_routes _ _ _ _ _ _) as [[e|a] c1]; simpl in *.
    + destruct H as (p & Hp & ->). split; [done|]. by intros r.
    + rewrite H. split; [done|]. by intros r.
Qed.

(** C7, as the code has it.  In every call, with either handler, the
    INSERT statements sent are those of the insert items in the order of
    the submitted body, and the UPDATE statements sent are those of the
    update items taken by ascending id (items with the same id in the
    order submitted), one for each item that has a property on the
    allow-list: all of them when the call succeeds, a beginning of them
    when it fails. *)
Theorem updates_by_id_inserts_as_submitted h key body d :
  let c' := (put_order fails today toOracleDate now h key body (connect d)).2 in
  let result := (put_order fails today toOracleDate now h key body (connect d)).1 in
  let updates :=
    flat_map (update_statement_of toOracleDate h key)
      (sort_by id_key (List.filter is_update body)) in
  let inserts :=
    map (insert_statement_of today toOracleDate now h key (sort_items body))
      (List.filter is_insert body) in
  ascending id_key (sort_by id_key (List.filter is_update body))
  ∧ update_statements (log c') `prefix_of` updates
  ∧ insert_statements (log c') `prefix_of` inserts
  ∧ (∀ r, result = inr r →
          update_statements (log c') = updates ∧ insert_statements (log c') = inserts).
Proof.
  intros c' result updates inserts. subst updates inserts.
  rewrite <- itemsToUpdate_sorted, <- itemsToInsert_sorted.
  pose proof (put_order_log h key body d) as H. fold c' result in H.
  split; [rewrite itemsToUpdate_sorted; apply sort_by_ascending|].
  destruct h; simpl in *.
  - destruct H as (oe & Hp & Hs).
    assert (Eu : update_statements (success_log_test today oe key (sort_items body))
                 = flat_map (update_statement_of toOracleDate TestJs key)
                     (itemsToUpdate (sort_items body)))
      by apply update_statements_success_log_test.
    assert (Ei : insert_statements (success_log_test today oe key (sort_items body))
                 = map (insert_statement_of today toOracleDate now TestJs key
                          (sort_items body))
                     (itemsToInsert (sort_items body)))
      by apply insert_statements_success_log_test.
    rewrite <- Eu, <- Ei.
    split; [by apply prefix_filter|]. split; [by apply prefix_filter|].
    intros r Hr. by rewrite (Hs r Hr).
  - destruct H as (Hp & Hs).
    assert (Eu : update_statements (operations toOracleDate now key (sort_items body)
                                    ++ [Commit; SelectAll key])
                 = flat_map (update_statement_of toOracleDate RoutesJs key)
                     (itemsToUpdate (sort_items body)))
      by apply update_statements_operations.
    assert (Ei : insert_statements (operations toOracleDate now key (sort_items body)
                                    ++ [Commit; SelectAll key])
                 = map (insert_statement_of today toOracleDate now RoutesJs key
                          (sort_items body))
                     (itemsToInsert (sort_items body)))
      by apply insert_statements_operations.
    rewrite <- Eu, <- Ei.
    split; [by apply prefix_filter|]. split; [by apply prefix_filter|].
    intros r Hr. by rewrite (Hs r Hr).
Qed.
End Trace.

(** ** Rows of other orders *)

Lemma others_delete ids key t :
  others key (List.filter (fun r => negb (id_in ids r && in_order key r)) t) = others key t.
Proof.
  unfold others. induction t as [|r t IH]; simpl; [done|].
  destruct (in_order key r) eqn:Hr; simpl.
  - destruct (id_in ids r); simpl; [done|]. by rewrite Hr.
  - rewrite andb_false_r. simpl. rewrite Hr. simpl. by rewrite IH.
Qed.

Lemma others_update_where key (p : row → bool) sets t :
  (∀ r, p r = true → in_order key r = true) →
  others key (update_where p sets t) = others key t.
Proof.
  intros Hp. unfold others, update_where. induction t as [|r t IH]; simpl; [done|].
  destruct (p r) eqn:Hr.
  - unfold in_order at 1. simpl. fold (in_order key r). rewrite (Hp r Hr). simpl.
    exact IH.
  - destruct (in_order key r); simpl; by rewrite IH.
Qed.

Lemma others_insert key vals i t :
  others key (t ++ [Row i key vals]) = others key t.
Proof.
  unfold others. rewrite List.filter_app. simpl.
  unfold in_order at 2. simpl. rewrite String.eqb_refl. simpl. by rewrite app_nil_r.
Qed.

(** A statement scoped to an order leaves the rows of the other orders as
    they are, in place. *)
Lemma run_statement_others key s d :
  scoped key s →
  others key (db_rows (run_statement s d).2) = others key (db_rows d).
Proof.
  destruct s; simpl; intros Hs; subst; try done.
  - apply others_delete.
  - apply others_delete.
  - apply others_update_where. intros r Hr. by apply andb_true_iff in Hr as [_ ?].
  - apply others_insert.
  - by apply others_update_where.
Qed.

Lemma operations_scoped toOracleDate now key allItems s :
  In s (operations toOracleDate now key allItems) → scoped key s.
Proof.
  unfold operations. rewrite !in_app_iff. intros [H|[H|H]].
  - destruct (null _); [done|]. by destruct H as [<-|[]].
  - apply in_flat_map in H as (u & _ & H). unfold update_operation in H.
    case_bool_decide; [done|]. by destruct H as [<-|[]].
  - apply in_map_iff in H as (i & <- & _). done.
Qed.

Section ScopedInvariant.
Variable fails : nat → statement → bool.
Variable today : string.
Variable toOracleDate : option value → value.
Variable now : value.
Variable key : string.

(** A property of the rows that the statements scoped to the order keep. *)
Variable G : list row → Prop.
Hypothesis G_kept :
  ∀ s d, scoped key s → G (db_rows d) → G (db_rows (run_statement s d).2).

Lemma execute_keeps_both s :
  scoped key s → keeps fails (both G) (fun _ => (both G)) s.
Proof.
  intros Hs. apply triple_execute. intros c [Hw Hc].
  destruct (fails _ _); simpl; [done|]. split; [|done].
  by apply (G_kept s (Db (working c) (next_id c))).
Qed.

Lemma commit_keeps_both :
  triple (both G) (commit fails) (fun _ => (both G)) (fun _ => (both G)).
Proof.
  apply triple_commit. intros c [Hw Hc]. by destruct (fails _ _).
Qed.

Lemma transaction_test_keeps_both allItems :
  triple (both G) (transaction_test fails today key allItems)
         (fun _ => (both G)) (fun _ => (both G)).
Proof.
  unfold transaction_test.
  eapply (triple_bind _ _ _ (fun _ => (both G))); [by apply execute_keeps_both|].
  intros ?. eapply (triple_bind _ _ _ (fun _ => (both G))); [by apply execute_keeps_both|].
  intros orderCheck. simpl. eapply (triple_bind _ _ _ (fun _ => (both G))).
  { destruct (_ && _); [by apply triple_throw|by apply triple_ret]. }
  assert (Hk : ∀ s, scoped key s → keeps fails (both G) (fun _ => both G) s)
    by apply execute_keeps_both.
  assert (Hr : ∀ e, raises (both G) (fun _ => both G) e) by (by intros e c Hc).
  assert (Hun : ∀ s, refuses (both G) (fun _ => both G) s)
    by (intros s; apply triple_execute_unbound; by intros c [Hw Hc]).
  intros []. apply (mutations_stable fails (both G) (fun _ => (both G)));
    try (intros; apply Hk; done); try (intros; apply Hr); try (intros; apply Hun).
  eapply (triple_bind _ _ _ (fun _ => (both G))); [apply commit_keeps_both|].
  intros []. eapply (triple_bind _ _ _ (fun _ => (both G))); [by apply execute_keeps_both|].
  intros r. by apply triple_ret.
Qed.

Lemma put_order_keeps_both h body :
  triple (both G) (put_order fails today toOracleDate now h key body)
         (fun _ => (both G)) (fun _ => (both G)).
Proof.
  destruct h; simpl.
  - unfold put_order_test.
    destruct (blank key); [by apply triple_throw|].
    destruct (null _); [by apply triple_throw|].
    apply triple_try_rollback with (E' := fun _ => (both G)).
    + apply transaction_test_keeps_both.
    + intros e c [Hw Hc]. by split.
  - unfold put_order_routes.
    destruct (blank key); [by apply triple_throw|].
    destruct (null _); [by apply triple_throw|].
    eapply (triple_bind _ _ _ (fun _ => (both G))).
    { unfold executeTransaction.
      apply triple_try_rollback with (E' := fun _ => (both G));
        [|intros e c [Hw Hc]; by split].
      eapply (triple_bind _ _ _ (fun _ => (both G))).
      { apply (execute_all_stable fails (both G) (fun _ => (both G))).
        intros s Hs. apply execute_keeps_both. by eapply operations_scoped. }
      intros results. eapply (triple_bind _ _ _ (fun _ => (both G))); [apply commit_keeps_both|].
      intros []. by apply triple_ret. }
    intros ?. eapply (triple_bind _ _ _ (fun _ => (both G))).
    { apply triple_executeQuery.
      eapply triple_weaken; [apply (execute_keeps_both (SelectAll key)); done| |done..].
      intros c (c0 & [Hw Hc] & ->). by split. }
    intros r. by apply triple_ret.
Qed.

Lemma call_keeps h body d :
  G (db_rows d) →
  G (committed (put_order fails today toOracleDate now h key body (connect d)).2).
Proof.
  intros Hd.
  pose proof (put_order_keeps_both h body (connect d) (conj Hd Hd)) as H.
  destruct (put_order _ _ _ _ _ _ _ _) as [[e|a] c']; apply H.
Qed.
End ScopedInvariant.

(** ** The row an id resolves to *)






Lemma existsb_filter_length {A} (p : A → bool) t :
  existsb p t = true → (0 <? length (List.filter p t))%nat = true.
Proof.
  induction t as [|r t IH]; simpl; [done|].
  destruct (p r); simpl; [done|exact IH].
Qed.

(** ** The cross-order guard of the update loop *)

Section CrossOrder.
Variable fails : nat → statement → bool.
Variable today : string.
Variable key : string.
Variable u : item.
Variable r0 : row.
Hypothesis foreign : in_order key r0 = false.



End CrossOrder.




(** ** An order that does not exist yet *)

Lemma others_all key t : existsb (in_order key) t = false → others key t = t.
Proof.
  unfold others. induction t as [|r t IH]; simpl; [done|].
  destruct (in_order key r); simpl; [done|]. intros H. by rewrite IH.
Qed.

Section FreshOrder.
Variable fails : nat → statement → bool.
Variable today : string.
Variable key : string.

Lemma execute_keeps_unverified s :
  is_verification s = false →
  keeps fails unverified (fun e c => unverified c ∧ is_guard_error e = false) s.
Proof.
  intros Hs. apply triple_execute. intros c Hc.
  assert (unverified (Conn (committed c) (working c) (next_id c) (log c ++ [s]))).
  { unfold unverified. simpl. apply Forall_app. split; [done|]. by constructor. }
  by destruct (fails _ _).
Qed.

Lemma transaction_test_unverified allItems :
  triple (fun c => unverified c ∧ existsb (in_order key) (working c) = false)
         (transaction_test fails today key allItems)
         (fun _ => unverified)
         (fun e c => unverified c ∧ is_guard_error e = false).
Proof.
  set (E := fun e c => unverified c ∧ is_guard_error e = false).
  assert (Hk : ∀ s, is_verification s = false → keeps fails unverified E s)
    by apply execute_keeps_unverified.
  unfold transaction_test.
  eapply triple_bind.
  { apply triple_execute with
      (Q := fun _ c => unverified c ∧ existsb (in_order key) (working c) = false).
    intros c [Hc He].
    assert (unverified (Conn (committed c) (working c) (next_id c) (log c ++ [Begin]))).
    { unfold unverified. simpl. apply Forall_app. split; [done|]. by constructor. }
    by destruct (fails _ _). }
  intros ?. eapply triple_bind.
  { apply triple_execute with
      (Q := fun r c => (0 <? count r)%nat = false ∧ unverified c).
    intros c [Hc He].
    assert (unverified (Conn (committed c) (working c) (next_id c)
                          (log c ++ [SelectCount key]))).
    { unfold unverified. simpl. apply Forall_app. split; [done|]. by constructor. }
    destruct (fails _ _); [done|]. simpl. split; [|done].
    by rewrite (existsb_false_filter _ _ He). }
  intros orderCheck. apply triple_pure. intros ->. cbn [negb andb].
  eapply (triple_bind _ _ _ (fun _ => unverified)).
  { destruct (null _); [by apply triple_throw|by apply triple_ret]. }
  intros []. apply (mutations_stable fails unverified E);
    try done; try (intros; by apply Hk).
  { intros ids. apply triple_execute_unbound. intros c Hc. split; [|done].
    unfold unverified. simpl. apply Forall_app. split; [done|]. by constructor. }
  eapply (triple_bind _ _ _ (fun _ => unverified)).
  { apply triple_commit. intros c Hc.
    assert (unverified (Conn (committed c) (working c) (next_id c) (log c ++ [Commit]))).
    { unfold unverified. simpl. apply Forall_app. split; [done|]. by constructor. }
    by destruct (fails _ _). }
  intros []. eapply (triple_bind _ _ _ (fun _ => unverified)); [by apply Hk|].
  intros r. by apply triple_ret.
Qed.
End FreshOrder.

(** An update item without a property on the allow-list, when the order
    did not exist: the round of the loop does nothing. *)
Lemma handle_update_skips fails key u :
  update_statement_test key u = [] →
  handle_update fails false key u = mret tt.
Proof.
  unfold update_statement_test, handle_update. by case_bool_decide.
Qed.

(** When nothing is rejected: the transaction of src/test.js for an order
    that does not exist, with nothing to delete, something to insert and
    no effective update, completes. *)
Lemma transaction_test_fresh_completes today key allItems :
  null (itemsToInsert allItems) = false →
  itemsToDelete allItems = [] →
  (∀ u, In u (itemsToUpdate allItems) → update_statement_test key u = []) →
  triple (fun c => existsb (in_order key) (working c) = false)
         (transaction_test nofail today key allItems)
         (fun r _ => deleted r = 0%nat)
         (fun _ _ => False).
Proof.
  intros Hins Hdel Hskip.
  assert (Hany : ∀ s, triple (fun _ => True) (execute nofail s)
                        (fun _ _ => True) (fun _ _ => False)).
  { intros s. by apply triple_execute. }
  unfold transaction_test. rewrite Hins, Hdel.
  eapply triple_bind.
  { apply triple_execute with
      (Q := fun _ c => existsb (in_order key) (working c) = false).
    intros c Hc. exact Hc. }
  intros ?. eapply triple_bind.
  { apply triple_execute with (Q := fun r c => (0 <? count r)%nat = false ∧ True).
    intros c He. simpl. by rewrite (existsb_false_filter _ _ He). }
  intros orderCheck. apply triple_pure. intros ->.
  cbn [negb andb orb when handle_deletions null].
  eapply (triple_bind _ _ _ (fun _ _ => True)); [by apply triple_ret|]. intros [].
  eapply (triple_bind _ _ _ (fun _ _ => True)); [by apply triple_ret|].
  intros []. eapply (triple_bind _ _ _ (fun _ _ => True)).
  { apply triple_when; [intros _|done]. apply triple_for_each.
    intros x Hx. rewrite handle_update_skips by (by apply Hskip).
    by apply triple_ret. }
  intros []. eapply (triple_bind _ _ _ (fun _ _ => True)).
  { apply triple_for_each. intros x _. unfold handle_insert.
    eapply (triple_bind _ _ _ (fun _ _ => True)); [apply Hany|].
    intros r. by apply triple_ret. }
  intros []. eapply (triple_bind _ _ _ (fun _ _ => True)).
  { eapply (triple_bind _ _ _ (fun _ _ => True)); [apply Hany|].
    intros r. by apply triple_ret. }
  intros []. eapply (triple_bind _ _ _ (fun _ _ => True)).
  { by apply triple_commit. }
  intros []. eapply (triple_bind _ _ _ (fun _ _ => True)); [apply Hany|].
  intros r. by apply triple_ret.
Qed.

(** When nothing is rejected: the same transaction with an item to delete
    stops at its DELETE, the third call of the request, which the driver
    cannot bind. *)
Lemma transaction_test_fresh_stops today key allItems :
  null (itemsToInsert allItems) = false →
  itemsToDelete allItems ≠ [] →
  triple (fun c => existsb (in_order key) (working c) = false ∧ log c = [])
         (transaction_test nofail today key allItems)
         (fun _ _ => False)
         (fun e _ => e = StorageError 2
                           (DeleteReturning (map the_id (itemsToDelete allItems)) key)).
Proof.
  intros Hins Hdel.
  unfold transaction_test. rewrite Hins.
  eapply triple_bind.
  { apply triple_execute with
      (Q := fun _ c => existsb (in_order key) (working c) = false ∧ log c = [Begin]).
    intros c [Hc Hl]. simpl. by rewrite Hl. }
  intros ?. eapply triple_bind.
  { apply triple_execute with
      (Q := fun r c => (0 <? count r)%nat = false ∧ log c = [Begin; SelectCount key]).
    intros c [He Hl]. simpl. rewrite Hl. by rewrite (existsb_false_filter _ _ He). }
  intros orderCheck. apply triple_pure. intros ->. cbn [negb andb orb when].
  eapply (triple_bind _ _ _ (fun _ c => log c = [Begin; SelectCount key]));
    [by apply triple_ret|]. intros [].
  eapply (triple_bind _ _ _ (fun _ _ => False)); [|intros []; apply triple_false].
  unfold handle_deletions.
  destruct (itemsToDelete allItems) as [|x l] eqn:Hl; [done|]. cbn [null negb when].
  eapply (triple_bind _ _ _ (fun _ c => log c = [Begin; SelectCount key]));
    [by apply triple_ret|]. intros [].
  eapply (triple_bind _ _ _ (fun _ _ => False)); [|intros r; apply triple_false].
  apply triple_execute_unbound. intros c Hc. by rewrite Hc.
Qed.

(** C10.  In src/test.js, when no row carries the requested order number:
    no lookup that checks an id is among the statements sent, whatever the
    outcome; the call never answers with one of the three errors of those
    checks; every row stored before the call is still there, unchanged.
    When nothing is rejected, something is to be inserted and no update
    item has a property on the allow-list, the call completes if there is
    nothing to delete; with an item to delete it does not complete: it
    stops at the DELETE, which is sent without values for the two
    placeholders of its RETURNING clause, and answers with the error of
    the driver. *)
Theorem fresh_order_skips_id_checks fails today key body d :
  existsb (in_order key) (db_rows d) = false →
  unverified (put_order_test fails today key body (connect d)).2
  ∧ (∀ e, (put_order_test fails today key body (connect d)).1 = inl e →
          is_guard_error e = false)
  ∧ others key (committed (put_order_test fails today key body (connect d)).2)
    = db_rows d
  ∧ (blank key = false →
     null (itemsToInsert (sort_items body)) = false →
     itemsToDelete (sort_items body) = [] →
     (∀ u, In u (itemsToUpdate (sort_items body)) → update_statement_test key u = []) →
     ∃ r, (put_order_test nofail today key body (connect d)).1 = inr r)
  ∧ (blank key = false →
     null (itemsToInsert (sort_items body)) = false →
     itemsToDelete (sort_items body) ≠ [] →
     (put_order_test nofail today key body (connect d)).1
     = inl (StorageError 2
              (DeleteReturning (map the_id (itemsToDelete (sort_items body))) key))).
Proof.
  intros Hfresh.
  assert (Hinit : unverified (connect d)) by constructor.
  split; [|split; [|split; [|split]]].
  - unfold put_order_test.
    destruct (blank key); [by constructor|].
    destruct (null _); [by constructor|].
    pose proof (transaction_test_unverified fails today key (sort_items body)
                  (connect d) (conj Hinit Hfresh)) as H.
    unfold try_rollback.
    destruct (transaction_test _ _ _ _ _) as [[e|a] c1]; [apply H|done].
  - intros e. unfold put_order_test.
    destruct (blank key); [by intros [= <-]|].
    destruct (null _); [by intros [= <-]|].
    pose proof (transaction_test_unverified fails today key (sort_items body)
                  (connect d) (conj Hinit Hfresh)) as H.
    unfold try_rollback.
    destruct (transaction_test _ _ _ _ _) as [[e'|a] c1]; [|done].
    intros [= <-]. apply H.
  - transitivity (others key (db_rows d)); [|by apply others_all].
    apply (call_keeps fails today (fun _ => VNull) VNull key
             (fun t => others key t = others key (db_rows d)) ) with (h := TestJs); [|done].
    intros s d0 Hs <-. by apply (run_statement_others key).
  - intros Hb Hins Hdel Hskip. unfold put_order_test. rewrite Hb.
    destruct (null (sort_items body)) eqn:Hn.
    { destruct (sort_items body); [done|discriminate]. }
    pose proof (transaction_test_fresh_completes today key (sort_items body)
                  Hins Hdel Hskip (connect d) Hfresh) as H.
    unfold try_rollback.
    destruct (transaction_test _ _ _ _ _) as [[e|a] c1]; [done|by eexists].
  - intros Hb Hins Hdel. unfold put_order_test. rewrite Hb.
    destruct (null (sort_items body)) eqn:Hn.
    { destruct (sort_items body); [done|discriminate]. }
    pose proof (transaction_test_fresh_stops today key (sort_items body)
                  Hins Hdel (connect d) (conj Hfresh eq_refl)) as H.
    unfold try_rollback.
    destruct (transaction_test _ _ _ _ _) as [[e|a] c1]; [by subst|done].
Qed.

(** ** The verification of the delete set *)

Section DeleteGuard.
Variable fails : nat → statement → bool.
Variable today : string.
Variable key : string.
Variable t0 : list row.

Lemma execute_untouched sent s ids (Q : reply → conn → Prop) :
  (sent ++ [s]) `prefix_of` up_to_verification ids key →
  (∀ c, untouched t0 sent c →
        Q (run_statement s (Db (working c) (next_id c))).1
          (Conn (committed c)
             (db_rows (run_statement s (Db (working c) (next_id c))).2)
             (db_next_id (run_statement s (Db (working c) (next_id c))).2)
             (log c ++ [s]))) →
  triple (untouched t0 sent) (execute fails s) Q (stopped fails key t0 ids).
Proof.
  intros Hpre HQ. apply triple_execute. intros c Hc.
  destruct (fails _ _) eqn:Hf; [|by apply HQ].
  destruct Hc as (Hw & Hc & Hl). split; [done|]. right.
  exists (length (log c)), s. simpl. rewrite Hl. by rewrite Hl in Hf.
Qed.

Lemma transaction_test_delete_guard allItems :
  let ids := map the_id (itemsToDelete allItems) in
  existsb (in_order key) t0 = true →
  null (itemsToDelete allItems) = false →
  length (verified_rows ids key t0) ≠ length ids →
  triple (untouched t0 [])
         (transaction_test fails today key allItems)
         (fun _ _ => False) (stopped fails key t0 ids).
Proof.
  intros ids Hex Hdel Hlen. unfold transaction_test.
  eapply triple_bind.
  { apply (execute_untouched [] Begin ids (fun _ => untouched t0 [Begin])).
    - by exists [SelectCount key; SelectIdsIn ids key].
    - intros c (Hw & Hc & Hl). repeat split; simpl; [done..|by rewrite Hl]. }
  intros ?. eapply triple_bind.
  { apply (execute_untouched [Begin] (SelectCount key) ids
             (fun r c => (0 <? count r)%nat = true
                         ∧ untouched t0 [Begin; SelectCount key] c)).
    - by exists [SelectIdsIn ids key].
    - intros c (Hw & Hc & Hl). simpl. rewrite Hw.
      split; [by apply existsb_filter_length|].
      repeat split; simpl; [done..|by rewrite Hl]. }
  intros orderCheck. apply triple_pure. intros ->. cbn [negb andb].
  eapply (triple_bind _ _ _ (fun _ => untouched t0 [Begin; SelectCount key]));
    [by apply triple_ret|]. intros [].
  eapply (triple_bind _ _ _ (fun _ _ => False)); [|intros []; apply triple_false].
  unfold handle_deletions. rewrite Hdel. cbn [negb when].
  eapply (triple_bind _ _ _ (fun _ _ => False)); [|intros []; apply triple_false].
  eapply (triple_bind _ _ _
    (fun r c => rows r = verified_rows ids key t0
                ∧ untouched t0 (up_to_verification ids key) c)).
  { apply (execute_untouched [Begin; SelectCount key] (SelectIdsIn ids key) ids).
    - by exists [].
    - intros c (Hw & Hc & Hl). simpl. rewrite Hw. split; [done|].
      repeat split; simpl; [done..|by rewrite Hl]. }
  intros r. apply triple_pure. intros Hr. rewrite Hr.
  fold ids. apply Nat.eqb_neq in Hlen. rewrite Hlen. cbn [negb].
  apply triple_throw. intros c (Hw & Hc & Hl).
  split; [done|by left].
Qed.
End DeleteGuard.

(** With ids that identify rows, an id of the delete set that has no row
    in the requested order makes the lookup return fewer rows than ids. *)
Lemma foreign_id_fails_verification ids key t x :
  NoDup (map row_id t) →
  In x ids →
  (∀ r, In r t → row_id r = x → in_order key r = false) →
  (length (verified_rows ids key t) < length ids)%nat.
Proof.
  intros Hnd Hx Hforeign.
  assert (Hsub : NoDup (x :: map row_id (verified_rows ids key t))).
  { constructor.
    - intros Hin%list_elem_of_In. apply in_map_iff in Hin as (r & Hid & Hr).
      apply filter_In in Hr as [Hr Hp]. apply andb_true_iff in Hp as [_ Hp].
      by rewrite (Hforeign r Hr Hid) in Hp.
    - unfold verified_rows. clear -Hnd. induction t as [|r t IH]; simpl; [constructor|].
      simpl in Hnd. apply NoDup_cons in Hnd as [Hr Hnd].
      destruct (_ && _); simpl; [|by apply IH].
      constructor; [|by apply IH]. intros Hin%list_elem_of_In. apply Hr.
      apply list_elem_of_In.
      apply in_map_iff in Hin as (r' & Hid & Hr').
      apply filter_In in Hr' as [Hr' _]. apply in_map_iff. by exists r'. }
  assert (Hincl : incl (x :: map row_id (verified_rows ids key t)) ids).
  { intros y [<-|Hy]; [done|].
    apply in_map_iff in Hy as (r & <- & Hr).
    apply filter_In in Hr as [_ Hp]. apply andb_true_iff in Hp as [Hp _].
    unfold id_in in Hp. apply existsb_exists in Hp as (i & Hi & Heq).
    apply Z.eqb_eq in Heq. by rewrite Heq. }
  apply NoDup_ListNoDup in Hsub.
  pose proof (List.NoDup_incl_length Hsub Hincl) as Hle.
  simpl in Hle. rewrite length_map in Hle. lia.
Qed.

(** C4, as the code has it.  In src/test.js, for a call with a non-blank
    key and a non-empty delete set on an order that exists: the ids of the
    delete set are looked up in one statement, the third of the call; when
    the lookup returns a number of rows other than the number of ids, the
    call fails with the error that lists the ids not returned, the DELETE
    is not sent and no row is changed.  When the storage engine rejects
    one of these three statements the call fails at that statement
    instead, again with nothing deleted. *)
Theorem delete_set_verified_for_existing_order fails today key body d :
  let ids := map the_id (itemsToDelete (sort_items body)) in
  blank key = false →
  existsb (in_order key) (db_rows d) = true →
  null (itemsToDelete (sort_items body)) = false →
  length (verified_rows ids key (db_rows d)) ≠ length ids →
  ∃ e c',
    put_order_test fails today key body (connect d) = (inl e, c')
    ∧ committed c' = db_rows d ∧ working c' = db_rows d
    ∧ log c' `prefix_of` up_to_verification ids key
    ∧ ((e = CannotDelete (missing_ids ids key (db_rows d)) key
        ∧ log c' = up_to_verification ids key)
       ∨ ∃ n s, fails n s = true ∧ e = StorageError n s).
Proof.
  intros ids Hb Hex Hdel Hlen. unfold put_order_test. rewrite Hb.
  destruct (null (sort_items body)) eqn:Hn.
  { destruct (sort_items body); [done|discriminate]. }
  assert (Hinit : untouched (db_rows d) [] (connect d)) by done.
  pose proof (transaction_test_delete_guard fails today key (db_rows d)
                (sort_items body) Hex Hdel Hlen (connect d) Hinit) as H.
  unfold try_rollback.
  destruct (transaction_test _ _ _ _ _) as [[e|a] c1]; [|done].
  destruct H as (Hc & H). exists e, (rollback c1).
  repeat split; [done..| |].
  - simpl. destruct H as [[_ ->]|(n & s & _ & _ & Hp)]; [done|exact Hp].
  - simpl. destruct H as [[-> ->]|(n & s & Hf & -> & _)]; [by left|right; by do 2 eexists].
Qed.

(** ** Header propagation *)

Lemma overlay_fold_lookup (p : item) (fs : list string) (acc : gmap string value)
    (f : string) :
  foldl (fun acc field =>
           match fields p !! field with
           | Some v => <[field := v]> acc
           | None => acc
           end) acc fs !! f
  = if bool_decide (f ∈ fs)
    then match fields p !! f with Some v => Some v | None => acc !! f end
    else acc !! f.
Proof.
  revert acc. induction fs as [|g fs IH]; intros acc; simpl.
  - done.
  - rewrite IH. destruct (decide (g = f)) as [->|Hne].
    + rewrite (bool_decide_eq_true_2 (f ∈ f :: fs)) by (by left).
      destruct (fields p !! f) eqn:Hf; [|by case_bool_decide].
      rewrite lookup_insert_eq. by case_bool_decide.
    + assert (Hacc : match fields p !! g with
                     | Some v => <[g:=v]> acc
                     | None => acc
                     end !! f = acc !! f).
      { destruct (fields p !! g); [by rewrite lookup_insert_ne|done]. }
      rewrite Hacc.
      assert (Hiff : f ∈ g :: fs ↔ f ∈ fs) by (rewrite elem_of_cons; intuition congruence).
      by rewrite (bool_decide_ext _ _ Hiff).
Qed.

(** The common order details have a value for each of the order-level
    fields: the priority item's where it has the property, the default
    otherwise. *)
Lemma commonOrderDetails_total today allItems f :
  In f commonFields → is_Some (commonOrderDetails today allItems !! f).
Proof.
  intros Hf.
  assert (Hd : is_Some (defaultOrderDetails today !! f)).
  { unfold commonFields in Hf. simpl in Hf.
    repeat (destruct Hf as [<-|Hf]; [by eexists|]). done. }
  unfold commonOrderDetails. destruct (List.filter _ _); [done|].
  unfold overlay. rewrite overlay_fold_lookup.
  case_bool_decide; [|done]. by destruct (fields _ !! f).
Qed.

Lemma update_where_headed common key t :
  headed common key (update_where (in_order key) common t).
Proof.
  intros r Hr Hk. unfold update_where in Hr.
  apply in_map_iff in Hr as (r' & <- & _).
  destruct (in_order key r') eqn:Hr'; [|congruence].
  simpl. apply map_union_subseteq_l.
Qed.

Section Header.
Variable fails : nat → statement → bool.
Variable today : string.

Lemma transaction_test_headed key allItems :
  triple (fun _ => True)
    (transaction_test fails today key allItems)
    (fun r c => headed (commonOrderDetails today allItems) key (committed c)
                ∧ data r = sort_by row_id (List.filter (in_order key) (committed c)))
    (fun _ _ => True).
Proof.
  set (common := commonOrderDetails today allItems).
  unfold transaction_test.
  eapply triple_bind; [apply triple_any|]. intros ?.
  eapply triple_bind; [apply triple_any|]. intros orderCheck. simpl.
  set (orderExists := (0 <? count orderCheck)%nat).
  destruct (negb orderExists && null (itemsToInsert allItems)) eqn:Hchk.
  { eapply (triple_bind _ _ _ (fun _ _ => False)); [by apply triple_throw|].
    intros []. apply triple_false. }
  assert (Hprop : orderExists || negb (null (itemsToInsert allItems)) = true)
    by (destruct orderExists, (null _); done).
  rewrite Hprop.
  eapply triple_bind; [apply triple_any|]. intros [].
  eapply triple_bind; [apply triple_any|]. intros [].
  eapply triple_bind; [apply triple_any|]. intros [].
  eapply triple_bind; [apply triple_any|]. intros [].
  eapply (triple_bind _ _ _ (fun _ c => headed common key (working c))).
  { cbn [when].
    eapply (triple_bind _ _ _ (fun _ c => headed common key (working c))).
    - apply triple_execute. intros c _. destruct (fails _ _); [done|]. simpl.
      apply update_where_headed.
    - intros r. by apply triple_ret. }
  intros [].
  eapply (triple_bind _ _ _
            (fun _ c => headed common key (committed c) ∧ working c = committed c)).
  { apply triple_commit. intros c Hc. by destruct (fails _ _). }
  intros [].
  eapply (triple_bind _ _ _
            (fun r c => headed common key (committed c)
                        ∧ rows r = sort_by row_id (List.filter (in_order key) (committed c)))).
  { apply triple_execute. intros c [Hc Hw]. destruct (fails _ _); [done|]. simpl.
    by rewrite Hw. }
  intros r. by apply triple_ret.
Qed.

(** C2, for src/test.js.  After a call that succeeds, every committed row
    of the order has, for each of the fourteen order-level fields, the
    value of the common order details computed from the priority item;
    these were written to every row of the order by the last statement
    before the commit, and the rows returned are the rows of the order by
    ascending id. *)
Theorem header_on_every_row_test key body d r c' :
  put_order_test fails today key body (connect d) = (inr r, c') →
  let common := commonOrderDetails today (sort_items body) in
  (∀ row, In row (committed c') → in_order key row = true →
     ∀ f, In f commonFields → ∃ v, common !! f = Some v ∧ cols row !! f = Some v)
  ∧ (∃ sent, log c' = sent ++ [UpdateCommon common key; Commit; SelectAll key])
  ∧ data r = sort_by row_id (List.filter (in_order key) (committed c')).
Proof.
  intros Hrun common. unfold put_order_test in Hrun.
  destruct (blank key); [done|]. destruct (null _); [done|].
  pose proof (transaction_test_headed key (sort_items body) (connect d) I) as H.
  pose proof (transaction_test_log fails today key (sort_items body) (connect d) eq_refl) as Hlog.
  unfold try_rollback in Hrun.
  destruct (transaction_test _ _ _ _ _) as [[e|a] c1]; [done|].
  inversion Hrun; subst. destruct H as [Hh Hd]. split; [|split; [|done]].
  - intros row Hrow Hk f Hf.
    destruct (commonOrderDetails_total today (sort_items body) f Hf) as [v Hv].
    exists v. split; [done|]. eapply lookup_weaken; [exact Hv|by apply Hh].
  - destruct Hlog as [oe ->]. unfold success_log_test.
    eexists. rewrite !app_assoc. reflexivity.
Qed.
End Header.

(** ** Submitting an order as it is stored *)

Lemma set_cols_same sets r : sets ⊆ cols r → set_cols sets r = r.
Proof.
  intros Hs. destruct r as [i k c]. unfold set_cols. simpl in *.
  f_equal. by apply map_subseteq_union.
Qed.

Lemma row_id_inj t r r' :
  NoDup (map row_id t) → In r t → In r' t → row_id r = row_id r' → r = r'.
Proof.
  induction t as [|x t IH]; simpl; [done|].
  intros [Hx Hnd]%NoDup_cons [->|Hr] [->|Hr'] Heq; try done.
  - exfalso. apply Hx. apply list_elem_of_In. rewrite Heq. by apply in_map.
  - exfalso. apply Hx. apply list_elem_of_In. rewrite <- Heq. by apply in_map.
  - by apply IH.
Qed.

Lemma filter_row_id t r :
  NoDup (map row_id t) → In r t → List.filter (has_row_id (row_id r)) t = [r].
Proof.
  induction t as [|x t IH]; simpl; [done|].
  intros [Hx Hnd]%NoDup_cons Hr. unfold has_row_id at 1.
  destruct (row_id x =? row_id r) eqn:Hid.
  - apply Z.eqb_eq in Hid. destruct Hr as [->|Hr].
    + f_equal. apply existsb_false_filter. apply not_true_iff_false.
      intros (y & Hy & Heq)%existsb_exists. apply Hx.
      apply list_elem_of_In. apply Z.eqb_eq in Heq. rewrite <- Heq. by apply in_map.
    + exfalso. apply Hx. apply list_elem_of_In. rewrite Hid. by apply in_map.
  - destruct Hr as [->|Hr]; [by rewrite Z.eqb_refl in Hid|by apply IH].
Qed.

Lemma map_fixed {A} (f : A → A) l : (∀ x, In x l → f x = x) → map f l = l.
Proof.
  induction l as [|x l IH]; intros H; simpl; [done|].
  rewrite H by (by left). rewrite IH; [done|]. intros y Hy. apply H. by right.
Qed.

(** An UPDATE of one row with values it already has changes nothing, and
    affects that row. *)
Lemma update_row_same key t r sets :
  NoDup (map row_id t) → In r t → in_order key r = true → sets ⊆ cols r →
  update_where (fun r' => has_row_id (row_id r) r' && in_order key r') sets t = t
  ∧ length (List.filter (fun r' => has_row_id (row_id r) r' && in_order key r') t) ≠ 0%nat.
Proof.
  intros Hnd Hr Hk Hs. split.
  - apply map_fixed. intros r' Hr'.
    destruct (has_row_id (row_id r) r' && in_order key r') eqn:Hp; [|done].
    apply andb_true_iff in Hp as [Hid _]. apply Z.eqb_eq in Hid.
    rewrite (row_id_inj t r' r Hnd Hr' Hr Hid). by apply set_cols_same.
  - assert (Hin : In r (List.filter (fun r' => has_row_id (row_id r) r' && in_order key r') t)).
    { apply filter_In. split; [done|]. unfold has_row_id. by rewrite Z.eqb_refl, Hk. }
    by destruct (List.filter _ t).
Qed.

Lemma filter_allowed_of_row allowed r :
  ¬ In "order_no" allowed →
  filter_allowed allowed (fields (item_of_row r)) ⊆ cols r.
Proof.
  intros Hno. apply map_subseteq_spec. intros k v Hkv.
  unfold filter_allowed in Hkv. apply map_lookup_filter_Some in Hkv as [Hkv Hk].
  simpl in *. rewrite lookup_insert_ne in Hkv; [done|].
  intros <-. apply Hno. by apply list_elem_of_In.
Qed.

Lemma rows_of_update_where key common t :
  rows_of key (update_where (in_order key) common t)
  = map (set_cols common) (rows_of key t).
Proof.
  unfold rows_of, update_where. induction t as [|r t IH]; simpl; [done|].
  destruct (in_order key r) eqn:Hr; simpl.
  - unfold in_order at 1. simpl. fold (in_order key r). rewrite Hr. simpl. by rewrite IH.
  - by rewrite Hr.
Qed.

Lemma update_where_headed_same common key t :
  headed common key t → update_where (in_order key) common t = t.
Proof.
  intros Hh. apply map_fixed. intros r Hr.
  destruct (in_order key r) eqn:Hk; [|done]. apply set_cols_same. by apply Hh.
Qed.

(** The body made of the rows of an order: every item is an update. *)
Lemma partitions_of_rows rs :
  (∀ r, In r rs → row_id r ≠ 0) →
  let body := map item_of_row rs in
  itemsToInsert (sort_items body) = []
  ∧ itemsToDelete (sort_items body) = []
  ∧ itemsToUpdate (sort_items body) = sort_items body.
Proof.
  intros Hid body.
  assert (Hu : ∀ i, In i body → is_update i = true).
  { intros i (r & <- & Hr)%in_map_iff. unfold is_update, has_id. simpl.
    specialize (Hid r Hr). by apply Z.eqb_neq in Hid as ->. }
  rewrite itemsToInsert_sorted, itemsToDelete_sorted, itemsToUpdate_sorted.
  assert (Hi : List.filter is_insert body = []).
  { apply existsb_false_filter, not_true_iff_false.
    intros (i & Hi & Hp)%existsb_exists. specialize (Hu i Hi).
    unfold is_insert, is_update in *. destruct (has_id i), (_deleted i); done. }
  assert (Hd : List.filter is_delete body = []).
  { apply existsb_false_filter, not_true_iff_false.
    intros (i & Hi' & Hp)%existsb_exists. specialize (Hu i Hi').
    unfold is_delete, is_update in *. destruct (has_id i), (_deleted i); done. }
  rewrite Hi, Hd. repeat split; try done.
  unfold sort_items. f_equal. apply forallb_filter_id.
  apply forallb_forall. exact Hu.
Qed.

Lemma order_no_not_allowed_test : ¬ In "order_no" allowedFields_test.
Proof. intros H. simpl in H. repeat (destruct H as [H|H]; [discriminate|]). done. Qed.

Lemma order_no_not_allowed : ¬ In "order_no" allowedFields.
Proof. intros H. simpl in H. repeat (destruct H as [H|H]; [discriminate|]). done. Qed.

Section Resubmit.
Variable today : string.
Variable key : string.
Variable t0 : list row.
Hypothesis ids_unique : NoDup (map row_id t0).

(** src/test.js: the round of the update loop for a row submitted as it
    is stored passes the check and changes nothing. *)
Lemma handle_update_same r :
  In r t0 → in_order key r = true →
  triple (unchanged t0) (handle_update nofail true key (item_of_row r))
         (fun _ => unchanged t0) (fun _ _ => False).
Proof.
  intros Hr Hk. unfold handle_update. cbn [when].
  change (the_id (item_of_row r)) with (row_id r).
  eapply (triple_bind _ _ _ (fun _ => unchanged t0)).
  - eapply (triple_bind _ _ _ (fun r' c => rows r' = [r] ∧ unchanged t0 c)).
    + apply triple_execute. intros c [Hw Hc]. simpl. rewrite Hw.
      split; [by apply filter_row_id|done].
    + intros r'. apply triple_pure. intros ->.
      unfold in_order in Hk. rewrite Hk. by apply triple_ret.
  - intros []. case_bool_decide; [by apply triple_ret|].
    pose proof (filter_allowed_of_row allowedFields_test r order_no_not_allowed_test) as Hsub.
    destruct (update_row_same key t0 r _ ids_unique Hr Hk Hsub) as [Hsame Hcount].
    set (sets := filter_allowed allowedFields_test (fields (item_of_row r))) in *.
    eapply (triple_bind _ _ _ (fun r' c => rowsAffected r' ≠ 0%nat ∧ unchanged t0 c)).
    + apply triple_execute. intros c [Hw Hc]. simpl. rewrite Hw. by rewrite Hsame.
    + intros r'. apply triple_pure. intros Hn.
      apply Nat.eqb_neq in Hn. rewrite Hn. by apply triple_ret.
Qed.

Lemma transaction_test_same :
  rows_of key t0 ≠ [] →
  (∀ r, In r (rows_of key t0) → row_id r ≠ 0) →
  let body := map item_of_row (rows_of key t0) in
  let common := commonOrderDetails today (sort_items body) in
  triple (unchanged t0)
    (transaction_test nofail today key (sort_items body))
    (fun r c =>
       r = Response (sort_by row_id (map (set_cols common) (rows_of key t0)))
             0 (length (rows_of key t0)) 0
       ∧ committed c = update_where (in_order key) common t0)
    (fun _ _ => False).
Proof.
  intros Hne Hid body common.
  destruct (partitions_of_rows (rows_of key t0) Hid) as (Hi & Hd & Hu).
  fold body in Hi, Hd, Hu.
  unfold transaction_test. fold common. rewrite Hi, Hd, Hu.
  eapply (triple_bind _ _ _ (fun _ => unchanged t0)).
  { apply triple_execute. by intros c Hc. }
  intros ?.
  eapply (triple_bind _ _ _ (fun r c => (0 <? count r)%nat = true ∧ unchanged t0 c)).
  { apply triple_execute. intros c [Hw Hc]. simpl. rewrite Hw. split; [|done].
    fold (rows_of key t0). destruct (rows_of key t0); done. }
  intros orderCheck. apply triple_pure. intros ->.
  cbn [negb andb orb null when handle_deletions].
  eapply (triple_bind _ _ _ (fun _ => unchanged t0)); [by apply triple_ret|]. intros [].
  eapply (triple_bind _ _ _ (fun _ => unchanged t0)); [by apply triple_ret|]. intros [].
  eapply (triple_bind _ _ _ (fun _ => unchanged t0)).
  { apply triple_when; [intros _|done]. apply triple_for_each.
    intros x Hx. apply sort_by_In in Hx. apply in_map_iff in Hx as (r & <- & Hr).
    apply filter_In in Hr as [Hr Hk]. by apply handle_update_same. }
  intros [].
  eapply (triple_bind _ _ _ (fun _ => unchanged t0)); [by apply triple_ret|]. intros [].
  eapply (triple_bind _ _ _
    (fun _ c => working c = update_where (in_order key) common t0)).
  { eapply (triple_bind _ _ _
      (fun _ c => working c = update_where (in_order key) common t0));
      [|intros r; by apply triple_ret].
    apply triple_execute. intros c [Hw Hc]. simpl. by rewrite Hw. }
  intros [].
  eapply (triple_bind _ _ _
    (fun _ c => working c = update_where (in_order key) common t0
                ∧ committed c = update_where (in_order key) common t0)).
  { apply triple_commit. by intros c Hc. }
  intros [].
  eapply (triple_bind _ _ _
    (fun r c => rows r = sort_by row_id (map (set_cols common) (rows_of key t0))
                ∧ committed c = update_where (in_order key) common t0)).
  { apply triple_execute. intros c [Hw Hc]. simpl. rewrite Hw. split; [|done].
    fold (rows_of key (update_where (in_order key) common t0)).
    by rewrite rows_of_update_where. }
  intros r. apply triple_ret. intros c [Hr Hc]. split; [|done].
  rewrite Hr. f_equal. unfold sort_items. rewrite sort_by_length.
  subst body. by rewrite length_map.
Qed.
Variable toOracleDate : option value → value.
Variable now : value.

Lemma update_values_same r sets :
  dates_kept toOracleDate r → sets ⊆ cols r → update_values toOracleDate sets = sets.
Proof.
  intros Hdates Hsub. unfold update_values.
  rewrite (alter_id _ sets "delivery_date").
  - apply alter_id. intros v Hv. apply (Hdates "order_date"); [by left|].
    by eapply lookup_weaken.
  - intros v Hv. apply (Hdates "delivery_date"); [by right|].
    by eapply lookup_weaken.
Qed.

(** src/routes/orders.js: the operation pushed for a row submitted as it
    is stored changes nothing. *)
Lemma update_operation_same r s :
  In r t0 → in_order key r = true → dates_kept toOracleDate r →
  In s (update_operation toOracleDate key (item_of_row r)) →
  keeps nofail (unchanged t0) (fun _ _ => False) s.
Proof.
  intros Hr Hk Hdates Hs. unfold update_operation in Hs.
  case_bool_decide; [done|]. destruct Hs as [<-|[]].
  pose proof (filter_allowed_of_row allowedFields r order_no_not_allowed) as Hsub.
  rewrite (update_values_same r _ Hdates Hsub).
  change (the_id (item_of_row r)) with (row_id r).
  destruct (update_row_same key t0 r _ ids_unique Hr Hk Hsub) as [Hsame _].
  set (sets := filter_allowed allowedFields (fields (item_of_row r))) in *.
  apply triple_execute. intros c [Hw Hc]. simpl. rewrite Hw. by rewrite Hsame.
Qed.

Lemma put_order_routes_same :
  blank key = false →
  rows_of key t0 ≠ [] →
  (∀ r, In r (rows_of key t0) → row_id r ≠ 0) →
  (∀ r, In r (rows_of key t0) → dates_kept toOracleDate r) →
  let body := map item_of_row (rows_of key t0) in
  triple (unchanged t0)
    (put_order_routes nofail toOracleDate now key body)
    (fun r c =>
       r = Response (sort_by row_id (rows_of key t0)) 0 (length (rows_of key t0)) 0
       ∧ committed c = t0)
    (fun _ _ => False).
Proof.
  intros Hb Hne Hid Hdates body.
  destruct (partitions_of_rows (rows_of key t0) Hid) as (Hi & Hd & Hu).
  fold body in Hi, Hd, Hu.
  unfold put_order_routes. rewrite Hb.
  assert (Hn : null (sort_items body) = false).
  { rewrite null_sort_items. subst body. by destruct (rows_of key t0). }
  rewrite Hn, Hi, Hd, Hu.
  eapply (triple_bind _ _ _ (fun _ => unchanged t0)).
  { unfold executeTransaction.
    apply triple_try_rollback with (E' := fun _ _ => False); [|done].
    eapply (triple_bind _ _ _ (fun _ => unchanged t0)).
    - apply execute_all_stable. intros s Hs.
      unfold operations in Hs. rewrite Hi, Hd, Hu in Hs. simpl in Hs.
      rewrite app_nil_r in Hs. apply in_flat_map in Hs as (x & Hx & Hs).
      apply sort_by_In in Hx. apply in_map_iff in Hx as (r & <- & Hr).
      pose proof (Hdates r Hr). apply filter_In in Hr as [Hr Hk].
      by apply (update_operation_same r).
    - intros results.
      eapply (triple_bind _ _ _ (fun _ => unchanged t0)); [|intros []; by apply triple_ret].
      apply triple_commit. intros c [Hw Hc]. simpl. by rewrite Hw. }
  intros ?.
  eapply (triple_bind _ _ _
    (fun r c => rows r = sort_by row_id (rows_of key t0) ∧ committed c = t0)).
  { apply triple_executeQuery. apply triple_execute.
    intros c (c0 & [Hw Hc] & ->). simpl. by rewrite Hc. }
  intros r. apply triple_ret. intros c [Hr Hc]. split; [|done].
  rewrite Hr. f_equal. unfold sort_items. rewrite sort_by_length.
  subst body. by rewrite length_map.
Qed.
End Resubmit.

(** C5, as the code has it.  Submitting the rows of a non-empty order as
    they are stored (ids distinct and not zero, nothing rejected by the
    storage engine) is answered with inserted = 0, deleted = 0 and updated
    = the number of rows: every item with an id counts as an update,
    changed or not.  src/test.js returns the rows with their order-level
    fields overwritten by the common order details, and so the same rows
    when every row already carries these; src/routes/orders.js returns
    the same rows when the date helper maps the stored dates to
    themselves. *)
Theorem resubmitted_rows_count_as_updated today toOracleDate now key d :
  blank key = false →
  NoDup (map row_id (db_rows d)) →
  rows_of key (db_rows d) ≠ [] →
  (∀ r, In r (rows_of key (db_rows d)) → row_id r ≠ 0) →
  let rs := rows_of key (db_rows d) in
  let body := map item_of_row rs in
  let common := commonOrderDetails today (sort_items body) in
  (∃ c', put_order_test nofail today key body (connect d)
         = (inr (Response (sort_by row_id (map (set_cols common) rs))
                   0 (length rs) 0), c')
         ∧ committed c' = update_where (in_order key) common (db_rows d))
  ∧ (headed common key (db_rows d) →
     ∃ c', put_order_test nofail today key body (connect d)
           = (inr (Response (sort_by row_id rs) 0 (length rs) 0), c')
           ∧ committed c' = db_rows d)
  ∧ ((∀ r, In r rs → dates_kept toOracleDate r) →
     ∃ c', put_order_routes nofail toOracleDate now key body (connect d)
           = (inr (Response (sort_by row_id rs) 0 (length rs) 0), c')
           ∧ committed c' = db_rows d).
Proof.
  intros Hb Hnd Hne Hid rs body common.
  assert (Hinit : unchanged (db_rows d) (connect d)) by done.
  assert (Htest : ∃ c', put_order_test nofail today key body (connect d)
         = (inr (Response (sort_by row_id (map (set_cols common) rs))
                   0 (length rs) 0), c')
         ∧ committed c' = update_where (in_order key) common (db_rows d)).
  { unfold put_order_test. rewrite Hb.
    assert (Hn : null (sort_items body) = false).
    { rewrite null_sort_items. subst body rs. by destruct (rows_of key (db_rows d)). }
    rewrite Hn.
    pose proof (transaction_test_same today key (db_rows d) Hnd Hne Hid
                  (connect d) Hinit) as H.
    unfold try_rollback. fold rs body common in H.
    destruct (transaction_test _ _ _ _ _) as [[e|a] c1]; [done|].
    destruct H as [-> Hc]. by exists c1. }
  split; [exact Htest|split].
  - intros Hh. destruct Htest as (c' & Hrun & Hc). exists c'.
    rewrite Hrun, Hc. split; [|by apply update_where_headed_same].
    do 4 f_equal. apply map_fixed. intros r Hr. apply set_cols_same.
    apply filter_In in Hr as [Hr Hk]. by apply Hh.
  - intros Hdates.
    pose proof (put_order_routes_same key (db_rows d) Hnd toOracleDate now
                  Hb Hne Hid Hdates (connect d) Hinit) as H.
    fold rs body in H.
    destruct (put_order_routes _ _ _ _ _ _) as [[e|a] c1]; [done|].
    destruct H as [-> Hc]. by exists c1.
Qed.


(** ** The two handlers side by side *)

Section TwoHandlers.
Variable today : string.
Variable toOracleDate : option value → value.
Variable now : value.

Lemma transaction_test_counts fails key allItems :
  triple (fun _ => True) (transaction_test fails today key allItems)
         (fun r _ => counts_of allItems r) (fun _ _ => True).
Proof.
  unfold transaction_test.
  do 2 (eapply triple_bind; [apply triple_any|]; intros ?). simpl.
  do 6 (eapply triple_bind; [apply triple_any|]; intros []).
  eapply triple_bind; [apply triple_any|]. intros r.
  by apply triple_ret.
Qed.

Lemma put_order_counts fails h key body :
  triple (fun _ => True) (put_order fails today toOracleDate now h key body)
         (fun r _ => counts_of (sort_items body) r) (fun _ _ => True).
Proof.
  destruct h; simpl.
  - unfold put_order_test.
    destruct (blank key); [by apply triple_throw|].
    destruct (null _); [by apply triple_throw|].
    apply triple_try_rollback with (E' := fun _ _ => True); [|done].
    apply transaction_test_counts.
  - unfold put_order_routes.
    destruct (blank key); [by apply triple_throw|].
    destruct (null _); [by apply triple_throw|].
    eapply triple_bind; [apply triple_any|]. intros ?.
    eapply triple_bind; [apply triple_any|]. intros r.
    by apply triple_ret.
Qed.

(** When nothing is rejected, src/routes/orders.js fails on a blank key
    and on an empty body only. *)
Lemma put_order_routes_completes key body :
  blank key = false → null (sort_items body) = false →
  triple (fun _ => True) (put_order_routes nofail toOracleDate now key body)
         (fun _ _ => True) (fun _ _ => False).
Proof.
  intros Hb Hn. unfold put_order_routes. rewrite Hb, Hn.
  eapply (triple_bind _ _ _ (fun _ _ => True)).
  { unfold executeTransaction.
    apply triple_try_rollback with (E' := fun _ _ => False); [|done].
    eapply (triple_bind _ _ _ (fun _ _ => True)).
    - apply execute_all_stable. intros s _. by apply triple_execute.
    - intros results.
      eapply (triple_bind _ _ _ (fun _ _ => True)); [by apply triple_commit|].
      intros []. by apply triple_ret. }
  intros ?. eapply (triple_bind _ _ _ (fun _ _ => True)).
  { apply triple_executeQuery. by apply triple_execute. }
  intros r. by apply triple_ret.
Qed.

(** C9, as the code has it.  The two handlers answer a blank key and an
    empty body alike, without reaching the storage; when both succeed they
    report the same operation counts, those of the three partitions; when
    nothing is rejected, src/routes/orders.js succeeds wherever src/test.js
    does; and neither changes a row of another order. *)
Theorem handlers_agree_on_validation_and_counts key body d :
  (blank key = true ∨ body = [] →
   ∀ fails fails' c,
     put_order fails today toOracleDate now TestJs key body c
     = put_order fails' today toOracleDate now RoutesJs key body c)
  ∧ (∀ fails fails' r1 c1 r2 c2,
       put_order fails today toOracleDate now TestJs key body (connect d) = (inr r1, c1) →
       put_order fails' today toOracleDate now RoutesJs key body (connect d) = (inr r2, c2) →
       inserted r1 = inserted r2 ∧ updated r1 = updated r2 ∧ deleted r1 = deleted r2)
  ∧ (∀ r1 c1,
       put_order nofail today toOracleDate now TestJs key body (connect d) = (inr r1, c1) →
       ∃ r2 c2,
         put_order nofail today toOracleDate now RoutesJs key body (connect d) = (inr r2, c2))
  ∧ (∀ fails h,
       others key (committed (put_order fails today toOracleDate now h key body (connect d)).2)
       = others key (db_rows d)).
Proof.
  split; [|split; [|split]].
  - intros Hv fails fails' c. simpl. unfold put_order_test, put_order_routes.
    destruct (blank key); [done|]. destruct Hv as [Hv| ->]; done.
  - intros fails fails' r1 c1 r2 c2 H1 H2.
    pose proof (put_order_counts fails TestJs key body (connect d) I) as Hc1.
    pose proof (put_order_counts fails' RoutesJs key body (connect d) I) as Hc2.
    rewrite H1 in Hc1. rewrite H2 in Hc2.
    destruct Hc1 as (-> & -> & ->), Hc2 as (-> & -> & ->). done.
  - intros r1 c1 H1. simpl in *.
    unfold put_order_test in H1.
    destruct (blank key) eqn:Hb; [done|].
    destruct (null (sort_items body)) eqn:Hn; [done|].
    pose proof (put_order_routes_completes key body Hb Hn (connect d) I) as H.
    destruct (put_order_routes _ _ _ _ _ _) as [[e|r2] c2]; [done|by do 2 eexists].
  - intros fails h.
    apply (call_keeps fails today toOracleDate now key
             (fun t => others key t = others key (db_rows d))); [|done].
    intros s d0 Hs <-. by apply (run_statement_others key).
Qed.
End TwoHandlers.

(** * The claims on the sample data *)

(** C1 at work: src/test.js has updated row 1, inserted a row and
    rewritten the header when the engine rejects the commit; the rows are
    those of before the call. *)
Lemma failed_call_changes_nothing_on_sample :
  (call (fail_at 6) TestJs "A" update_and_insert sample_db).1 = inl (StorageError 6 Commit)
  ∧ committed (call (fail_at 6) TestJs "A" update_and_insert sample_db).2
    = db_rows sample_db
  ∧ working (call (fail_at 6) TestJs "A" update_and_insert sample_db).2
    = db_rows sample_db.
Proof.
  split; [vm_compute; reflexivity|].
  apply (failed_call_changes_nothing (fail_at 6) today0 bind_as_given now0
           TestJs "A" update_and_insert sample_db (StorageError 6 Commit)).
  - vm_compute. reflexivity.
  - intros [n H]. discriminate H.
Defined.

(** C2 at work: after the update of row 1 and the insertion of a new item,
    every row of order A carries the common order details. *)
Lemma header_on_every_row_on_sample :
  succeeded (call nofail TestJs "A" update_and_insert sample_db) = true
  ∧ ∀ row, In row (committed (call nofail TestJs "A" update_and_insert sample_db).2) →
      in_order "A" row = true →
      ∀ f, In f commonFields →
        ∃ v, commonOrderDetails today0 (sort_items update_and_insert) !! f = Some v
             ∧ cols row !! f = Some v.
Proof.
  split; [vm_compute; reflexivity|].
  apply (header_on_every_row_test nofail today0 "A" update_and_insert sample_db
           (answer (call nofail TestJs "A" update_and_insert sample_db))
           (call nofail TestJs "A" update_and_insert sample_db).2).
  vm_compute. reflexivity.
Defined.

(** C2 as worded fails on src/routes/orders.js: a new item without a
    customer name is inserted into order A with an empty one, beside the
    rows of "Acme", and the call succeeds. *)
Lemma routes_leave_headers_apart :
  succeeded (call nofail RoutesJs "A" [Item None false {["item_name" := VStr "Washer"]}]
               sample_db) = true
  ∧ map (fun r => get (cols r) "customer_name")
      (rows_of "A"
         (committed (call nofail RoutesJs "A"
                       [Item None false {["item_name" := VStr "Washer"]}] sample_db).2))
    = [VStr "Acme"; VStr "Acme"; VStr ""]
  ∧ get (commonOrderDetails today0
           (sort_items [Item None false {["item_name" := VStr "Washer"]}]))
      "customer_name" = VStr "".
Proof. repeat split; vm_compute; reflexivity. Qed.



(** C4 at work: ids 1, 2 and 3 are to be deleted from order A, and 3
    belongs to order B: the call fails naming 3, after the lookup, and
    rows 1 and 2 stay. *)
Lemma delete_set_verified_on_sample :
  blank "A" = false
  ∧ existsb (in_order "A") (db_rows sample_db) = true
  ∧ null (itemsToDelete (sort_items delete_123)) = false
  ∧ (call nofail TestJs "A" delete_123 sample_db).1 = inl (CannotDelete [3] "A")
  ∧ committed (call nofail TestJs "A" delete_123 sample_db).2 = db_rows sample_db
  ∧ log (call nofail TestJs "A" delete_123 sample_db).2
    = [Begin; SelectCount "A"; SelectIdsIn [1; 2; 3] "A"].
Proof.
  assert (Hb : blank "A" = false) by reflexivity.
  assert (Hex : existsb (in_order "A") (db_rows sample_db) = true) by reflexivity.
  assert (Hdel : null (itemsToDelete (sort_items delete_123)) = false) by reflexivity.
  assert (Hlen : length (verified_rows (map the_id (itemsToDelete (sort_items delete_123)))
                           "A" (db_rows sample_db))
                 ≠ length (map the_id (itemsToDelete (sort_items delete_123))))
    by (vm_compute; discriminate).
  destruct (delete_set_verified_for_existing_order nofail today0 "A" delete_123
              sample_db Hb Hex Hdel Hlen)
    as (e & c' & Hrun & Hc & Hw & Hp & [[He Hl]|(n & s & Hf & _)]); [|discriminate Hf].
  unfold call. simpl put_order. rewrite Hrun. simpl.
  refine (conj Hb (conj Hex (conj Hdel (conj _ (conj Hc Hl))))).
  rewrite He. vm_compute. reflexivity.
Defined.

(** C4 as worded fails: order C does not exist, so src/test.js sends its
    DELETE with no lookup for the delete set before it, although id 1
    belongs to order A; src/routes/orders.js has no lookup at all, and
    deletes rows 1 and 2 of order A where id 3 belongs to order B. *)
Lemma delete_set_not_verified :
  log (call nofail TestJs "C" delete_and_insert sample_db).2
  = [Begin; SelectCount "C"; DeleteReturning [1] "C"]
  ∧ List.filter is_verification (log (call nofail TestJs "C" delete_and_insert sample_db).2)
    = []
  ∧ succeeded (call nofail RoutesJs "A" delete_123 sample_db) = true
  ∧ map row_id (committed (call nofail RoutesJs "A" delete_123 sample_db).2) = [3].
Proof. repeat split; vm_compute; reflexivity. Qed.

(** C5 at work: the two rows of order A, submitted as they are stored,
    come back counted as two updates. *)
Lemma resubmitted_rows_on_sample :
  blank "A" = false
  ∧ NoDup (map row_id (db_rows sample_db))
  ∧ rows_of "A" (db_rows sample_db) ≠ []
  ∧ (∃ c', call nofail TestJs "A" resubmitted_A sample_db
           = (inr (Response
                     (sort_by row_id
                        (map (set_cols (commonOrderDetails today0 (sort_items resubmitted_A)))
                           (rows_of "A" (db_rows sample_db))))
                     0 2 0), c'))
  ∧ (∃ c', call nofail RoutesJs "A" resubmitted_A sample_db
           = (inr (Response (sort_by row_id (rows_of "A" (db_rows sample_db))) 0 2 0), c')
           ∧ committed c' = db_rows sample_db).
Proof.
  assert (Hb : blank "A" = false) by reflexivity.
  assert (Hnd : NoDup (map row_id (db_rows sample_db))).
  { apply (bool_decide_unpack (NoDup (map row_id (db_rows sample_db)))).
    vm_compute. exact I. }
  assert (Hne : rows_of "A" (db_rows sample_db) ≠ []) by (vm_compute; discriminate).
  assert (Hid : ∀ r, In r (rows_of "A" (db_rows sample_db)) → row_id r ≠ 0).
  { intros r Hr. vm_compute in Hr. destruct Hr as [<-|[<-|[]]]; simpl; lia. }
  destruct (resubmitted_rows_count_as_updated today0 bind_as_given now0 "A" sample_db
              Hb Hnd Hne Hid) as ((c1 & Hrun1 & _) & _ & Hroutes).
  refine (conj Hb (conj Hnd (conj Hne (conj _ _)))).
  - exists c1. exact Hrun1.
  - apply Hroutes. intros r Hr k v Hk Hv. reflexivity.
Defined.

(** C5 as worded fails: both handlers report the two resubmitted rows as
    updated, not zero; and src/test.js, which takes the header from row 1,
    gives both rows the default status they did not have. *)
Lemma resubmitted_rows_counted :
  updated (answer (call nofail TestJs "A" resubmitted_A sample_db)) = 2%nat
  ∧ updated (answer (call nofail RoutesJs "A" resubmitted_A sample_db)) = 2%nat
  ∧ map (fun r => get (cols r) "status") (rows_of "A" (db_rows sample_db))
    = [VNull; VNull]
  ∧ map (fun r => get (cols r) "status")
      (data (answer (call nofail TestJs "A" resubmitted_A sample_db)))
    = [VStr "pending"; VStr "pending"].
Proof. repeat split; vm_compute; reflexivity. Qed.

(** C7 at work: the updates of rows 2 and 1, submitted in that order with
    two new items between and after them. *)
Lemma updates_by_id_on_sample :
  succeeded (call nofail TestJs "A" shuffled_body sample_db) = true
  ∧ update_statements (log (call nofail TestJs "A" shuffled_body sample_db).2)
    = flat_map (update_statement_of bind_as_given TestJs "A")
        (sort_by id_key (List.filter is_update shuffled_body))
  ∧ insert_statements (log (call nofail TestJs "A" shuffled_body sample_db).2)
    = map (insert_statement_of today0 bind_as_given now0 TestJs "A"
             (sort_items shuffled_body))
        (List.filter is_insert shuffled_body).
Proof.
  split; [vm_compute; reflexivity|].
  destruct (updates_by_id_inserts_as_submitted nofail today0 bind_as_given now0
              TestJs "A" shuffled_body sample_db)
    as (_ & _ & _ & Hall).
  apply (Hall (answer (call nofail TestJs "A" shuffled_body sample_db))).
  vm_compute. reflexivity.
Defined.

(** C7 as worded fails for the updates: row 2 is submitted before row 1,
    and both handlers send the UPDATE of row 1 first; the new items are
    inserted as submitted. *)
Lemma updates_not_sent_as_submitted :
  map the_id (List.filter is_update shuffled_body) = [2; 1]
  ∧ map updated_id
      (update_statements (log (call nofail TestJs "A" shuffled_body sample_db).2))
    = [1; 2]
  ∧ map updated_id
      (update_statements (log (call nofail RoutesJs "A" shuffled_body sample_db).2))
    = [1; 2]
  ∧ map (inserted_value "item_name")
      (insert_statements (log (call nofail TestJs "A" shuffled_body sample_db).2))
    = [VStr "Nut"; VStr "Bolt"].
Proof. repeat split; vm_compute; reflexivity. Qed.

(** C8 at work: an unsaved item flagged for deletion, submitted after the
    update of row 1. *)
Lemma flagged_item_on_sample :
  has_id flagged_unsaved = false
  ∧ _deleted flagged_unsaved = true
  ∧ call nofail TestJs "A" [Item (Some 1) false {["quantity" := VNum 7]}; flagged_unsaved]
      sample_db
    = call nofail TestJs "A" [Item (Some 1) false {["quantity" := VNum 7]}] sample_db
  ∧ deleted (answer (call nofail TestJs "A"
                       [Item (Some 1) false {["quantity" := VNum 7]}; flagged_unsaved]
                       sample_db)) = 0%nat.
Proof.
  assert (Hid : has_id flagged_unsaved = false) by reflexivity.
  assert (Hdel : _deleted flagged_unsaved = true) by reflexivity.
  destruct (flagged_item_without_id_is_ignored nofail today0 bind_as_given now0 TestJs "A"
              [Item (Some 1) false {["quantity" := VNum 7]}] [] flagged_unsaved
              (connect sample_db) Hid Hdel)
    as (_ & _ & _ & Hsame & _).
  refine (conj Hid (conj Hdel (conj _ _))).
  - apply Hsame. simpl. discriminate.
  - vm_compute. reflexivity.
Defined.

(** C9 as worded fails: an update of row 1 sent to order C, which does not
    exist, is refused by src/test.js and accepted by src/routes/orders.js;
    and where both succeed the rows differ, src/test.js having rewritten
    the header of every row of order A. *)
Lemma handlers_not_equivalent :
  (call nofail TestJs "C" [Item (Some 1) false {["quantity" := VNum 7]}] sample_db).1
  = inl (OrderDoesNotExist "C")
  ∧ succeeded (call nofail RoutesJs "C" [Item (Some 1) false {["quantity" := VNum 7]}]
                 sample_db) = true
  ∧ succeeded (call nofail TestJs "A" update_and_insert sample_db) = true
  ∧ succeeded (call nofail RoutesJs "A" update_and_insert sample_db) = true
  ∧ map (fun r => get (cols r) "customer_name")
      (data (answer (call nofail TestJs "A" update_and_insert sample_db)))
    = [VStr ""; VStr ""; VStr ""]
  ∧ map (fun r => get (cols r) "customer_name")
      (data (answer (call nofail RoutesJs "A" update_and_insert sample_db)))
    = [VStr "Acme"; VStr "Acme"; VStr ""].
Proof. repeat split; vm_compute; reflexivity. Qed.

(** C10 at work: order C does not exist; row 1 of order A is in the delete
    set, no id is looked up and nothing is deleted, but the call does not
    complete: the driver rejects the DELETE. *)
Lemma fresh_order_on_sample :
  existsb (in_order "C") (db_rows sample_db) = false
  ∧ unverified (call nofail TestJs "C" delete_and_insert sample_db).2
  ∧ others "C" (committed (call nofail TestJs "C" delete_and_insert sample_db).2)
    = db_rows sample_db
  ∧ (call nofail TestJs "C" delete_and_insert sample_db).1
    = inl (StorageError 2 (DeleteReturning [1] "C")).
Proof.
  assert (Hfresh : existsb (in_order "C") (db_rows sample_db) = false) by reflexivity.
  destruct (fresh_order_skips_id_checks nofail today0 "C" delete_and_insert sample_db Hfresh)
    as (Hu & _ & Ho & _ & Hstops).
  refine (conj Hfresh (conj Hu (conj Ho _))).
  apply Hstops; [reflexivity|reflexivity|discriminate].
Defined.

(** C6 at work: the empty body is refused for order A, which exists, as
    for any other; an update alone is refused by src/test.js for order C,
    which does not exist. *)
Lemma empty_body_on_sample :
  call nofail TestJs "A" [] sample_db = (inl NoDataProvided, connect sample_db)
  ∧ call nofail RoutesJs "A" [] sample_db = (inl NoDataProvided, connect sample_db)
  ∧ (call nofail TestJs "C" [Item (Some 1) false {["quantity" := VNum 7]}] sample_db).1
    = inl (OrderDoesNotExist "C").
Proof.
  destruct (empty_body_rejected nofail today0 bind_as_given now0 "A") as [Hempty _].
  destruct (empty_body_rejected nofail today0 bind_as_given now0 "C") as [_ Hfresh].
  refine (conj (Hempty TestJs (connect sample_db))
            (conj (Hempty RoutesJs (connect sample_db)) _)).
  apply (Hfresh [Item (Some 1) false {["quantity" := VNum 7]}] sample_db);
    [reflexivity|discriminate|reflexivity|reflexivity].
Defined.

(** C9 at work: a blank key is answered alike by the two handlers; for
    order A, an update and a new item, both succeed and report the same
    counts. *)
Lemma handlers_agree_on_sample :
  call nofail TestJs " " mixed_body sample_db = call nofail RoutesJs " " mixed_body sample_db
  ∧ inserted (answer (call nofail TestJs "A" update_and_insert sample_db))
    = inserted (answer (call nofail RoutesJs "A" update_and_insert sample_db))
  ∧ updated (answer (call nofail TestJs "A" update_and_insert sample_db))
    = updated (answer (call nofail RoutesJs "A" update_and_insert sample_db))
  ∧ deleted (answer (call nofail TestJs "A" update_and_insert sample_db))
    = deleted (answer (call nofail RoutesJs "A" update_and_insert sample_db)).
Proof.
  destruct (handlers_agree_on_validation_and_counts today0 bind_as_given now0
              " " mixed_body sample_db) as (Hvalid & _).
  destruct (handlers_agree_on_validation_and_counts today0 bind_as_given now0
              "A" update_and_insert sample_db) as (_ & Hcounts & _).
  split.
  - apply (Hvalid (or_introl eq_refl) nofail nofail (connect sample_db)).
  - apply (Hcounts nofail nofail
             (answer (call nofail TestJs "A" update_and_insert sample_db))
             (call nofail TestJs "A" update_and_insert sample_db).2
             (answer (call nofail RoutesJs "A" update_and_insert sample_db))
             (call nofail RoutesJs "A" update_and_insert sample_db).2);
      vm_compute; reflexivity.
Defined.

(** * The other routes, and more about the reconciler *)

#[local] Arguments String.append : simpl nomatch.

(** ** Text, numbers and order numbers *)

Lemma append_nil_r s : s +:+ "" = s.
Proof. induction s; simpl; congruence. Qed.

Lemma append_assoc (a b c : string) : (a +:+ b) +:+ c = a +:+ (b +:+ c).
Proof. induction a; simpl; congruence. Qed.

Lemma append_length (a b : string) :
  String.length (a +:+ b) = (String.length a + String.length b)%nat.
Proof. induction a; simpl; congruence. Qed.

Lemma split_on_cons sep s : ∃ part parts, split_on sep s = part :: parts.
Proof.
  induction s as [|a s IH]; simpl; [by eexists _, _|].
  destruct (Ascii.eqb a sep); [by eexists _, _|].
  destruct IH as (p & ps & ->). by eexists _, _.
Qed.

Lemma split_on_app sep p q :
  without sep p = true →
  split_on sep (p +:+ q)
  = match split_on sep q with
    | part :: parts => (p +:+ part) :: parts
    | [] => [p]
    end.
Proof.
  induction p as [|a p IH]; simpl.
  - intros _. by destruct (split_on_cons sep q) as (x & xs & ->).
  - intros [Ha Hp]%andb_true_iff. destruct (Ascii.eqb a sep); [done|].
    rewrite IH by done. by destruct (split_on_cons sep q) as (x & xs & ->).
Qed.

Lemma split_on_sep sep p q :
  without sep p = true →
  split_on sep (p +:+ String sep q) = p :: split_on sep q.
Proof.
  intros Hp. rewrite split_on_app by done. simpl.
  rewrite Ascii.eqb_refl. by rewrite append_nil_r.
Qed.

Lemma split_on_without sep p : without sep p = true → split_on sep p = [p].
Proof.
  intros Hp. rewrite <- (append_nil_r p) at 1. rewrite split_on_app by done.
  simpl. by rewrite append_nil_r.
Qed.

Lemma is_decimal_cases a :
  is_decimal a = true →
  a = "0"%char ∨ a = "1"%char ∨ a = "2"%char ∨ a = "3"%char ∨ a = "4"%char
  ∨ a = "5"%char ∨ a = "6"%char ∨ a = "7"%char ∨ a = "8"%char ∨ a = "9"%char.
Proof.
  destruct a as [[] [] [] [] [] [] [] []]; vm_compute; intros H;
    first [discriminate H | tauto].
Qed.

Lemma is_decimal_no_dash a : is_decimal a = true → Ascii.eqb a "-" = false.
Proof.
  intros H.
  by destruct (is_decimal_cases a H) as [->|[->|[->|[->|[->|[->|[->|[->|[->| ->]]]]]]]]].
Qed.

Lemma all_decimal_without s : all_decimal s = true → without "-" s = true.
Proof.
  induction s as [|a s IH]; simpl; [done|].
  intros [Ha Hs]%andb_true_iff. by rewrite (is_decimal_no_dash a Ha), IH.
Qed.

Lemma all_decimal_app a b :
  all_decimal (a +:+ b) = all_decimal a && all_decimal b.
Proof. induction a; simpl; [done|]. by rewrite IHa, andb_assoc. Qed.

Lemma all_decimal_uint u : all_decimal (NilEmpty.string_of_uint u) = true.
Proof. induction u; simpl; done. Qed.

Lemma all_decimal_dec n : all_decimal (dec n) = true.
Proof. apply all_decimal_uint. Qed.

Lemma all_decimal_zeros n : all_decimal (repeat_char n "0") = true.
Proof. induction n; simpl; done. Qed.

Lemma all_decimal_padStart n s :
  all_decimal s = true → all_decimal (padStart n "0" s) = true.
Proof.
  intros Hs. unfold padStart. by rewrite all_decimal_app, all_decimal_zeros, Hs.
Qed.

Lemma all_decimal_drop n s : all_decimal s = true → all_decimal (string_drop n s) = true.
Proof.
  revert s. induction n as [|n IH]; intros [|a s]; simpl; try done.
  intros [_ Hs]%andb_true_iff. by apply IH.
Qed.

Lemma day_decimal today : all_decimal (day today) = true.
Proof. apply all_decimal_padStart, all_decimal_dec. Qed.

Lemma month_decimal today : all_decimal (month today) = true.
Proof. apply all_decimal_padStart, all_decimal_dec. Qed.

Lemma year_decimal today : all_decimal (year today) = true.
Proof. apply all_decimal_drop, all_decimal_dec. Qed.

(** The parts of an order number of five parts or more. *)
Lemma split_on_order_number p0 d m y rest :
  without "-" p0 = true → without "-" d = true → without "-" m = true →
  without "-" y = true →
  split_on "-" (p0 +:+ "-" +:+ d +:+ "-" +:+ m +:+ "-" +:+ y +:+ "-" +:+ rest)
  = p0 :: d :: m :: y :: split_on "-" rest.
Proof.
  intros H0 Hd Hm Hy. simpl. by rewrite !split_on_sep.
Qed.

Lemma join3_inj d m y d' m' y' :
  without "-" d = true → without "-" m = true → without "-" y = true →
  without "-" d' = true → without "-" m' = true → without "-" y' = true →
  d +:+ "-" +:+ m +:+ "-" +:+ y = d' +:+ "-" +:+ m' +:+ "-" +:+ y' →
  d = d' ∧ m = m' ∧ y = y'.
Proof.
  intros Hd Hm Hy Hd' Hm' Hy' H.
  apply (f_equal (split_on "-")) in H. simpl in H.
  rewrite !split_on_sep, !split_on_without in H by done.
  by inversion H.
Qed.

Section NextOrderNumber.
Variable today : date.

(** X1.  With no row, with a first row that has no [order_no] property (or an
    empty one), or with an order number of fewer than five parts, the
    sequence restarts: the answer is the first number of the day. *)
Theorem next_order_number_restarts rows :
  match rows with
  | [] => True
  | row0 :: _ =>
      truthy (row0 !! "order_no") = false
      ∨ ∃ orderNo, row0 !! "order_no" = Some (VStr orderNo)
                   ∧ (length (split_on "-" orderNo) < 5)%nat
  end →
  next_order_number rows today = Some (orderNumber today "0001").
Proof.
  unfold next_order_number, nextSequence.
  destruct rows as [|row0 rows]; [done|].
  intros [->|(orderNo & -> & Hl)]; [done|].
  destruct (truthy _); [|done].
  by destruct (Nat.leb_spec 5 (length (split_on "-" orderNo))); [lia|].
Qed.

(** X2.  The latest order number is of another day: one of its three date
    parts differs from today's.  The sequence restarts. *)
Theorem next_order_number_new_day row0 others p0 d m y rest :
  without "-" p0 = true → without "-" d = true → without "-" m = true →
  without "-" y = true →
  row0 !! "order_no"
  = Some (VStr (p0 +:+ "-" +:+ d +:+ "-" +:+ m +:+ "-" +:+ y +:+ "-" +:+ rest)) →
  d ≠ day today ∨ m ≠ month today ∨ y ≠ year today →
  next_order_number (row0 :: others) today = Some (orderNumber today "0001").
Proof.
  intros Hp Hd Hm Hy Hrow Hne. unfold next_order_number, nextSequence. rewrite Hrow.
  replace (truthy _) with true by (by destruct p0).
  rewrite split_on_order_number by done.
  destruct (split_on_cons "-" rest) as (part & parts & ->).
  cbn [length Nat.leb nth].
  destruct (String.eqb_spec (d +:+ "-" +:+ m +:+ "-" +:+ y)
              (day today +:+ "-" +:+ month today +:+ "-" +:+ year today)) as [Heq|]; [|done].
  apply join3_inj in Heq;
    auto using all_decimal_without, day_decimal, month_decimal, year_decimal.
  intuition congruence.
Qed.

End NextOrderNumber.

Lemma next_order_number_restarts_on_sample :
  next_order_number [{["ORDER_NO" := VStr "SQ-03-02-25-0007"]}] sample_day
  = Some "SQ-03-02-25-0001".
Proof.
  apply (next_order_number_restarts sample_day
           [{["ORDER_NO" := VStr "SQ-03-02-25-0007"]}]).
  left. reflexivity.
Defined.

Lemma next_order_number_new_day_on_sample :
  next_order_number [latest "SQ-02-02-25-0007"] sample_day = Some "SQ-03-02-25-0001".
Proof.
  apply (next_order_number_new_day sample_day (latest "SQ-02-02-25-0007") []
           "SQ" "02" "02" "25" "0007"); try reflexivity.
  left. discriminate.
Defined.

(** ** White space *)

Lemma strip_prefix_app p s rest : strip_prefix p s = Some rest → s = p +:+ rest.
Proof.
  revert s. induction p as [|a p IH]; intros s; simpl; [by intros [= ->]|].
  destruct s as [|b s]; [done|].
  destruct (Ascii.eqb_spec a b) as [->|]; [|done].
  intros H. by rewrite (IH s H).
Qed.

Lemma strip_prefix_more p s rest w :
  strip_prefix p s = Some rest → strip_prefix p (s +:+ w) = Some (rest +:+ w).
Proof.
  revert s. induction p as [|a p IH]; intros s; simpl; [by intros [= ->]|].
  destruct s as [|b s]; [done|]. simpl.
  destruct (Ascii.eqb a b); [apply IH|done].
Qed.

Lemma strip_prefix_stop p s c rest :
  without c p = true → strip_prefix p s = None →
  strip_prefix p (s +:+ String c rest) = None.
Proof.
  revert s. induction p as [|a p IH]; intros s; simpl; [done|].
  intros [Ha Hp]%andb_true_iff. destruct s as [|b s]; simpl.
  - intros _. apply negb_true_iff in Ha. by rewrite Ha.
  - destruct (Ascii.eqb a b); [by apply IH|done].
Qed.

(** A white-space character: not empty, and without the characters that
    the patterns of the handlers name. *)
Lemma white_space_chars :
  Forall (fun p => p ≠ "" ∧ without "%" p = true ∧ without "@" p = true
                   ∧ without "." p = true) white_space.
Proof. repeat constructor; discriminate. Qed.


Lemma strip_prefix_self p rest : strip_prefix p (p +:+ rest) = Some rest.
Proof. induction p as [|a p IH]; simpl; [done|]. by rewrite Ascii.eqb_refl. Qed.

Lemma append_eq_prefix (p q x y : string) :
  p +:+ x = q +:+ y →
  (∃ r, strip_prefix q p = Some r) ∨ (∃ r, strip_prefix p q = Some r).
Proof.
  revert q. induction p as [|a p IH]; intros q; [right; by exists q|].
  destruct q as [|b q]; [left; by eexists|]. simpl.
  intros [= -> H]. rewrite Ascii.eqb_refl. by apply IH.
Qed.

Lemma white_space_prefix_free :
  forallb (fun p => forallb (not_begun_by p) white_space) white_space = true.
Proof. vm_compute. reflexivity. Qed.

Lemma strip_prefix_same p q x a b :
  In p white_space → In q white_space →
  strip_prefix p x = Some a → strip_prefix q x = Some b → p = q.
Proof.
  intros Hp Hq Ha Hb.
  apply strip_prefix_app in Ha. apply strip_prefix_app in Hb.
  pose proof white_space_prefix_free as HF. rewrite forallb_forall in HF.
  assert (Hpq : not_begun_by p q = true).
  { specialize (HF p Hp). rewrite forallb_forall in HF. by apply HF. }
  assert (Hqp : not_begun_by q p = true).
  { specialize (HF q Hq). rewrite forallb_forall in HF. by apply HF. }
  unfold not_begun_by in Hpq, Hqp.
  destruct (append_eq_prefix p q a b) as [[r Hr]|[r Hr]]; [congruence| |].
  - rewrite Hr in Hpq. destruct r; [|done].
    apply strip_prefix_app in Hr. by rewrite append_nil_r in Hr.
  - rewrite Hr in Hqp. destruct r; [|done].
    apply strip_prefix_app in Hr. by rewrite append_nil_r in Hr.
Qed.

Lemma space_ahead_some s rest :
  space_ahead s = Some rest →
  ∃ p, In p white_space ∧ strip_prefix p s = Some rest.
Proof.
  unfold space_ahead. induction white_space as [|p l IH]; simpl; [done|].
  destruct (strip_prefix p s) as [r|] eqn:Hp.
  - intros [= ->]. exists p. split; [by left|done].
  - intros H. destruct (IH H) as (q & Hq & Hs). exists q. split; [by right|done].
Qed.

Lemma space_ahead_none s p :
  space_ahead s = None → In p white_space → strip_prefix p s = None.
Proof.
  unfold space_ahead. induction white_space as [|q l IH]; simpl; [done|].
  destruct (strip_prefix q s) as [r|] eqn:Hq; [done|].
  intros H [<-|Hp]; [done|by apply IH].
Qed.

Lemma space_ahead_found s p r :
  In p white_space → strip_prefix p s = Some r → space_ahead s = Some r.
Proof.
  intros Hp Hr. destruct (space_ahead s) as [r'|] eqn:Hs.
  - destruct (space_ahead_some s r' Hs) as (q & Hq & Hr').
    assert (p = q) by exact (strip_prefix_same p q s r r' Hp Hq Hr Hr').
    congruence.
  - rewrite (space_ahead_none s p Hs Hp) in Hr. done.
Qed.

Lemma space_ahead_shorter s rest :
  space_ahead s = Some rest → (String.length rest < String.length s)%nat.
Proof.
  intros (p & Hp & Hs)%space_ahead_some. apply strip_prefix_app in Hs as ->.
  rewrite append_length.
  pose proof white_space_chars as HF. rewrite Forall_forall in HF.
  destruct (HF p) as [Hne _]; [by apply list_elem_of_In|].
  destruct p; [done|]. simpl. lia.
Qed.

Lemma space_ahead_more s rest w :
  space_ahead s = Some rest → space_ahead (s +:+ w) = Some (rest +:+ w).
Proof.
  intros (p & Hp & Hs)%space_ahead_some.
  apply (space_ahead_found _ p); [done|]. by apply strip_prefix_more.
Qed.

Lemma space_ahead_stop s c rest :
  Forall (fun p => without c p = true) white_space →
  space_ahead s = None → space_ahead (s +:+ String c rest) = None.
Proof.
  intros HF Hn. rewrite Forall_forall in HF.
  destruct (space_ahead (s +:+ String c rest)) as [r|] eqn:Hr; [|done].
  destruct (space_ahead_some _ _ Hr) as (p & Hp & Hpr).
  rewrite (strip_prefix_stop p s c rest) in Hpr; [done| |].
  - apply HF. by apply list_elem_of_In.
  - by apply space_ahead_none.
Qed.

(** The fuel of [skip_space] is enough. *)
Lemma skip_spaces_enough n s :
  (String.length s ≤ n)%nat → skip_spaces n s = skip_space s.
Proof.
  unfold skip_space. revert s.
  induction n as [n IH] using lt_wf_ind. intros s Hn.
  destruct n as [|n].
  - destruct s; [done|simpl in Hn; lia].
  - destruct (String.length s) as [|m] eqn:Hm.
    + destruct s; [|done]. reflexivity.
    + cbn [skip_spaces]. destruct (space_ahead s) as [r|] eqn:Hr; [|done].
      pose proof (space_ahead_shorter s r Hr) as Hlt.
      rewrite (IH n) by lia. rewrite (IH m) by lia. done.
Qed.

Lemma skip_space_unfold s :
  skip_space s =
  match space_ahead s with Some rest => skip_space rest | None => s end.
Proof.
  destruct s as [|a s]; [reflexivity|].
  unfold skip_space at 1. cbn [String.length skip_spaces].
  destruct (space_ahead (String a s)) as [r|] eqn:Hr; [|done].
  apply skip_spaces_enough. apply space_ahead_shorter in Hr. simpl in Hr. lia.
Qed.

(** An induction on a string that follows [skip_space]. *)
Lemma skip_space_ind (P : string → Prop) :
  (∀ s, space_ahead s = None → P s) →
  (∀ s rest, space_ahead s = Some rest → P rest → P s) →
  ∀ s, P s.
Proof.
  intros Hnone Hsome s.
  remember (String.length s) as n eqn:Hn. revert s Hn.
  induction n as [n IH] using lt_wf_ind. intros s ->.
  destruct (space_ahead s) as [r|] eqn:Hr; [|by apply Hnone].
  apply (Hsome s r Hr). apply (IH (String.length r)); [|done].
  by apply space_ahead_shorter.
Qed.

Lemma skip_space_head s : space_ahead (skip_space s) = None.
Proof.
  induction s as [s Hs|s r Hr IH] using skip_space_ind;
    rewrite skip_space_unfold, ?Hs, ?Hr; done.
Qed.

Lemma skip_space_idem s : skip_space (skip_space s) = skip_space s.
Proof. by rewrite (skip_space_unfold (skip_space s)), skip_space_head. Qed.

Lemma skip_space_app s w :
  all_space s = true → skip_space (s +:+ w) = skip_space w.
Proof.
  unfold all_space. rewrite String.eqb_eq.
  induction s as [s Hs|s r Hr IH] using skip_space_ind.
  - rewrite skip_space_unfold, Hs. by intros ->.
  - rewrite skip_space_unfold, Hr. intros H.
    rewrite (skip_space_unfold (s +:+ w)), (space_ahead_more s r w Hr). by apply IH.
Qed.

Lemma all_space_app s w :
  all_space s = true → all_space w = true → all_space (s +:+ w) = true.
Proof. intros Hs Hw. unfold all_space. by rewrite skip_space_app. Qed.

Lemma all_space_nil : all_space "" = true.
Proof. reflexivity. Qed.

(** [trim_end s] is [s] without the white space at its end. *)
Lemma trim_end_split s : ∃ w, s = trim_end s +:+ w ∧ all_space w = true.
Proof.
  induction s as [|a s (w & Hw & Hsp)]; [by exists ""|].
  cbn [trim_end]. destruct (all_space (String a s)) eqn:Ha.
  - by exists (String a s).
  - exists w. simpl. by rewrite <- Hw.
Qed.

Lemma trim_end_blank s : all_space s = true → trim_end s = "".
Proof. destruct s as [|a s]; [done|]. cbn [trim_end]. by intros ->. Qed.

Lemma trim_end_nil s : trim_end s = "" → all_space s = true.
Proof.
  destruct s as [|a s]; [done|]. cbn [trim_end].
  by destruct (all_space (String a s)).
Qed.

Lemma trim_end_idem s : trim_end (trim_end s) = trim_end s.
Proof.
  induction s as [|a s IH]; [done|].
  cbn [trim_end]. destruct (all_space (String a s)) eqn:Ha; [done|].
  cbn [trim_end]. destruct (all_space (String a (trim_end s))) eqn:Hb.
  - destruct (trim_end_split s) as (w & Hw & Hsp).
    assert (all_space (String a s) = true); [|congruence].
    rewrite Hw. change (String a (trim_end s +:+ w)) with (String a (trim_end s) +:+ w).
    by apply all_space_app.
  - by rewrite IH.
Qed.

Lemma trim_end_head s : space_ahead s = None → space_ahead (trim_end s) = None.
Proof.
  intros Hs. destruct (space_ahead (trim_end s)) as [r|] eqn:Hr; [|done].
  destruct (trim_end_split s) as (w & Hw & _).
  apply (space_ahead_more _ _ w) in Hr. rewrite <- Hw in Hr. congruence.
Qed.

Lemma blank_all_space s : blank s = all_space s.
Proof.
  unfold blank, trim, all_space.
  destruct (String.eqb_spec (skip_space s) "") as [->|Hne]; [done|].
  apply String.eqb_neq. intros H. apply trim_end_nil in H.
  unfold all_space in H. rewrite skip_space_idem in H. by apply String.eqb_eq in H.
Qed.

Lemma blank_skip_space s : blank s = String.eqb (skip_space s) "".
Proof. apply blank_all_space. Qed.

Lemma trim_blank s : trim s = "" ↔ blank s = true.
Proof. unfold blank. by rewrite String.eqb_eq. Qed.

Lemma trim_eqb s : String.eqb (trim s) "" = blank s.
Proof. reflexivity. Qed.

Lemma trim_idem s : trim (trim s) = trim s.
Proof.
  unfold trim. rewrite (skip_space_unfold (trim_end _)).
  rewrite trim_end_head by apply skip_space_head. apply trim_end_idem.
Qed.

(** A no-break space and a line separator are trimmed; a no-break space
    alone is blank. *)
Lemma trim_on_sample :
  trim (bytes [194; 160]%nat +:+ "SQ-1" +:+ bytes [226; 128; 168]%nat) = "SQ-1"
  ∧ blank (bytes [194; 160]%nat) = true.
Proof. split; vm_compute; reflexivity. Qed.

Lemma without_app c a b : without c (a +:+ b) = without c a && without c b.
Proof. induction a as [|x a IH]; simpl; [done|]. by rewrite IH, andb_assoc. Qed.

Lemma without_skip_space c s : without c s = true → without c (skip_space s) = true.
Proof.
  induction s as [s Hs|s r Hr IH] using skip_space_ind;
    rewrite skip_space_unfold, ?Hs, ?Hr; [done|].
  intros H. apply IH. destruct (space_ahead_some s r Hr) as (p & _ & Hp).
  apply strip_prefix_app in Hp. rewrite Hp, without_app in H.
  by apply andb_true_iff in H as [_ H].
Qed.

Lemma white_space_no_percent : Forall (fun p => without "%" p = true) white_space.
Proof. eapply Forall_impl; [apply white_space_chars|]. by intros p (_ & H & _). Qed.



Lemma skip_space_percent s rest :
  without "%" s = true →
  skip_space (s +:+ String "%" rest) = skip_space s +:+ String "%" rest.
Proof.
  induction s as [s Hs|s r Hr IH] using skip_space_ind; intros Hw.
  - rewrite (skip_space_unfold s), Hs, skip_space_unfold.
    by rewrite space_ahead_stop by auto using white_space_no_percent.
  - rewrite (skip_space_unfold s), Hr, skip_space_unfold.
    rewrite (space_ahead_more s r _ Hr). apply IH.
    destruct (space_ahead_some s r Hr) as (p & _ & Hp).
    apply strip_prefix_app in Hp. rewrite Hp, without_app in Hw.
    by apply andb_true_iff in Hw as [_ H].
Qed.

(** ** Batches of new orders *)

Lemma truthy_or_default v d :
  truthy (Some d) = true → truthy (Some (or_default v d)) = true.
Proof.
  intros Hd. unfold or_default. destruct v as [x|]; [|done].
  by destruct (truthy (Some x)) eqn:Hx.
Qed.

Lemma length_ids_from first n : length (ids_from first n) = n.
Proof. revert first. induction n; intros first; simpl; [done|]. by rewrite IHn. Qed.

Section PostFacts.
Variable fails : nat → statement → bool.
Variable toOracleDate : option value → value.
Variable now : value.
Variable as_text : option value → string.

Lemma post_operation_insert index item op :
  post_operation toOracleDate now index item = inr op → is_insert_statement op = true.
Proof.
  unfold post_operation. intros H.
  repeat match type of H with
         | match ?x with _ => _ end = _ => destruct x
         | (if ?x then _ else _) = _ => destruct x
         end; by simplify_eq.
Qed.

Lemma post_operations_inserts index data ops :
  post_operations toOracleDate now index data = inr ops →
  Forall (fun s => is_insert_statement s = true) ops ∧ length ops = length data.
Proof.
  revert index ops. induction data as [|item data IH]; intros index ops; simpl.
  - intros [= <-]. by split.
  - destruct (post_operation _ _ _ _) as [e|op] eqn:Hop; [done|].
    destruct (post_operations _ _ _ _) as [e|ops'] eqn:Hops; [done|].
    intros [= <-]. destruct (IH _ _ Hops) as [HF Hl]. split; simpl; [|by rewrite Hl].
    constructor; [by eapply post_operation_insert|done].
Qed.

(** What a run of INSERTs leaves behind when none is rejected. *)
Lemma execute_all_inserts ops c :
  Forall (fun s => is_insert_statement s = true) ops →
  match execute_all fails (map sql_binds ops) c with
  | (inr results, c') =>
      working c' = working c ++ rows_inserted (next_id c) ops
      ∧ next_id c' = next_id c + Z.of_nat (length ops)
      ∧ committed c' = committed c
      ∧ map (fun r => head (outBinds r)) results
        = map Some (ids_from (next_id c) (length ops))
  | (inl _, _) => True
  end.
Proof.
  intros HF. revert c. induction HF as [|op ops Hop HF IH]; intros c; simpl.
  - rewrite app_nil_r. repeat split; lia.
  - destruct op; try done. without_options. unfold mbind, M_bind, bind, execute. simpl.
    destruct (fails _ _); [done|].
    match goal with |- context [execute_all fails _ ?c1] => specialize (IH c1) end.
    destruct (execute_all fails _ _) as [[e|results] c']; [done|]. simpl in *.
    destruct IH as (Hw & Hn & Hc & Hids).
    rewrite Hw, Hn, Hc, Hids, <- app_assoc. repeat split; simpl; try done. lia.
Qed.

Lemma insert_each_execute_all data c :
  insert_each fails as_text data c
  = (results ← execute_all fails (map sql_binds (map (post_insert_test as_text) data));
     mret (map (fun r => head (outBinds r)) results)) c.
Proof.
  revert c. induction data as [|item data IH]; intros c; [done|].
  simpl. without_options. unfold mbind, M_bind, bind.
  destruct (execute fails _ c) as [[e|r] c1]; [done|].
  rewrite IH. unfold mbind, M_bind, bind.
  by destruct (execute_all fails _ c1) as [[e|rs] c2].
Qed.

Lemma post_transaction_test_atomic t0 data :
  triple (fun c => committed c = t0)
    (execute fails Begin;;
     insertedIds ← insert_each fails as_text data;
     commit fails;;
     mret insertedIds)
    (fun _ _ => True) (fun _ c => committed c = t0).
Proof.
  set (I := fun c => committed c = t0).
  eapply (triple_bind _ _ _ (fun _ => I)); [apply execute_keeps_committed|].
  intros _. eapply (triple_bind _ _ _ (fun _ => I)).
  { induction data as [|item data IH]; simpl; [by apply triple_ret|].
    eapply (triple_bind _ _ _ (fun _ => I)); [apply execute_keeps_committed|].
    intros r. eapply (triple_bind _ _ _ (fun _ => I)); [apply IH|].
    intros ids. by apply triple_ret. }
  intros ids. eapply (triple_bind _ _ _ (fun _ _ => True)).
  { apply triple_commit. intros c Hc. by destruct (fails _ _). }
  intros []. by apply triple_ret.
Qed.

(** X5.  Whatever goes wrong in a call of [POST /orders], with either handler:
    nothing of the batch is stored. *)
Theorem failed_post_stores_nothing h data d e c' :
  post_orders fails toOracleDate now as_text h data (connect d) = (inl e, c') →
  committed c' = db_rows d ∧ working c' = db_rows d.
Proof.
  destruct h; simpl; unfold post_orders_test, post_orders_routes.
  - destruct (null data); [by intros [= <- <-]|].
    pose proof (post_transaction_test_atomic (db_rows d) data (connect d) eq_refl) as H.
    unfold try_rollback.
    destruct ((execute fails Begin;; _) (connect d)) as [[e'|ids] c1]; [|done].
    intros [= <- <-]. by split.
  - destruct (null data); [by intros [= <- <-]|].
    destruct (post_operations _ _ _ _) as [e'|ops]; [by intros [= <- <-]|].
    pose proof (executeTransaction_atomic fails (db_rows d) ops (connect d) eq_refl) as H.
    destruct (executeTransaction _ _ _) as [[e'|rs] c1]; [|done].
    by intros [= <- <-].
Qed.

Lemma post_orders_appends h data d r c' :
  post_orders fails toOracleDate now as_text h data (connect d) = (inr r, c') →
  length (post_statements toOracleDate now as_text h data) = length data
  ∧ committed c'
    = db_rows d
      ++ rows_inserted (db_next_id d) (post_statements toOracleDate now as_text h data)
  ∧ insertedIds r = map Some (ids_from (db_next_id d) (length data))
  ∧ insertedCount r = length data.
Proof.
  destruct h; simpl; unfold post_orders_test, post_orders_routes.
  - destruct (null data); [done|].
    unfold try_rollback, mbind, M_bind, bind, execute. simpl.
    destruct (fails 0%nat Begin); [done|].
    rewrite insert_each_execute_all. unfold mbind, M_bind, bind.
    match goal with |- context [execute_all fails (map sql_binds ?ops) ?c1] =>
      pose proof (execute_all_inserts ops c1) as H end.
    destruct (execute_all fails _ _) as [[e|rs] c1]; [done|]. simpl.
    unfold commit. destruct (fails _ Commit); [done|].
    intros [= <- <-]. simpl.
    destruct H as (Hw & Hn & Hc & Hids).
    { clear. induction data; by constructor. }
    simpl in *. rewrite length_map in *. rewrite Hw, Hids, !length_map, length_ids_from.
    done.
  - destruct (null data); [done|].
    destruct (post_operations _ _ _ _) as [e|ops] eqn:Hops; [done|].
    destruct (post_operations_inserts _ _ _ Hops) as [HF Hl].
    unfold executeTransaction, try_rollback, mbind, M_bind, bind.
    pose proof (execute_all_inserts ops (connect d) HF) as H.
    destruct (execute_all fails _ _) as [[e|rs] c1]; [done|].
    unfold commit. destruct (fails _ Commit); [done|].
    intros [= <- <-]. simpl in *.
    destruct H as (Hw & Hn & Hc & Hids). by rewrite Hw, Hids, Hl.
Qed.

(** X6.  A call of [POST /orders] that succeeds has appended one row for each
    item of the batch, in the order of the batch, to the rows there
    were; the ids it answers with are the ids of these rows, and the
    count is the size of the batch. *)
Theorem posted_rows_are_appended h data d r c' :
  post_orders fails toOracleDate now as_text h data (connect d) = (inr r, c') →
  length (post_statements toOracleDate now as_text h data) = length data
  ∧ committed c'
    = db_rows d
      ++ rows_inserted (db_next_id d) (post_statements toOracleDate now as_text h data)
  ∧ insertedIds r = map Some (ids_from (db_next_id d) (length data))
  ∧ insertedCount r = length data.
Proof. apply post_orders_appends. Qed.
End PostFacts.

Lemma match_percent_spaces s rest :
  without "%" s = true →
  match_percent (s +:+ String "%" rest) = if all_space s then Some rest else None.
Proof.
  intros Hw. unfold match_percent, all_space. rewrite skip_space_percent by done.
  pose proof (without_skip_space "%" s Hw) as Hk.
  destruct (skip_space s) as [|a x]; [done|]. simpl in *.
  apply andb_true_iff in Hk as [Ha _]. apply negb_true_iff in Ha. by rewrite Ha.
Qed.

Lemma match_percent_without s : without "%" s = true → match_percent s = None.
Proof.
  intros Hw. unfold match_percent.
  pose proof (without_skip_space "%" s Hw) as Hk.
  destruct (skip_space s) as [|a x]; [done|]. simpl in *.
  apply andb_true_iff in Hk as [Ha _]. apply negb_true_iff in Ha. by rewrite Ha.
Qed.

Lemma replace_percent_unfold s :
  replace_percent s =
  match match_percent s with
  | Some rest => rest
  | None => match s with "" => "" | String a s' => String a (replace_percent s') end
  end.
Proof. by destruct s. Qed.

Lemma replace_percent_first before after :
  without "%" before = true →
  replace_percent (before +:+ String "%" after) = trim_end before +:+ after.
Proof.
  induction before as [|a s IH]; intros Hw.
  - rewrite replace_percent_unfold, (match_percent_spaces "" after) by done. done.
  - rewrite replace_percent_unfold, match_percent_spaces by done.
    cbn [trim_end]. destruct (all_space (String a s)); [done|].
    simpl. f_equal. apply IH. simpl in Hw. by apply andb_true_iff in Hw as [_ H].
Qed.

Lemma replace_percent_without s : without "%" s = true → replace_percent s = s.
Proof.
  induction s as [|a s IH]; intros Hw.
  - reflexivity.
  - rewrite replace_percent_unfold, match_percent_without by done.
    f_equal. apply IH. simpl in Hw. by apply andb_true_iff in Hw as [_ H].
Qed.

Section PostValidation.
Variable fails : nat → statement → bool.
Variable toOracleDate : option value → value.
Variable now : value.
Hypothesis now_truthy : truthy (Some now) = true.

Lemma post_operation_accepts index item s :
  item !! "order_no" = Some (VStr s) → blank s = false →
  ∃ op, post_operation toOracleDate now index item = inr op.
Proof.
  intros Hs Hb. unfold post_operation. rewrite Hs, trim_eqb, Hb.
  rewrite (truthy_or_default _ _ (truthy_or_default _ _ now_truthy)). by eexists.
Qed.

Lemma post_operation_refuses index item :
  match item !! "order_no" with
  | None | Some VNull => True
  | Some (VStr s) => blank s = true
  | _ => False
  end →
  post_operation toOracleDate now index item = inl (OrderNumberRequiredAt index).
Proof.
  unfold post_operation. destruct (item !! "order_no") as [[| | |s]|]; try done.
  intros Hb. by rewrite trim_eqb, Hb.
Qed.

Lemma post_operations_first_bad index data i item :
  data !! i = Some item →
  match item !! "order_no" with
  | None | Some VNull => True
  | Some (VStr s) => blank s = true
  | _ => False
  end →
  (∀ j item', (j < i)%nat → data !! j = Some item' →
     ∃ s, item' !! "order_no" = Some (VStr s) ∧ blank s = false) →
  post_operations toOracleDate now index data = inl (OrderNumberRequiredAt (index + i)).
Proof.
  revert index i. induction data as [|item0 data IH]; intros index i Hi Hbad Hgood; [done|].
  destruct i as [|i]; simpl in *.
  - injection Hi as ->. rewrite post_operation_refuses by done.
    by rewrite Nat.add_0_r.
  - destruct (Hgood 0%nat item0) as (s & Hs & Hb); [lia|done|].
    destruct (post_operation_accepts index item0 s Hs Hb) as [op ->].
    rewrite (IH (S index) i) by (try done; intros j item' Hj; apply (Hgood (S j)); lia).
    do 2 f_equal. lia.
Qed.

Lemma post_operation_dated index item key :
  post_operation toOracleDate now index item ≠ inl (DeliveryDateRequired key).
Proof.
  unfold post_operation.
  destruct (item !! "order_no") as [[| | |s]|]; try done;
    destruct (String.eqb _ _); try done;
    by rewrite (truthy_or_default _ _ (truthy_or_default _ _ now_truthy)).
Qed.

Lemma post_operations_dated index data key :
  post_operations toOracleDate now index data ≠ inl (DeliveryDateRequired key).
Proof.
  revert index. induction data as [|item data IH]; intros index; simpl; [done|].
  pose proof (post_operation_dated index item key).
  destruct (post_operation _ _ _ _) as [e|op]; [congruence|].
  specialize (IH (S index)).
  destruct (post_operations _ _ _ _) as [e|ops]; congruence.
Qed.

(** X8.  src/routes/orders.js checks every item before it sends anything: when
    the item at index [i] is the first without an order number (none, or
    a blank one), the call answers with that index and nothing has been
    sent to the storage, not even for the items before it. *)
Theorem post_routes_names_first_item_without_number data c i item :
  data !! i = Some item →
  match item !! "order_no" with
  | None | Some VNull => True
  | Some (VStr s) => blank s = true
  | _ => False
  end →
  (∀ j item', (j < i)%nat → data !! j = Some item' →
     ∃ s, item' !! "order_no" = Some (VStr s) ∧ blank s = false) →
  post_orders_routes fails toOracleDate now data c = (inl (OrderNumberRequiredAt i), c).
Proof.
  intros Hi Hbad Hgood. unfold post_orders_routes.
  destruct data as [|item0 data]; [done|]. cbn [null].
  by rewrite (post_operations_first_bad 0 _ i item).
Qed.

(** X9.  'Delivery date is required' is never the answer: the delivery date
    falls back on the order date, which falls back on [new Date()]. *)
Theorem delivery_date_is_never_required data c key :
  (post_orders_routes fails toOracleDate now data c).1 ≠ inl (DeliveryDateRequired key).
Proof.
  unfold post_orders_routes. destruct (null data); [done|].
  pose proof (post_operations_dated 0 data key).
  destruct (post_operations _ _ _ _) as [e|ops]; [simpl; congruence|].
  by destruct (executeTransaction _ _ _) as [[e|rs] c'].
Qed.
End PostValidation.

(** X10.  The [gst] of an item, given as text: both handlers bind it without
    its first percent sign and the white space right before that sign;
    text without a percent sign is bound as it is. *)
Theorem gst_is_bound_without_percent item s order_date delivery_date :
  item !! "gst" = Some (VStr s) →
  post_binds item order_date delivery_date !! "gst" = post_binds_test item !! "gst"
  ∧ (∀ before after,
       s = before +:+ "%" +:+ after → without "%" before = true →
       post_binds_test item !! "gst" = Some (VStr (trim_end before +:+ after)))
  ∧ (without "%" s = true → post_binds_test item !! "gst" = Some (VStr s)).
Proof.
  intros Hs.
  assert (H1 : post_binds item order_date delivery_date !! "gst"
               = Some (VStr (replace_percent s))).
  { transitivity (Some (match item !! "gst" with
                        | None | Some VNull => VNum 0
                        | gst => VStr (replace_percent (String_of gst))
                        end)); [reflexivity|by rewrite Hs]. }
  assert (H2 : post_binds_test item !! "gst" = Some (VStr (replace_percent s))).
  { transitivity (Some (VStr (replace_percent (String_of (item !! "gst")))));
      [reflexivity|by rewrite Hs]. }
  rewrite H1, H2. split; [done|]. split.
  - intros before after -> Hb. by rewrite <- replace_percent_first.
  - intros Hw. by rewrite replace_percent_without.
Qed.

Lemma failed_post_on_sample :
  committed (post_orders (fail_at 2) bind_as_given now0 text_of TestJs sample_orders
               (connect sample_db)).2 = db_rows sample_db.
Proof.
  apply (failed_post_stores_nothing (fail_at 2) bind_as_given now0 text_of TestJs
           sample_orders sample_db
           (PostFailed (StorageError 2 (post_insert_test text_of
              (<["order_no" := VStr "SQ-03-02-25-0001"]> {["item_name" := VStr "Wire"]}))))).
  vm_compute. reflexivity.
Defined.

(** ** Order numbers as they are stored *)

Section PostTrimmed.
Variable fails : nat → statement → bool.
Variable toOracleDate : option value → value.
Variable now : value.

Lemma post_operation_trimmed index item key vals :
  post_operation toOracleDate now index item = inr (InsertRow key vals) →
  blank key = false ∧ trimmed key.
Proof.
  unfold post_operation.
  destruct (item !! "order_no") as [[| | |s]|]; try done.
  rewrite trim_eqb. destruct (blank s) eqn:Hb; [done|].
  destruct (negb _); [done|]. intros [= <- _]. split; [|apply trim_idem].
  destruct (blank (trim s)) eqn:Hbt; [|done].
  apply trim_blank in Hbt. rewrite trim_idem in Hbt. apply trim_blank in Hbt. congruence.
Qed.

Lemma post_operations_trimmed index data ops next row :
  post_operations toOracleDate now index data = inr ops →
  In row (rows_inserted next ops) →
  blank (row_order_no row) = false ∧ trimmed (row_order_no row).
Proof.
  revert index ops next. induction data as [|item data IH]; intros index ops next; simpl.
  - by intros [= <-].
  - destruct (post_operation _ _ _ _) as [e|op] eqn:Hop; [done|].
    destruct (post_operations _ _ _ _) as [e|ops'] eqn:Hops; [done|].
    intros [= <-]. pose proof (post_operation_insert _ _ _ _ _ Hop) as Hi.
    destruct op; try done. simpl. intros [<-|Hin].
    + simpl. by eapply post_operation_trimmed.
    + by eapply IH.
Qed.

(** X7.  No row that src/routes/orders.js stores through [POST /orders]
    has a blank order number or one with white space around it: the
    number is stored as [trim] leaves it. *)
Theorem posted_order_numbers_are_trimmed data d r c' row :
  post_orders_routes fails toOracleDate now data (connect d) = (inr r, c') →
  In row (committed c') →
  In row (db_rows d) ∨ (blank (row_order_no row) = false ∧ trimmed (row_order_no row)).
Proof.
  intros Hrun.
  destruct (post_orders_appends fails toOracleDate now (fun _ => "") RoutesJs
              data d r c' Hrun) as (_ & -> & _).
  intros [Hin|Hin]%in_app_or; [by left|]. right. simpl in Hin.
  unfold post_orders_routes in Hrun. destruct (null data); [done|].
  destruct (post_operations _ _ _ _) as [e|ops] eqn:Hops; [done|].
  by eapply post_operations_trimmed.
Qed.
End PostTrimmed.

(** ** Transactions of [OracleService] *)





(** An operation with [autoCommit] is committed as soon as it has gone
    through: what a later operation throws does not undo it. *)
Lemma autoCommit_is_kept :
  (executeTransaction (fail_at 1) committing_operations (connect sample_db)).1
  = inl (StorageError 1 (DeleteIn [1] "A"))
  ∧ map row_order_no
      (committed (executeTransaction (fail_at 1) committing_operations
                    (connect sample_db)).2)
    = ["A"; "A"; "B"; "C"].
Proof. split; vm_compute; reflexivity. Qed.

(** ** Reading an order back, and ids the reconciler does not find *)

Lemma insert_by_perm {A} (key : A → Z) x l : insert_by key x l ≡ₚ x :: l.
Proof.
  induction l as [|y l IH]; simpl; [done|].
  destruct (key x <=? key y); [done|]. rewrite IH. apply perm_swap.
Qed.

Lemma sort_by_perm {A} (key : A → Z) l : sort_by key l ≡ₚ l.
Proof.
  induction l as [|x l IH]; simpl; [done|]. by rewrite insert_by_perm, IH.
Qed.

Lemma find_ascending {A} (key : A → Z) (p : A → bool) l x :
  ascending key l → List.find p l = Some x →
  In x l ∧ p x = true ∧ ∀ y, In y l → p y = true → key x ≤ key y.
Proof.
  induction l as [|z l IH]; [done|]. intros Hasc. simpl.
  destruct (p z) eqn:Hz.
  - intros [= ->]. split; [by left|]. split; [done|].
    intros y [->|Hy] _; [lia|]. by apply (ascending_head key x l).
  - intros Hf. destruct (IH (ascending_tail key z l Hasc) Hf) as (Hin & Hp & Hmin).
    split; [by right|]. split; [done|].
    intros y [->|Hy] Hy'; [congruence|]. by apply Hmin.
Qed.

Lemma triple_for_each_stop {A} (I : conn → Prop) (l : list A) body u
    (Q : unit → conn → Prop) E :
  In u l →
  (∀ x, In x l → triple I (body x) (fun _ => I) E) →
  triple I (body u) (fun _ _ => False) E →
  triple I (for_each l body) Q E.
Proof.
  intros Hu Hb Hab. induction l as [|x l IH]; [done|]. simpl.
  destruct Hu as [->|Hu].
  - eapply (triple_bind _ _ _ (fun _ _ => False)); [exact Hab|].
    intros []. apply triple_false.
  - eapply (triple_bind _ _ _ (fun _ => I)); [apply Hb; by left|].
    intros []. apply IH; [done|]. intros y Hy. apply Hb. by right.
Qed.

Lemma no_row_no_match key (p : row → bool) t :
  existsb (in_order key) t = false →
  List.filter (fun r => p r && in_order key r) t = [].
Proof.
  induction t as [|r t IH]; simpl; [done|].
  intros [Hr Ht]%orb_false_iff. rewrite Hr, andb_false_r. by apply IH.
Qed.

Lemma existsb_update_where key (p : row → bool) sets t :
  existsb (in_order key) (update_where p sets t) = existsb (in_order key) t.
Proof.
  induction t as [|r t IH]; simpl; [done|]. rewrite IH. f_equal.
  by destruct (p r).
Qed.

Lemma existsb_filter_false {A} (p q : A → bool) t :
  existsb p t = false → existsb p (List.filter q t) = false.
Proof.
  induction t as [|r t IH]; simpl; [done|].
  intros [Hr Ht]%orb_false_iff. destruct (q r); simpl; [rewrite Hr|]; by apply IH.
Qed.

Section FreshUpdate.
Variable fails : nat → statement → bool.
Variable today : string.
Variable key : string.
Variable t0 : list row.

Lemma transaction_test_fresh_update allItems u :
  In u (itemsToUpdate allItems) →
  filter_allowed allowedFields_test (fields u) ≠ ∅ →
  triple (fun c => existsb (in_order key) (working c) = false ∧ committed c = t0)
         (transaction_test fails today key allItems)
         (fun _ _ => False)
         (fun e c => committed c = t0 ∧ fresh_update_error fails key allItems e).
Proof.
  intros Hu Hallowed.
  set (I := fun c => existsb (in_order key) (working c) = false ∧ committed c = t0).
  set (E := fun e c => committed c = t0 ∧ fresh_update_error fails key allItems e).
  assert (Hst : ∀ s, (∀ d, existsb (in_order key) (db_rows d) = false →
                           existsb (in_order key) (db_rows (run_statement s d).2) = false) →
                     keeps fails I E s).
  { intros s Hs. apply triple_execute. intros c [Hc Ht].
    destruct (fails _ _) eqn:Hf.
    - split; [done|]. right. right. eexists _, _. split; [done|by left].
    - split; [|done]. by apply (Hs (Db (working c) (next_id c))). }
  unfold transaction_test.
  eapply (triple_bind _ _ _ (fun _ => I)); [by apply Hst|].
  intros _. eapply triple_bind.
  { apply triple_execute with (Q := fun r c => (0 <? count r)%nat = false ∧ I c).
    intros c [Hc Ht]. destruct (fails _ _) eqn:Hf.
    - split; [done|]. right. right. eexists _, _. split; [done|by left].
    - simpl. split; [|done]. by rewrite (existsb_false_filter _ _ Hc). }
  intros orderCheck. apply triple_pure. intros ->. cbn [negb andb orb].
  eapply (triple_bind _ _ _ (fun _ => I)).
  { destruct (null (itemsToInsert allItems)) eqn:Hn; [|by apply triple_ret].
    apply triple_throw. intros c [Hc Ht]. split; [done|]. left. split; [done|].
    by destruct (itemsToInsert allItems). }
  intros []. eapply (triple_bind _ _ _ (fun _ => I)).
  { unfold handle_deletions. apply triple_when; [intros _|done]. cbn [when].
    eapply (triple_bind _ _ _ (fun _ => I)); [by apply triple_ret|]. intros [].
    eapply (triple_bind _ _ _ (fun _ _ => False)); [|intros r; apply triple_false].
    apply triple_execute_unbound. intros c [Hc Ht]. split; [done|].
    right. right. eexists _, _. split; [done|by right]. }
  intros []. eapply (triple_bind _ _ _ (fun _ _ => False)); [|intros []; apply triple_false].
  replace (null (itemsToUpdate allItems)) with false
    by (by destruct (itemsToUpdate allItems)).
  cbn [negb when].
  assert (Hbody : ∀ x, In x (itemsToUpdate allItems) →
            triple I (handle_update fails false key x)
              (fun _ c => I c ∧ filter_allowed allowedFields_test (fields x) = ∅) E).
  { intros x Hx. unfold handle_update. cbn [when].
    eapply (triple_bind _ _ _ (fun _ => I)); [by apply triple_ret|]. intros [].
    simpl. case_bool_decide as Hfa; [by apply triple_ret|].
    eapply (triple_bind _ _ _ (fun r c => rowsAffected r = 0%nat ∧ I c)).
    - apply triple_execute. intros c [Hc Ht]. destruct (fails _ _) eqn:Hf.
      + split; [done|]. right. right. eexists _, _. split; [done|by left].
      + simpl. rewrite no_row_no_match by done. split; [done|]. split; [|done].
        cbn [working]. by rewrite existsb_update_where.
    - intros r. apply triple_pure. intros ->. simpl.
      apply triple_throw. intros c [Hc Ht]. split; [done|]. right. left. by exists x. }
  apply (triple_for_each_stop I _ _ u); [done| |].
  - intros x Hx. eapply triple_weaken; [apply (Hbody x Hx)|done| |done].
    by intros _ c [Hc _].
  - eapply triple_weaken; [apply (Hbody u Hu)|done| |done].
    by intros _ c [_ Hc].
Qed.
End FreshUpdate.

(** X12.  In src/test.js, an update item with a property on the allow-list
    cannot go through when no row carries the requested order number:
    its UPDATE runs before the INSERTs and matches no row, so the call
    fails with 'No record found' for an update item (or earlier, for want
    of a new item, at a statement the storage rejects or at the DELETE of
    the items to delete, which the driver rejects), and nothing is
    stored. *)
Theorem fresh_order_refuses_updates fails today key body d u :
  blank key = false →
  existsb (in_order key) (db_rows d) = false →
  In u body → is_update u = true →
  filter_allowed allowedFields_test (fields u) ≠ ∅ →
  ∃ e c', put_order_test fails today key body (connect d) = (inl e, c')
          ∧ committed c' = db_rows d
          ∧ fresh_update_error fails key (sort_items body) e.
Proof.
  intros Hb Hfresh Hu Hup Hallowed. unfold put_order_test. rewrite Hb.
  assert (Hin : In u (itemsToUpdate (sort_items body))).
  { unfold itemsToUpdate. apply filter_In. split; [|done]. by apply sort_by_In. }
  destruct (null (sort_items body)) eqn:Hn.
  { destruct (sort_items body); [done|discriminate]. }
  pose proof (transaction_test_fresh_update fails today key (db_rows d)
                (sort_items body) u Hin Hallowed (connect d) (conj Hfresh eq_refl)) as H.
  unfold try_rollback.
  destruct (transaction_test _ _ _ _ _) as [[e|a] c1]; [|done].
  exists e, (rollback c1). by destruct H.
Qed.

Section ReadBack.
Variable fails : nat → statement → bool.
Variable today : string.
Variable toOracleDate : option value → value.
Variable now : value.

Lemma transaction_test_reads_back key allItems :
  triple (fun _ => True) (transaction_test fails today key allItems)
         (fun r c => data r = sort_by row_id (rows_of key (committed c)))
         (fun _ _ => True).
Proof.
  assert (Hany : ∀ s, keeps fails (fun _ => True) (fun _ _ => True) s).
  { intros s. apply triple_execute. intros c _. by destruct (fails _ _). }
  unfold transaction_test.
  eapply (triple_bind _ _ _ (fun _ _ => True)); [apply Hany|].
  intros _. eapply (triple_bind _ _ _ (fun _ _ => True)); [apply Hany|].
  intros orderCheck. simpl. eapply (triple_bind _ _ _ (fun _ _ => True)).
  { destruct (_ && _); [by apply triple_throw|by apply triple_ret]. }
  intros []. apply (mutations_stable fails (fun _ => True) (fun _ _ => True)); try done.
  eapply (triple_bind _ _ _ (fun _ c => working c = committed c)).
  { apply triple_commit. intros c _. by destruct (fails _ _). }
  intros [].
  eapply (triple_bind _ _ _
            (fun r c => rows r = sort_by row_id (rows_of key (committed c)))).
  { apply triple_execute. intros c Hc. destruct (fails _ _); [done|].
    simpl. by rewrite Hc. }
  intros r. by apply triple_ret.
Qed.

Lemma put_order_reads_back h key body d r c' :
  put_order fails today toOracleDate now h key body (connect d) = (inr r, c') →
  blank key = false ∧ data r = sort_by row_id (rows_of key (committed c')).
Proof.
  destruct h; simpl.
  - unfold put_order_test. destruct (blank key); [done|].
    destruct (null _); [done|].
    pose proof (transaction_test_reads_back key (sort_items body) (connect d) I) as H.
    unfold try_rollback.
    destruct (transaction_test _ _ _ _ _) as [[e|a] c1]; [done|].
    by intros [= <- <-].
  - unfold put_order_routes. destruct (blank key); [done|].
    destruct (null _); [done|].
    unfold mbind, M_bind, bind.
    destruct (executeTransaction _ _ _) as [[e|a] c1]; [done|].
    unfold executeQuery, execute. simpl. destruct (fails _ _); [done|].
    by intros [= <- <-].
Qed.

(** X11.  A successful update of an order, read back by
    [GET /orders-by-number/:order_no]: the rows the read finds are the
    rows the update answered with, in some order; there is none exactly
    when the update answered with none, and the read then answers 404. *)
Theorem updated_order_is_read_back h key body d r c' created_at_is :
  put_order fails today toOracleDate now h key body (connect d) = (inr r, c') →
  match get_orders_by_number false created_at_is key None (committed c') with
  | GetFound rows count => rows ≡ₚ data r ∧ count = length (data r) ∧ rows ≠ []
  | GetNotFound => data r = []
  | _ => False
  end.
Proof.
  intros Hrun. destruct (put_order_reads_back _ _ _ _ _ _ Hrun) as [Hb Hd].
  unfold get_orders_by_number, select_by_number.
  replace (String.eqb key "") with false by (by destruct key).
  assert (Hf : List.filter (fun r0 => in_order key r0 && true) (committed c')
               = rows_of key (committed c')).
  { unfold rows_of. apply filter_ext. intros r0. by rewrite andb_true_r. }
  rewrite Hf, Hd. destruct (rows_of key (committed c')) as [|r0 rs] eqn:Hrows; [done|].
  cbn [null]. split; [by rewrite sort_by_perm|]. by rewrite sort_by_length.
Qed.
End ReadBack.

Lemma find_existsb {A} (p : A → bool) l :
  existsb p l = true → ∃ x, List.find p l = Some x.
Proof.
  induction l as [|y l IH]; simpl; [done|].
  destruct (p y); [by eexists|]. exact IH.
Qed.

Lemma find_not_existsb {A} (p : A → bool) l :
  existsb p l = false → List.find p l = None.
Proof.
  induction l as [|y l IH]; simpl; [done|].
  destruct (p y); [done|]. exact IH.
Qed.

Lemma no_id_key i : has_id i = false → id_key i = 0.
Proof.
  unfold has_id, id_key. destruct (id i) as [n|]; [|done].
  intros H%negb_false_iff. by apply Z.eqb_eq in H.
Qed.

(** X13.  The order-level fields that src/test.js writes to every row of the
    order come from one item of the body: among the items not flagged for
    deletion, one with the lowest id if any has an id, else the first as
    submitted; with no such item they are the defaults. *)
Theorem header_comes_from_lowest_id today body :
  let valid := List.filter (fun i => negb (_deleted i)) body in
  match valid with
  | [] => commonOrderDetails today (sort_items body) = defaultOrderDetails today
  | first :: _ =>
      if existsb has_id valid
      then ∃ p, In p valid ∧ has_id p = true
                ∧ (∀ q, In q valid → has_id q = true → id_key p ≤ id_key q)
                ∧ commonOrderDetails today (sort_items body)
                  = overlay p (defaultOrderDetails today)
      else commonOrderDetails today (sort_items body)
           = overlay first (defaultOrderDetails today)
  end.
Proof.
  intros valid. unfold commonOrderDetails, sort_items.
  rewrite filter_sort_by. fold valid.
  destruct valid as [|first rest] eqn:Hv; [done|]. rewrite <- Hv.
  destruct (existsb has_id valid) eqn:Hex.
  - assert (Hex' : existsb has_id (sort_by id_key valid) = true).
    { apply existsb_exists in Hex as (x & Hx & Hid). apply existsb_exists.
      exists x. split; [by apply sort_by_In|done]. }
    destruct (find_existsb _ _ Hex') as [p Hp]. rewrite Hp.
    destruct (find_ascending id_key has_id _ p (sort_by_ascending id_key valid) Hp)
      as (Hin & Hid & Hmin).
    exists p. split; [by apply sort_by_In in Hin|]. split; [done|]. split.
    + intros q Hq. apply Hmin. by apply sort_by_In.
    + cbn [default]. by destruct (sort_by id_key valid).
  - rewrite (sort_by_constant id_key 0).
    + rewrite Hv. rewrite <- Hv, find_not_existsb by done. done.
    + intros x Hx. apply no_id_key.
      destruct (has_id x) eqn:Hid; [|done].
      assert (existsb has_id valid = true) by (apply existsb_exists; eauto). congruence.
Qed.

Lemma filter_none {A} (p : A → bool) t : (∀ r, In r t → p r = false) → List.filter p t = [].
Proof.
  induction t as [|r t IH]; simpl; [done|]. intros H.
  rewrite (H r) by (by left). apply IH. intros r' Hr'. apply H. by right.
Qed.

Lemma filter_all {A} (p : A → bool) t : (∀ r, In r t → p r = true) → List.filter p t = t.
Proof.
  induction t as [|r t IH]; simpl; [done|]. intros H.
  rewrite (H r) by (by left). f_equal. apply IH. intros r' Hr'. apply H. by right.
Qed.

Lemma update_where_none (p : row → bool) sets t :
  (∀ r, In r t → p r = false) → update_where p sets t = t.
Proof.
  intros H. unfold update_where. apply map_fixed. intros r Hr. by rewrite (H r Hr).
Qed.

Section Strangers.
Variable toOracleDate : option value → value.
Variable now : value.
Variable key : string.
Variable body : list item.
Variable t0 : list row.
Hypothesis apart : strangers key body t0.

Lemma stranger_id i r : In i body → In r t0 → has_row_id (the_id i) r && in_order key r = false.
Proof.
  intros Hi Hr. destruct (in_order key r) eqn:Hk; [|by rewrite andb_false_r].
  rewrite andb_true_r. unfold has_row_id. apply Z.eqb_neq. by apply apart.
Qed.

Lemma stranger_ids l r :
  (∀ i, In i l → In i body) → In r t0 →
  id_in (map the_id l) r && in_order key r = false.
Proof.
  intros Hl Hr. destruct (in_order key r) eqn:Hk; [|by rewrite andb_false_r].
  rewrite andb_true_r. unfold id_in.
  destruct (existsb _ _) eqn:Hex; [|done].
  apply existsb_exists in Hex as (n & Hn & Heq). apply in_map_iff in Hn as (i & <- & Hi).
  apply Z.eqb_eq in Heq. exfalso. by apply (apart i r); auto.
Qed.

Lemma operations_change_nothing s n :
  itemsToInsert (sort_items body) = [] →
  In s (operations toOracleDate now key (sort_items body)) →
  (run_statement s (Db t0 n)).2 = Db t0 n.
Proof.
  intros Hins. unfold operations. rewrite Hins, app_nil_r. intros [Hs|Hs]%in_app_or.
  - destruct (null _); [done|]. destruct Hs as [<-|[]]. simpl. f_equal.
    apply filter_all. intros r Hr. rewrite stranger_ids; [done| |done].
    intros i Hi. apply filter_In in Hi as [Hi _]. by apply sort_by_In in Hi.
  - apply in_flat_map in Hs as (u & Hu & Hs). unfold update_operation in Hs.
    case_bool_decide; [done|]. destruct Hs as [<-|[]]. simpl. f_equal.
    apply update_where_none. intros r Hr. apply stranger_id; [|done].
    apply filter_In in Hu as [Hu _]. by apply sort_by_In in Hu.
Qed.
End Strangers.

(** X14.  src/routes/orders.js reports what did nothing: when the body only
    updates and deletes, and none of its ids is the id of a row of the
    order, the call succeeds if the storage rejects nothing, every row
    is as it was, and the counts still give every item as updated or
    deleted. *)
Theorem routes_count_ids_that_match_nothing toOracleDate now key body d :
  blank key = false → body ≠ [] →
  itemsToInsert (sort_items body) = [] →
  strangers key body (db_rows d) →
  ∃ c', put_order_routes nofail toOracleDate now key body (connect d)
        = (inr (Response (sort_by row_id (rows_of key (db_rows d))) 0
                  (length (itemsToUpdate (sort_items body)))
                  (length (itemsToDelete (sort_items body)))), c')
        ∧ committed c' = db_rows d.
Proof.
  intros Hb Hne Hins Hapart. unfold put_order_routes. rewrite Hb.
  replace (null (sort_items body)) with false
    by (rewrite null_sort_items; by destruct body).
  rewrite Hins. cbn [length].
  set (ops := operations toOracleDate now key (sort_items body)).
  assert (H : triple (fun c => working c = db_rows d ∧ committed c = db_rows d)
                (executeTransaction nofail (map sql_binds ops))
                (fun _ c => working c = db_rows d ∧ committed c = db_rows d)
                (fun _ _ => False)).
  { unfold executeTransaction. apply triple_try_rollback with (E' := fun _ _ => False); [|done].
    eapply (triple_bind _ _ _ (fun _ c => working c = db_rows d ∧ committed c = db_rows d)).
    - apply execute_all_stable. intros s Hs. apply triple_execute.
      intros c [Hw Hc]. cbn [nofail]. rewrite Hw.
      by rewrite (operations_change_nothing toOracleDate now key body (db_rows d)).
    - intros rs. eapply (triple_bind _ _ _
                           (fun _ c => working c = db_rows d ∧ committed c = db_rows d)).
      + apply triple_commit. by intros c [Hw Hc].
      + intros []. by apply triple_ret. }
  specialize (H (connect d) (conj eq_refl eq_refl)).
  unfold mbind, M_bind, bind.
  destruct (executeTransaction nofail _ (connect d)) as [[e|rs] c1]; [done|].
  destruct H as [Hw Hc]. unfold executeQuery, execute. simpl.
  rewrite Hc. eexists. split; [reflexivity|done].
Qed.

(** ** The checks of the admin sign-up, and the update of a customer *)
























(** X16.  [PUT /distributors/:customer_code] and
    [PUT /corporates/:customer_code] store nothing: the UPDATE runs
    through [executeQuery] with [autoCommit] off and nothing commits it
    before the connection is released.  The answer says "updated
    successfully", with the number of rows that carry the code, whenever
    the body has a property on the allow-list, the storage takes the
    statement and a row carries the code. *)
Theorem put_customer_stores_nothing rejected customerCode updates stored :
  (put_customer rejected customerCode updates stored).2 = stored
  ∧ (filter_allowed allowedFields_customer updates ≠ ∅ → rejected = false →
     (put_customer rejected customerCode updates stored).1
     = let n := length (List.filter
                          (fun c => String.eqb (customer_code c) customerCode) stored) in
       if (n =? 0)%nat then CustomerNotFound else CustomerUpdated n).
Proof.
  unfold put_customer, executeQuery_test. split.
  - repeat case_bool_decide; try done. destruct rejected; [done|]. simpl.
    by destruct (_ =? _)%nat.
  - intros Hf ->. case_bool_decide as Hu.
    + subst. exfalso. apply Hf. apply map_filter_empty.
    + case_bool_decide; [done|]. simpl. by destruct (_ =? _)%nat.
Qed.

(** ** The same on the sample data *)

Lemma posted_rows_on_sample :
  post_orders nofail bind_as_given now0 text_of RoutesJs sample_orders (connect sample_db)
  = (inr (PostResponse 2 [Some 4; Some 5]),
     (post_orders nofail bind_as_given now0 text_of RoutesJs sample_orders
        (connect sample_db)).2)
  ∧ map row_order_no
      (committed (post_orders nofail bind_as_given now0 text_of RoutesJs sample_orders
                    (connect sample_db)).2)
    = ["A"; "A"; "B"; "SQ-03-02-25-0001"; "SQ-03-02-25-0001"].
Proof.
  assert (Hrun : post_orders nofail bind_as_given now0 text_of RoutesJs sample_orders
                   (connect sample_db)
                 = (inr (PostResponse 2 [Some 4; Some 5]),
                    (post_orders nofail bind_as_given now0 text_of RoutesJs sample_orders
                       (connect sample_db)).2))
    by (vm_compute; reflexivity).
  split; [exact Hrun|].
  destruct (posted_rows_are_appended nofail bind_as_given now0 text_of RoutesJs
              sample_orders sample_db _ _ Hrun) as (_ & -> & _).
  vm_compute. reflexivity.
Defined.

Lemma posted_order_numbers_on_sample :
  Forall (fun row => In row (db_rows sample_db)
                     ∨ (blank (row_order_no row) = false ∧ trimmed (row_order_no row)))
    (committed (post_orders_routes nofail bind_as_given now0 sample_orders
                  (connect sample_db)).2).
Proof.
  apply Forall_forall. intros row Hrow%list_elem_of_In. revert Hrow.
  apply (posted_order_numbers_are_trimmed nofail bind_as_given now0 sample_orders
           sample_db (PostResponse 2 [Some 4; Some 5])).
  vm_compute. reflexivity.
Defined.

Lemma post_without_number_on_sample :
  truthy (Some now0) = true
  ∧ post_orders_routes nofail bind_as_given now0 unnumbered_orders (connect sample_db)
    = (inl (OrderNumberRequiredAt 1), connect sample_db).
Proof.
  assert (Hnow : truthy (Some now0) = true) by reflexivity.
  split; [exact Hnow|].
  apply (post_routes_names_first_item_without_number nofail bind_as_given now0 Hnow
           unnumbered_orders (connect sample_db) 1 {["item_name" := VStr "Wire"]}).
  - reflexivity.
  - vm_compute. exact I.
  - intros [|j] item' Hj; [|lia]. intros [= <-].
    exists "SQ-03-02-25-0001". split; reflexivity.
Defined.

Lemma delivery_date_on_sample :
  (post_orders_routes nofail bind_as_given now0 sample_orders (connect sample_db)).1
  ≠ inl (DeliveryDateRequired "SQ-03-02-25-0001").
Proof.
  apply (delivery_date_is_never_required nofail bind_as_given now0). reflexivity.
Defined.

Lemma gst_on_sample :
  post_binds_test
    (<["order_no" := VStr " SQ-03-02-25-0001 "]>
       (<["gst" := VStr "18 %"]> {["item_name" := VStr "Rod"]})) !! "gst"
  = Some (VStr "18").
Proof.
  assert (Hgst : (<["order_no" := VStr " SQ-03-02-25-0001 "]>
                    (<["gst" := VStr "18 %"]> {["item_name" := VStr "Rod"]})
                  : gmap string value) !! "gst" = Some (VStr "18 %"))
    by (vm_compute; reflexivity).
  destruct (gst_is_bound_without_percent _ "18 %" VNull VNull Hgst)
    as (_ & Hpercent & _).
  apply (Hpercent "18 " ""); reflexivity.
Defined.

Lemma updated_order_read_back_on_sample :
  match get_orders_by_number false (fun _ _ => true) "A" None
          (committed (call nofail TestJs "A" update_and_insert sample_db).2) with
  | GetFound rows count =>
      rows ≡ₚ data (answer (call nofail TestJs "A" update_and_insert sample_db))
      ∧ count = length (data (answer (call nofail TestJs "A" update_and_insert sample_db)))
      ∧ rows ≠ []
  | GetNotFound => data (answer (call nofail TestJs "A" update_and_insert sample_db)) = []
  | _ => False
  end.
Proof.
  apply (updated_order_is_read_back nofail today0 bind_as_given now0 TestJs "A"
           update_and_insert sample_db).
  vm_compute. reflexivity.
Defined.

Lemma fresh_order_update_on_sample :
  ∃ e c',
    put_order_test nofail today0 "C" update_and_insert (connect sample_db) = (inl e, c')
    ∧ committed c' = db_rows sample_db
    ∧ fresh_update_error nofail "C" (sort_items update_and_insert) e.
Proof.
  apply (fresh_order_refuses_updates nofail today0 "C" update_and_insert sample_db
           (Item (Some 1) false {["quantity" := VNum 7]})); try reflexivity.
  - simpl. by left.
  - intros H. apply (f_equal (lookup "quantity")) in H. vm_compute in H. discriminate H.
Defined.

(** With an item to delete before the update, the call stops at the DELETE. *)
Lemma fresh_order_delete_comes_first :
  (call nofail TestJs "C" delete_update_insert sample_db).1
  = inl (StorageError 2 (DeleteReturning [1] "C"))
  ∧ fresh_update_error nofail "C" (sort_items delete_update_insert)
      (StorageError 2 (DeleteReturning [1] "C")).
Proof.
  split; [vm_compute; reflexivity|].
  right. right. exists 2%nat, (DeleteReturning [1] "C"). split; [reflexivity|].
  right. vm_compute. reflexivity.
Qed.

Lemma header_on_shuffled_body :
  ∃ p, In p (List.filter (fun i => negb (_deleted i)) shuffled_body)
       ∧ has_id p = true
       ∧ (∀ q, In q (List.filter (fun i => negb (_deleted i)) shuffled_body) →
               has_id q = true → id_key p ≤ id_key q)
       ∧ commonOrderDetails today0 (sort_items shuffled_body)
         = overlay p (defaultOrderDetails today0).
Proof. exact (header_comes_from_lowest_id today0 shuffled_body). Defined.

Lemma strangers_on_sample :
  ∃ c', put_order_routes nofail bind_as_given now0 "A" strangers_body (connect sample_db)
        = (inr (Response (sort_by row_id (rows_of "A" (db_rows sample_db))) 0 1 1), c')
        ∧ committed c' = db_rows sample_db.
Proof.
  apply (routes_count_ids_that_match_nothing bind_as_given now0 "A" strangers_body
           sample_db); try reflexivity; [discriminate|].
  intros i r Hi Hr. simpl in Hi, Hr.
  destruct Hi as [<-|[<-|[]]]; destruct Hr as [<-|[<-|[<-|[]]]];
    intros Hk; vm_compute in Hk; first [discriminate Hk | (cbn; lia)].
Defined.

Lemma put_customer_on_sample :
  put_customer false "D1" {["customer_name" := VStr "Apex"]} sample_customers
  = (CustomerUpdated 1, sample_customers).
Proof.
  destruct (put_customer_stores_nothing false "D1" {["customer_name" := VStr "Apex"]}
              sample_customers) as [Hstored Hanswer].
  rewrite (surjective_pairing (put_customer _ _ _ _)), Hstored, Hanswer; [done| |done].
  intros H. apply (f_equal (lookup "customer_name")) in H. vm_compute in H. discriminate H.
Defined.


(** A no-break space inside the first part: the pattern refuses the
    address. *)
Lemma space_in_email :
  signup_checks (Some (VStr "asha"))
    (Some (VStr ("as" +:+ bytes [194; 160]%nat +:+ "ha@castolin.example")))
  = Some InvalidEmailFormat.
Proof. vm_compute. reflexivity. Qed.

(** ** The counts of a call, and a delete set that repeats an id *)

Lemma partition_lengths l :
  (length (itemsToInsert l) + length (itemsToUpdate l) + length (itemsToDelete l)
   + length (List.filter is_dropped l) = length l)%nat.
Proof.
  unfold itemsToInsert, itemsToUpdate, itemsToDelete.
  induction l as [|i l IH]; simpl; [done|].
  destruct (is_insert i) eqn:H1, (is_update i) eqn:H2, (is_delete i) eqn:H3,
    (is_dropped i) eqn:H4; simpl; try lia; exfalso;
    unfold is_insert, is_update, is_delete, is_dropped in *;
    destruct (has_id i), (_deleted i); discriminate.
Qed.

Lemma filter_sort_items_length (p : item → bool) body :
  length (List.filter p (sort_items body)) = length (List.filter p body).
Proof. unfold sort_items. by rewrite filter_sort_by, sort_by_length. Qed.

(** X18.  The three counts of a successful call add up to the number of
    items of the body, less the items that are flagged for deletion
    without an id: every other item is counted once, as inserted, updated
    or deleted. *)
Theorem counts_add_up fails today toOracleDate now h key body d r c' :
  put_order fails today toOracleDate now h key body (connect d) = (inr r, c') →
  (inserted r + updated r + deleted r + length (List.filter is_dropped body)
   = length body)%nat.
Proof.
  intros Hrun.
  pose proof (put_order_counts today toOracleDate now fails h key body (connect d) I) as H.
  rewrite Hrun in H. destruct H as (-> & -> & ->).
  rewrite <- (filter_sort_items_length is_dropped body), <- (sort_by_length id_key body).
  apply partition_lengths.
Qed.

Lemma verified_rows_NoDup ids key t :
  NoDup (map row_id t) → NoDup (map row_id (verified_rows ids key t)).
Proof.
  unfold verified_rows. induction t as [|r t IH]; simpl; [constructor|].
  intros [Hr Hnd]%NoDup_cons. destruct (_ && _); simpl; [|by apply IH].
  constructor; [|by apply IH]. intros Hin%list_elem_of_In. apply Hr.
  apply list_elem_of_In. apply in_map_iff in Hin as (r' & Hid & Hr').
  apply filter_In in Hr' as [Hr' _]. apply in_map_iff. by exists r'.
Qed.

Lemma verified_rows_ids ids key t i :
  In i (map row_id (verified_rows ids key t)) → In i ids.
Proof.
  intros (r & <- & Hr)%in_map_iff. apply filter_In in Hr as [_ Hp].
  apply andb_true_iff in Hp as [Hp _]. unfold id_in in Hp.
  apply existsb_exists in Hp as (i & Hi & Heq). apply Z.eqb_eq in Heq. by rewrite Heq.
Qed.

Lemma repeated_id_fails_verification ids key t :
  NoDup (map row_id t) → ¬ NoDup ids →
  length (verified_rows ids key t) ≠ length ids.
Proof.
  intros Hnd Hdup Hlen. apply Hdup. apply NoDup_ListNoDup.
  apply (List.NoDup_incl_NoDup (l := map row_id (verified_rows ids key t))).
  - apply NoDup_ListNoDup. by apply verified_rows_NoDup.
  - rewrite length_map. lia.
  - intros i. apply verified_rows_ids.
Qed.

Lemma missing_ids_none ids key t :
  (∀ i, In i ids → ∃ r, In r t ∧ row_id r = i ∧ in_order key r = true) →
  missing_ids ids key t = [].
Proof.
  intros Hall. unfold missing_ids. apply filter_none. intros i Hi.
  apply negb_false_iff. apply existsb_exists. exists i. split; [|by apply Z.eqb_eq].
  destruct (Hall i Hi) as (r & Hr & <- & Hk). apply in_map_iff. exists r. split; [done|].
  apply filter_In. split; [done|]. rewrite Hk, andb_true_r.
  unfold id_in. apply existsb_exists. exists (row_id r). split; [done|by apply Z.eqb_eq].
Qed.

(** X19.  In src/test.js, a delete set that names an id twice never
    passes the verification, although every id of it belongs to the
    order: the lookup returns one row for the two, the counts differ, and
    the call fails with 'Cannot delete items' naming no id at all (when
    nothing is rejected by the storage); nothing is deleted. *)
Theorem repeated_delete_id_names_no_item today key body d :
  let ids := map the_id (itemsToDelete (sort_items body)) in
  blank key = false →
  NoDup (map row_id (db_rows d)) →
  (∀ i, In i ids → ∃ r, In r (db_rows d) ∧ row_id r = i ∧ in_order key r = true) →
  ¬ NoDup ids →
  ∃ c', put_order_test nofail today key body (connect d) = (inl (CannotDelete [] key), c')
        ∧ committed c' = db_rows d.
Proof.
  intros ids Hb Hnd Hall Hdup. unfold put_order_test. rewrite Hb.
  assert (Hdel : null (itemsToDelete (sort_items body)) = false).
  { destruct (itemsToDelete (sort_items body)) eqn:Hd; [|done].
    exfalso. apply Hdup. subst ids. rewrite ?Hd. constructor. }
  assert (Hn : null (sort_items body) = false).
  { destruct (sort_items body); [done|done]. }
  rewrite Hn.
  assert (Hex : existsb (in_order key) (db_rows d) = true).
  { destruct ids as [|i ids'] eqn:Hi; [exfalso; apply Hdup; constructor|].
    destruct (Hall i) as (r & Hr & _ & Hk); [by left|].
    apply existsb_exists. by exists r. }
  pose proof (transaction_test_delete_guard nofail today key (db_rows d) (sort_items body)
                Hex Hdel (repeated_id_fails_verification ids key (db_rows d) Hnd Hdup)
                (connect d)) as H.
  specialize (H (conj eq_refl (conj eq_refl eq_refl))).
  unfold try_rollback.
  destruct (transaction_test _ _ _ _ _) as [[e|a] c1]; [|done].
  destruct H as (Hc & [[-> _]|(n & s & Hf & _)]); [|done].
  exists (rollback c1). fold ids. by rewrite (missing_ids_none ids key (db_rows d) Hall).
Qed.

Lemma counts_add_up_on_sample :
  (inserted (answer (call nofail TestJs "A" update_and_unsaved sample_db))
   + updated (answer (call nofail TestJs "A" update_and_unsaved sample_db))
   + deleted (answer (call nofail TestJs "A" update_and_unsaved sample_db))
   + 1 = 2)%nat.
Proof.
  apply (counts_add_up nofail today0 bind_as_given now0 TestJs "A" update_and_unsaved
           sample_db _ (call nofail TestJs "A" update_and_unsaved sample_db).2).
  vm_compute. reflexivity.
Defined.

Lemma repeated_delete_id_on_sample :
  ∃ c', put_order_test nofail today0 "A" delete_twice (connect sample_db)
        = (inl (CannotDelete [] "A"), c')
        ∧ committed c' = db_rows sample_db.
Proof.
  apply (repeated_delete_id_names_no_item today0 "A" delete_twice sample_db).
  - reflexivity.
  - apply (bool_decide_unpack (NoDup (map row_id (db_rows sample_db)))).
    vm_compute. exact I.
  - intros i Hi. vm_compute in Hi. destruct Hi as [<-|[<-|[<-|[]]]].
    + exists (Row 1 "A" (<["customer_name" := VStr "Acme"]> {["quantity" := VNum 5]})).
      split; [by left|done].
    + exists (Row 1 "A" (<["customer_name" := VStr "Acme"]> {["quantity" := VNum 5]})).
      split; [by left|done].
    + exists (Row 2 "A" (<["customer_name" := VStr "Acme"]> {["quantity" := VNum 3]})).
      split; [right; by left|done].
  - intros Hnd. vm_compute in Hnd.
    apply NoDup_cons in Hnd as [Hin _]. apply Hin. by left.
Defined.

(** ** How many rows an order has after a call *)


Lemma rows_of_update_length key p sets t :
  length (rows_of key (update_where p sets t)) = length (rows_of key t).
Proof.
  unfold rows_of, update_where. induction t as [|r t IH]; simpl; [done|].
  assert (Hk : in_order key (if p r then set_cols sets r else r) = in_order key r)
    by (by destruct (p r)).
  rewrite Hk. destruct (in_order key r); simpl; by rewrite IH.
Qed.

Lemma rows_of_insert_length key n vals t :
  length (rows_of key (t ++ [Row n key vals])) = S (length (rows_of key t)).
Proof.
  unfold rows_of. rewrite List.filter_app, length_app. simpl.
  unfold in_order at 2. simpl. rewrite String.eqb_refl. simpl. lia.
Qed.


Lemma verified_rows_no_order ids key t :
  existsb (in_order key) t = false → verified_rows ids key t = [].
Proof.
  intros Hex. unfold verified_rows. apply filter_none. intros r Hr.
  apply andb_false_iff. right.
  destruct (in_order key r) eqn:Hk; [|done].
  assert (existsb (in_order key) t = true) by (apply existsb_exists; by exists r).
  congruence.
Qed.

Lemma id_in_perm ids ids' r : ids ≡ₚ ids' → id_in ids r = id_in ids' r.
Proof.
  intros Hp. unfold id_in.
  destruct (existsb _ ids) eqn:H1, (existsb _ ids') eqn:H2; try done.
  - apply existsb_exists in H1 as (i & Hi & Heq).
    assert (existsb (Z.eqb (row_id r)) ids' = true); [|congruence].
    apply existsb_exists. exists i. split; [|done].
    apply list_elem_of_In. rewrite <- Hp. by apply list_elem_of_In.
  - apply existsb_exists in H2 as (i & Hi & Heq).
    assert (existsb (Z.eqb (row_id r)) ids = true); [|congruence].
    apply existsb_exists. exists i. split; [|done].
    apply list_elem_of_In. rewrite Hp. by apply list_elem_of_In.
Qed.


Lemma delete_ids_sorted body :
  map the_id (itemsToDelete (sort_items body)) ≡ₚ map the_id (itemsToDelete body).
Proof.
  unfold itemsToDelete, sort_items. rewrite filter_sort_by.
  apply fmap_Permutation, sort_by_perm.
Qed.

Lemma execute_all_app fails a b c :
  execute_all fails (a ++ b) c
  = match execute_all fails a c with
    | (inr rs, c1) =>
        match execute_all fails b c1 with
        | (inr rs', c2) => (inr (rs ++ rs'), c2)
        | (inl e, c2) => (inl e, c2)
        end
    | (inl e, c1) => (inl e, c1)
    end.
Proof.
  revert c. induction a as [|s a IH]; intros c; simpl.
  - unfold mret, M_ret, ret. by destruct (execute_all fails b c) as [[e|rs] c2].
  - unfold mbind, M_bind, bind. destruct (execute_operation fails s c) as [[e|r] c1]; [done|].
    rewrite IH. destruct (execute_all fails a c1) as [[e|rs] c2]; [done|].
    cbn. by destruct (execute_all fails b c2) as [[e|rs'] c3].
Qed.

Lemma triple_execute_all_app fails (P R Q : conn → Prop) E a b :
  triple P (execute_all fails a) (fun _ => R) E →
  triple R (execute_all fails b) (fun _ => Q) E →
  triple P (execute_all fails (a ++ b)) (fun _ => Q) E.
Proof.
  intros Ha Hb c Hc. rewrite execute_all_app. specialize (Ha c Hc).
  destruct (execute_all fails a c) as [[e|rs] c1]; [done|].
  specialize (Hb c1 Ha). by destruct (execute_all fails b c1) as [[e|rs'] c2].
Qed.


Section Accounts.
Variable fails : nat → statement → bool.
Variable today : string.
Variable toOracleDate : option value → value.
Variable now : value.

(** The rows of the order as the transaction sees them are [m]. *)
Lemma update_keeps_count key m s :
  (∃ sets i, s = UpdateRow sets i key) ∨ (∃ common, s = UpdateCommon common key)
  ∨ (∃ i, s = SelectOrderNo i) →
  keeps fails (fun c => length (rows_of key (working c)) = m) (fun _ _ => True) s.
Proof.
  intros Hs. apply triple_execute. intros c Hc. destruct (fails _ _); [done|].
  destruct Hs as [(sets & i & ->)|[(common & ->)|(i & ->)]]; simpl;
    by rewrite ?rows_of_update_length.
Qed.

Lemma insert_adds_one key vals j m :
  triple (fun c => length (rows_of key (working c)) = (m + j)%nat)
         (execute fails (InsertRow key vals))
         (fun _ c => length (rows_of key (working c)) = (m + S j)%nat) (fun _ _ => True).
Proof.
  apply triple_execute. intros c Hc. destruct (fails _ _); [done|].
  simpl. rewrite rows_of_insert_length, Hc. lia.
Qed.




End Accounts.


(** ** Columns that are never written *)

Lemma filter_allowed_off allowed f k :
  k ∉ allowed → filter_allowed allowed f !! k = None.
Proof.
  intros Hk. unfold filter_allowed. apply map_lookup_filter_None. right.
  intros v _ Hin. by apply Hk.
Qed.

Lemma update_values_off toOracleDate f k :
  f !! k = None → update_values toOracleDate f !! k = None.
Proof. intros Hk. unfold update_values. by rewrite !lookup_alter_None. Qed.

Lemma overlay_off p details k :
  k ∉ commonFields → details !! k = None → overlay p details !! k = None.
Proof.
  unfold overlay. generalize commonFields. intros l. revert details.
  induction l as [|f l IH]; intros details Hk Hd; simpl; [done|].
  apply not_elem_of_cons in Hk as [Hne Hk]. apply IH; [done|].
  destruct (fields p !! f); [|done]. by rewrite lookup_insert_ne.
Qed.

Lemma commonOrderDetails_off today allItems k :
  k ∉ commonFields → commonOrderDetails today allItems !! k = None.
Proof.
  intros Hk.
  assert (Hd : defaultOrderDetails today !! k = None).
  { unfold defaultOrderDetails. apply not_elem_of_list_to_map_1. exact Hk. }
  unfold commonOrderDetails. destruct (List.filter _ _); [done|].
  by apply overlay_off.
Qed.

Section ColumnKept.
Variable fails : nat → statement → bool.
Variable k key : string.
Variable t0 : list row.
Variable next0 : Z.

Lemma read_keeps_column s :
  (∀ d, (run_statement s d).2 = d) →
  keeps fails (column_kept k key t0 next0) (fun _ _ => True) s.
Proof.
  intros Hs. apply triple_execute. intros c Hc. destruct (fails _ _); [done|].
  rewrite Hs. exact Hc.
Qed.

Lemma delete_keeps_column ids :
  keeps fails (column_kept k key t0 next0) (fun _ _ => True) (DeleteIn ids key).
Proof.
  apply triple_execute. intros c [Hn Hc]. destruct (fails _ _); [done|].
  split; [done|]. simpl. intros row [Hrow _]%filter_In. by apply Hc.
Qed.

Lemma update_where_keeps_column p sets c :
  sets !! k = None →
  column_kept k key t0 next0 c →
  column_kept k key t0 next0
    (Conn (committed c) (update_where p sets (working c)) (next_id c) (log c)).
Proof.
  intros Hs [Hn Hc]. split; [done|]. simpl.
  intros row (r & <- & Hr)%in_map_iff Hk Hid.
  destruct (p r).
  - destruct (Hc r Hr Hk Hid) as (row0 & H0 & Hi & Hv). exists row0.
    split; [done|]. split; [done|]. simpl.
    by rewrite lookup_union_r.
  - by apply Hc.
Qed.

Lemma update_keeps_column sets i :
  sets !! k = None →
  keeps fails (column_kept k key t0 next0) (fun _ _ => True) (UpdateRow sets i key).
Proof.
  intros Hs. apply triple_execute. intros c Hc. destruct (fails _ _); [done|].
  destruct (update_where_keeps_column
              (fun r => has_row_id i r && in_order key r) sets c Hs Hc) as [Hn H].
  split; [done|]. exact H.
Qed.

Lemma common_keeps_column common :
  common !! k = None →
  keeps fails (column_kept k key t0 next0) (fun _ _ => True) (UpdateCommon common key).
Proof.
  intros Hs. apply triple_execute. intros c Hc. destruct (fails _ _); [done|].
  destruct (update_where_keeps_column (in_order key) common c Hs Hc) as [Hn H].
  split; [done|]. exact H.
Qed.

Lemma insert_keeps_column vals :
  keeps fails (column_kept k key t0 next0) (fun _ _ => True) (InsertRow key vals).
Proof.
  apply triple_execute. intros c [Hn Hc]. destruct (fails _ _); [done|].
  split; simpl; [lia|].
  intros row [Hrow|[<-|[]]]%in_app_iff Hk Hid; [by apply Hc|]. simpl in Hid. lia.
Qed.

Lemma raises_anything (I : conn → Prop) e : raises I (fun _ _ => True) e.
Proof. by intros c _. Qed.

Lemma handle_update_keeps_column orderExists u :
  k ∉ allowedFields_test →
  triple (column_kept k key t0 next0) (handle_update fails orderExists key u)
         (fun _ => column_kept k key t0 next0) (fun _ _ => True).
Proof.
  intros Hk. unfold handle_update.
  eapply (triple_bind _ _ _ (fun _ => column_kept k key t0 next0)).
  - apply triple_when; [intros Ho|auto].
    eapply (triple_bind _ _ _ (fun _ => column_kept k key t0 next0));
      [by apply read_keeps_column|].
    intros r. simpl. destruct (rows r) as [|r0 ?]; [by apply triple_throw|].
    destruct (String.eqb _ _); [by apply triple_ret|by apply triple_throw].
  - intros []. simpl. case_bool_decide; [by apply triple_ret|].
    eapply (triple_bind _ _ _ (fun _ => column_kept k key t0 next0)).
    + apply update_keeps_column. by apply filter_allowed_off.
    + intros r. simpl. destruct (_ =? _)%nat; [by apply triple_throw|by apply triple_ret].
Qed.

Lemma rows_read_back c :
  column_kept k key t0 next0 c →
  ∀ row, In row (sort_by row_id (List.filter (in_order key) (working c))) →
    row_id row < next0 →
    ∃ row0, In row0 (rows_of key t0) ∧ row_id row0 = row_id row
            ∧ cols row !! k = cols row0 !! k.
Proof.
  intros [_ Hc] row Hrow Hid. apply sort_by_In in Hrow.
  apply filter_In in Hrow as [Hrow Hk]. by apply Hc.
Qed.

Lemma transaction_test_keeps_column today allItems :
  k ∉ allowedFields_test ++ commonFields →
  triple (column_kept k key t0 next0) (transaction_test fails today key allItems)
         (fun r _ => ∀ row, In row (data r) → row_id row < next0 →
                      ∃ row0, In row0 (rows_of key t0) ∧ row_id row0 = row_id row
                              ∧ cols row !! k = cols row0 !! k)
         (fun _ _ => True).
Proof.
  intros Hk. apply not_elem_of_app in Hk as [Ha Hc].
  set (I := column_kept k key t0 next0).
  unfold transaction_test.
  eapply (triple_bind _ _ _ (fun _ => I)); [by apply read_keeps_column|].
  intros _. eapply (triple_bind _ _ _ (fun _ => I)); [by apply read_keeps_column|].
  intros orderCheck. simpl. eapply (triple_bind _ _ _ (fun _ => I)).
  { destruct (_ && _); [by apply triple_throw|by apply triple_ret]. }
  intros []. eapply (triple_bind _ _ _ (fun _ => I)).
  { apply handle_deletions_stable.
    - intros _ ids. by apply read_keeps_column.
    - intros _ missing. apply raises_anything.
    - intros ids. by apply triple_execute_unbound. }
  intros []. eapply (triple_bind _ _ _ (fun _ => I)).
  { apply triple_when; [intros _|auto].
    apply triple_for_each. intros u _. by apply handle_update_keeps_column. }
  intros []. eapply (triple_bind _ _ _ (fun _ => I)).
  { apply triple_when; [intros _|auto].
    apply triple_for_each. intros x _. apply handle_insert_stable.
    intros vals. apply insert_keeps_column. }
  intros []. eapply (triple_bind _ _ _ (fun _ => I)).
  { apply triple_when; [intros _|auto].
    eapply (triple_bind _ _ _ (fun _ => I)).
    - apply common_keeps_column. by apply commonOrderDetails_off.
    - intros r. by apply triple_ret. }
  intros []. eapply (triple_bind _ _ _ (fun _ => I)).
  { apply triple_commit. intros c Hc0. by destruct (fails _ _). }
  intros [].
  eapply (triple_bind _ _ _
            (fun r _ => ∀ row, In row (rows r) → row_id row < next0 →
                          ∃ row0, In row0 (rows_of key t0) ∧ row_id row0 = row_id row
                                  ∧ cols row !! k = cols row0 !! k)).
  { apply triple_execute. intros c Hc0. destruct (fails _ _); [done|].
    simpl. by apply rows_read_back. }
  intros r. by apply triple_ret.
Qed.

Lemma put_order_routes_keeps_column toOracleDate now body :
  k ∉ allowedFields →
  triple (column_kept k key t0 next0) (put_order_routes fails toOracleDate now key body)
         (fun r _ => ∀ row, In row (data r) → row_id row < next0 →
                      ∃ row0, In row0 (rows_of key t0) ∧ row_id row0 = row_id row
                              ∧ cols row !! k = cols row0 !! k)
         (fun _ _ => True).
Proof.
  intros Hk. set (I := column_kept k key t0 next0).
  unfold put_order_routes.
  destruct (blank key); [by apply triple_throw|].
  destruct (null _); [by apply triple_throw|].
  eapply (triple_bind _ _ _
            (fun _ c => I (Conn (committed c) (committed c) (next_id c) (log c)))).
  { unfold executeTransaction.
    apply triple_try_rollback with (E' := fun _ _ => True); [|done].
    eapply (triple_bind _ _ _ (fun _ => I)).
    - apply execute_all_stable. intros s Hs. unfold operations in Hs.
      rewrite !in_app_iff in Hs. destruct Hs as [Hs|[Hs|Hs]].
      + destruct (null _); [done|]. destruct Hs as [<-|[]]. apply delete_keeps_column.
      + apply in_flat_map in Hs as (u & _ & Hs). unfold update_operation in Hs.
        case_bool_decide; [done|]. destruct Hs as [<-|[]].
        apply update_keeps_column. apply update_values_off. by apply filter_allowed_off.
      + apply in_map_iff in Hs as (i & <- & _). apply insert_keeps_column.
    - intros results.
      eapply (triple_bind _ _ _
                (fun _ c => I (Conn (committed c) (committed c) (next_id c) (log c)))).
      + apply triple_commit. intros c Hc. by destruct (fails _ _).
      + intros []. by apply triple_ret. }
  intros _.
  eapply (triple_bind _ _ _
            (fun r _ => ∀ row, In row (rows r) → row_id row < next0 →
                          ∃ row0, In row0 (rows_of key t0) ∧ row_id row0 = row_id row
                                  ∧ cols row !! k = cols row0 !! k)).
  { apply triple_executeQuery. apply triple_execute.
    intros c (c0 & Hc0 & ->). simpl. destruct (fails _ _); [done|].
    simpl. by apply (rows_read_back _ Hc0). }
  intros r. by apply triple_ret.
Qed.
End ColumnKept.

Lemma column_kept_at_start k key d :
  column_kept k key (db_rows d) (db_next_id d) (connect d).
Proof.
  split; [simpl; lia|]. simpl. intros row Hrow Hk _. exists row.
  split; [|done]. apply filter_In. by split.
Qed.

(** X21.  A successful call of [PUT /orders-by-number/:order_no] leaves every
    column that is not writable as it was, in every row of the order that
    was there before: a row of the answer whose id the sequence had
    already passed is a row of the order of before the call, with the
    same value in that column.  For src/routes/orders.js the writable
    columns are the allow-list of the updates, so that the customer, the
    executive and the voucher type of a stored row cannot be changed; for
    src/test.js they are its allow-list and the order-level fields. *)
Theorem columns_off_the_list_are_kept fails today toOracleDate now h key body d r c' k :
  put_order fails today toOracleDate now h key body (connect d) = (inr r, c') →
  k ∉ writable h →
  ∀ row, In row (data r) → row_id row < db_next_id d →
    ∃ row0, In row0 (rows_of key (db_rows d)) ∧ row_id row0 = row_id row
            ∧ cols row !! k = cols row0 !! k.
Proof.
  intros Hrun Hk. destruct h; simpl in Hrun, Hk.
  - unfold put_order_test in Hrun.
    destruct (blank key); [done|]. destruct (null _); [done|].
    pose proof (transaction_test_keeps_column fails k key (db_rows d) (db_next_id d)
                  today (sort_items body) Hk (connect d) (column_kept_at_start k key d)) as H.
    unfold try_rollback in Hrun.
    destruct (transaction_test _ _ _ _ _) as [[e|a] c1]; [done|].
    by injection Hrun as -> ->.
  - pose proof (put_order_routes_keeps_column fails k key (db_rows d) (db_next_id d)
                  toOracleDate now body Hk (connect d) (column_kept_at_start k key d)) as H.
    by rewrite Hrun in H.
Qed.

Lemma columns_kept_on_sample :
  ("customer_name" ∉ writable RoutesJs)
  ∧ Forall (fun row => row_id row < 4 →
              ∃ row0, In row0 (rows_of "A" (db_rows sample_db))
                      ∧ row_id row0 = row_id row
                      ∧ cols row !! "customer_name" = cols row0 !! "customer_name")
      (data (answer (call nofail RoutesJs "A" rename_customer sample_db))).
Proof.
  assert (Hk : "customer_name" ∉ writable RoutesJs).
  { apply (bool_decide_unpack ("customer_name" ∉ writable RoutesJs)). vm_compute. exact I. }
  split; [exact Hk|].
  apply Forall_forall. intros row Hrow%list_elem_of_In. revert Hrow.
  apply (columns_off_the_list_are_kept nofail today0 bind_as_given now0 RoutesJs "A"
           rename_customer sample_db
           (answer (call nofail RoutesJs "A" rename_customer sample_db))
           (call nofail RoutesJs "A" rename_customer sample_db).2 "customer_name");
    [|exact Hk].
  vm_compute. reflexivity.
Defined.

(** ** Rows that were deleted *)

Section DeletedStayOut.
Variable fails : nat → statement → bool.
Variable ids : list Z.
Variable key : string.
Variable next0 : Z.

Lemma scoped_keeps_out s :
  scoped key s → keeps fails (deleted_stay_out ids key next0) (fun _ _ => True) s.
Proof.
  intros Hs. apply triple_execute. intros c [Hn Hc]. destruct (fails _ _); [done|].
  destruct s; simpl in Hs |- *; subst; try (by split).
  - split; [done|]. simpl. intros row [Hrow _]%filter_In. by apply Hc.
  - split; [done|]. simpl. intros row [Hrow _]%filter_In. by apply Hc.
  - split; [done|]. simpl. intros row (r & <- & Hr)%in_map_iff.
    destruct (_ && _); exact (Hc r Hr).
  - split; simpl; [lia|].
    intros row [Hrow|[<-|[]]]%in_app_iff Hk Hid; [by apply Hc|]. simpl in Hid. lia.
  - split; [done|]. simpl. intros row (r & <- & Hr)%in_map_iff.
    destruct (in_order key r); exact (Hc r Hr).
Qed.

Lemma read_keeps_sequence s :
  (∀ d, (run_statement s d).2 = d) →
  keeps fails (fun c => next0 ≤ next_id c) (fun _ _ => True) s.
Proof.
  intros Hs. apply triple_execute. intros c Hc. destruct (fails _ _); [done|].
  by rewrite Hs.
Qed.

Lemma delete_puts_out :
  triple (fun c => next0 ≤ next_id c) (execute fails (DeleteIn ids key))
         (fun _ => deleted_stay_out ids key next0) (fun _ _ => True).
Proof.
  apply triple_execute. intros c Hc. destruct (fails _ _); [done|].
  split; [done|]. simpl. intros row [_ Hrow]%filter_In Hk _.
  rewrite Hk, andb_true_r in Hrow. by apply negb_true_iff.
Qed.
End DeletedStayOut.

Lemma nothing_to_keep_out key next0 c :
  next0 ≤ next_id c → deleted_stay_out [] key next0 c.
Proof. intros Hn. by split. Qed.

Section DeletedRows.
Variable fails : nat → statement → bool.
Variable today : string.
Variable toOracleDate : option value → value.
Variable now : value.
Variable key : string.
Variable next0 : Z.

Lemma rows_read_out ids c :
  deleted_stay_out ids key next0 c →
  ∀ row, In row (sort_by row_id (List.filter (in_order key) (working c))) →
    row_id row < next0 → id_in ids row = false.
Proof.
  intros [_ Hc] row Hrow Hid. apply sort_by_In in Hrow.
  apply filter_In in Hrow as [Hrow Hk]. by apply Hc.
Qed.

Lemma transaction_test_puts_out allItems :
  triple (fun c => next0 ≤ next_id c) (transaction_test fails today key allItems)
         (fun r _ => ∀ row, In row (data r) → row_id row < next0 →
                      id_in (map the_id (itemsToDelete allItems)) row = false)
         (fun _ _ => True).
Proof.
  set (ids := map the_id (itemsToDelete allItems)).
  set (I := deleted_stay_out ids key next0).
  assert (Hk : ∀ s, scoped key s → keeps fails I (fun _ _ => True) s)
    by apply scoped_keeps_out.
  unfold transaction_test.
  eapply (triple_bind _ _ _ (fun _ c => next0 ≤ next_id c));
    [by apply read_keeps_sequence|].
  intros _. eapply (triple_bind _ _ _ (fun _ c => next0 ≤ next_id c));
    [by apply read_keeps_sequence|].
  intros orderCheck. simpl. eapply (triple_bind _ _ _ (fun _ c => next0 ≤ next_id c)).
  { destruct (_ && _); [by apply triple_throw|by apply triple_ret]. }
  intros []. eapply (triple_bind _ _ _ (fun _ => I)).
  { unfold handle_deletions. apply triple_when.
    - intros _. eapply (triple_bind _ _ _ (fun _ c => next0 ≤ next_id c)).
      + apply triple_when; [intros _|auto].
        eapply (triple_bind _ _ _ (fun _ c => next0 ≤ next_id c));
          [by apply read_keeps_sequence|].
        intros r. simpl.
        destruct (negb (_ =? _)%nat); [by apply triple_throw|by apply triple_ret].
      + intros []. eapply (triple_bind _ _ _ (fun _ _ => False));
          [by apply triple_execute_unbound|].
        intros r. apply triple_false.
    - intros Hnn c Hc. apply negb_false_iff in Hnn.
      assert (Hd : itemsToDelete allItems = []) by (by destruct (itemsToDelete allItems)).
      subst I ids. rewrite Hd. by apply nothing_to_keep_out. }
  intros []. eapply (triple_bind _ _ _ (fun _ => I)).
  { apply triple_when; [intros _|auto].
    apply triple_for_each. intros u _.
    apply handle_update_stable; try done; intros; by apply Hk. }
  intros []. eapply (triple_bind _ _ _ (fun _ => I)).
  { apply triple_when; [intros _|auto].
    apply triple_for_each. intros x _. apply handle_insert_stable.
    intros vals. by apply Hk. }
  intros []. eapply (triple_bind _ _ _ (fun _ => I)).
  { apply triple_when; [intros _|auto].
    eapply (triple_bind _ _ _ (fun _ => I)); [by apply Hk|].
    intros r. by apply triple_ret. }
  intros []. eapply (triple_bind _ _ _ (fun _ => I)).
  { apply triple_commit. intros c Hc0. by destruct (fails _ _). }
  intros [].
  eapply (triple_bind _ _ _
            (fun r _ => ∀ row, In row (rows r) → row_id row < next0 →
                          id_in ids row = false)).
  { apply triple_execute. intros c Hc0. destruct (fails _ _); [done|].
    simpl. by apply rows_read_out. }
  intros r. by apply triple_ret.
Qed.

Lemma put_order_routes_puts_out body :
  triple (fun c => next0 ≤ next_id c) (put_order_routes fails toOracleDate now key body)
         (fun r _ => ∀ row, In row (data r) → row_id row < next0 →
                      id_in (map the_id (itemsToDelete (sort_items body))) row = false)
         (fun _ _ => True).
Proof.
  set (ids := map the_id (itemsToDelete (sort_items body))).
  set (I := deleted_stay_out ids key next0).
  unfold put_order_routes.
  destruct (blank key); [by apply triple_throw|].
  destruct (null _); [by apply triple_throw|].
  eapply (triple_bind _ _ _
            (fun _ c => I (Conn (committed c) (committed c) (next_id c) (log c)))).
  { unfold executeTransaction.
    apply triple_try_rollback with (E' := fun _ _ => True); [|done].
    eapply (triple_bind _ _ _ (fun _ => I)).
    - unfold operations. rewrite map_app. apply (triple_execute_all_app fails _ I).
      + destruct (null (itemsToDelete (sort_items body))) eqn:Hn; simpl; without_options.
        * apply triple_ret. intros c Hc.
          assert (Hd : itemsToDelete (sort_items body) = [])
            by (by destruct (itemsToDelete (sort_items body))).
          subst I ids. rewrite Hd. by apply nothing_to_keep_out.
        * eapply (triple_bind _ _ _ (fun _ => I)); [apply delete_puts_out|].
          intros r. by apply triple_ret.
      + apply execute_all_stable. intros s Hs. apply scoped_keeps_out.
        apply (operations_scoped toOracleDate now key (sort_items body)).
        unfold operations. apply in_app_iff. by right.
    - intros results.
      eapply (triple_bind _ _ _
                (fun _ c => I (Conn (committed c) (committed c) (next_id c) (log c)))).
      + apply triple_commit. intros c Hc. by destruct (fails _ _).
      + intros []. by apply triple_ret. }
  intros _.
  eapply (triple_bind _ _ _
            (fun r _ => ∀ row, In row (rows r) → row_id row < next0 →
                          id_in ids row = false)).
  { apply triple_executeQuery. apply triple_execute.
    intros c (c0 & Hc0 & ->). simpl. destruct (fails _ _); [done|].
    simpl. by apply (rows_read_out _ _ Hc0). }
  intros r. by apply triple_ret.
Qed.
End DeletedRows.

(** X22.  After a successful call of [PUT /orders-by-number/:order_no], no row
    of the answer has an id of the delete set, provided the ids of the
    delete set are ids the sequence has already passed: the rows of the
    order they named are gone, and a new row cannot take one of them. *)
Theorem deleted_rows_are_gone fails today toOracleDate now h key body d r c' :
  put_order fails today toOracleDate now h key body (connect d) = (inr r, c') →
  (∀ i, In i (map the_id (itemsToDelete body)) → i < db_next_id d) →
  ∀ row, In row (data r) → ¬ In (row_id row) (map the_id (itemsToDelete body)).
Proof.
  intros Hrun Hids.
  assert (H : ∀ row, In row (data r) → row_id row < db_next_id d →
                id_in (map the_id (itemsToDelete (sort_items body))) row = false).
  { destruct h; simpl in Hrun.
    - unfold put_order_test in Hrun.
      destruct (blank key); [done|]. destruct (null _); [done|].
      pose proof (transaction_test_puts_out fails today key (db_next_id d)
                    (sort_items body) (connect d) (Z.le_refl _)) as H.
      unfold try_rollback in Hrun.
      destruct (transaction_test _ _ _ _ _) as [[e|a] c1]; [done|].
      by injection Hrun as -> ->.
    - pose proof (put_order_routes_puts_out fails toOracleDate now key (db_next_id d)
                    body (connect d) (Z.le_refl _)) as H.
      by rewrite Hrun in H. }
  intros row Hrow Hin. specialize (H row Hrow (Hids _ Hin)).
  rewrite (id_in_perm _ _ row (delete_ids_sorted body)) in H.
  assert (id_in (map the_id (itemsToDelete body)) row = true); [|congruence].
  unfold id_in. apply existsb_exists. exists (row_id row). split; [done|by apply Z.eqb_eq].
Qed.

Lemma deleted_rows_on_sample :
  Forall (fun row => ¬ In (row_id row) (map the_id (itemsToDelete delete_update_insert)))
    (data (answer (call nofail RoutesJs "A" delete_update_insert sample_db))).
Proof.
  apply Forall_forall. intros row Hrow%list_elem_of_In. revert Hrow.
  apply (deleted_rows_are_gone nofail today0 bind_as_given now0 RoutesJs "A"
           delete_update_insert sample_db
           (answer (call nofail RoutesJs "A" delete_update_insert sample_db))
           (call nofail RoutesJs "A" delete_update_insert sample_db).2).
  - vm_compute. reflexivity.
  - intros i Hi. vm_compute in Hi. destruct Hi as [<-|[]]. reflexivity.
Defined.

(** ** Rows that were updated *)

Lemma filter_allowed_on allowed fields f v :
  f ∈ allowed → fields !! f = Some v → filter_allowed allowed fields !! f = Some v.
Proof.
  intros Hf Hv. unfold filter_allowed. apply map_lookup_filter_Some. by split.
Qed.

Lemma update_values_on toOracleDate filtered f v :
  filtered !! f = Some v →
  update_values toOracleDate filtered !! f = Some (written toOracleDate RoutesJs f v).
Proof.
  intros Hv. unfold update_values, written.
  destruct (String.eqb_spec f "order_date") as [->|Hn1]; simpl.
  { rewrite lookup_alter_eq. rewrite lookup_alter_ne by done. by rewrite Hv. }
  rewrite lookup_alter_ne by done.
  destruct (String.eqb_spec f "delivery_date") as [->|Hn2]; simpl.
  { rewrite lookup_alter_eq. by rewrite Hv. }
  by rewrite lookup_alter_ne.
Qed.

Lemma triple_for_each_mark {A} (m : A → bool) (P : bool → conn → Prop) l body E :
  (∀ x b, In x l → triple (P b) (body x) (fun _ => P (b || m x)) E) →
  ∀ b, triple (P b) (for_each l body) (fun _ => P (b || existsb m l)) E.
Proof.
  induction l as [|x l IH]; intros Hb b; simpl.
  - apply triple_ret. intros c Hc. by rewrite orb_false_r.
  - eapply (triple_bind _ _ _ (fun _ => P (b || m x))); [apply Hb; by left|].
    intros []. eapply triple_weaken; [apply (IH (fun y b' Hy => Hb y b' (or_intror Hy)))
                                     |done| |done].
    intros ? c Hc. simpl in Hc. by rewrite orb_assoc.
Qed.

Lemma triple_execute_all_mark fails (m : statement → bool) (P : bool → conn → Prop) ops E :
  (∀ s b, In s ops → triple (P b) (execute fails s) (fun _ => P (b || m s)) E) →
  ∀ b, triple (P b) (execute_all fails (map sql_binds ops))
         (fun _ => P (b || existsb m ops)) E.
Proof.
  induction ops as [|s ops IH]; intros Hs b; simpl; without_options.
  - apply triple_ret. intros c Hc. by rewrite orb_false_r.
  - eapply (triple_bind _ _ _ (fun _ => P (b || m s))); [apply Hs; by left|].
    intros r.
    eapply (triple_bind _ _ _ (fun _ => P (b || m s || existsb m ops))).
    + apply (IH (fun y b' Hy => Hs y b' (or_intror Hy))).
    + intros rs. apply triple_ret. intros c Hc. by rewrite orb_assoc.
Qed.

Section UpdateSeen.
Variable fails : nat → statement → bool.
Variable i : Z.
Variable f : string.
Variable w : value.
Variable key : string.
Variable next0 : Z.
Hypothesis i_issued : i < next0.

Lemma update_seen_any b c :
  update_seen i f w key next0 true c → update_seen i f w key next0 b c.
Proof. intros [Hn Hc]. split; [done|]. intros _. by apply Hc. Qed.

Lemma read_keeps_seen b s :
  (∀ d, (run_statement s d).2 = d) →
  keeps fails (update_seen i f w key next0 b) (fun _ _ => True) s.
Proof.
  intros Hs. apply triple_execute. intros c Hc. destruct (fails _ _); [done|].
  rewrite Hs. exact Hc.
Qed.

Lemma delete_keeps_seen b ids :
  keeps fails (update_seen i f w key next0 b) (fun _ _ => True) (DeleteIn ids key).
Proof.
  apply triple_execute. intros c [Hn Hc]. destruct (fails _ _); [done|].
  split; [done|]. simpl. intros Hb row [Hrow _]%filter_In. by apply Hc.
Qed.

Lemma delete_returning_keeps_seen b ids :
  keeps fails (update_seen i f w key next0 b) (fun _ _ => True) (DeleteReturning ids key).
Proof.
  apply triple_execute. intros c [Hn Hc]. destruct (fails _ _); [done|].
  split; [done|]. simpl. intros Hb row [Hrow _]%filter_In. by apply Hc.
Qed.

Lemma insert_keeps_seen b vals :
  keeps fails (update_seen i f w key next0 b) (fun _ _ => True) (InsertRow key vals).
Proof.
  apply triple_execute. intros c [Hn Hc]. destruct (fails _ _); [done|].
  split; simpl; [lia|].
  intros Hb row [Hrow|[<-|[]]]%in_app_iff Hk Hid; [by apply Hc|]. simpl in Hid. lia.
Qed.

Lemma common_keeps_seen b common :
  common !! f = None →
  keeps fails (update_seen i f w key next0 b) (fun _ _ => True) (UpdateCommon common key).
Proof.
  intros Hs. apply triple_execute. intros c [Hn Hc]. destruct (fails _ _); [done|].
  split; [done|]. simpl. intros Hb row (r & <- & Hr)%in_map_iff.
  destruct (in_order key r); [|by apply Hc]. simpl. intros Hk Hid.
  rewrite lookup_union_r by done. by apply Hc.
Qed.

Lemma other_update_keeps_seen b sets i' :
  i' ≠ i →
  keeps fails (update_seen i f w key next0 b) (fun _ _ => True) (UpdateRow sets i' key).
Proof.
  intros Hne. apply triple_execute. intros c [Hn Hc]. destruct (fails _ _); [done|].
  split; [done|]. simpl. intros Hb row (r & <- & Hr)%in_map_iff.
  destruct (has_row_id i' r) eqn:Hid'; simpl; [|by apply Hc].
  unfold has_row_id in Hid'. apply Z.eqb_eq in Hid'.
  destruct (in_order key r); [|by apply Hc]. simpl. intros _ Hid. congruence.
Qed.

Lemma this_update_is_seen b sets :
  sets !! f = Some w →
  triple (update_seen i f w key next0 b) (execute fails (UpdateRow sets i key))
         (fun _ => update_seen i f w key next0 true) (fun _ _ => True).
Proof.
  intros Hs. apply triple_execute. intros c [Hn Hc]. destruct (fails _ _); [done|].
  split; [done|]. simpl. intros _ row (r & <- & Hr)%in_map_iff.
  destruct (has_row_id i r) eqn:Hid'; simpl.
  - destruct (in_order key r) eqn:Hk; simpl.
    + intros _ _. by apply lookup_union_Some_l.
    + intros Hk'. congruence.
  - intros _ Hid. unfold has_row_id in Hid'. apply Z.eqb_neq in Hid'. done.
Qed.

(** A statement of the call: the update of the row [i] writes [w] to [f],
    the header does not write [f]. *)
Lemma statement_marks_seen b s :
  scoped key s →
  (∀ sets, s = UpdateRow sets i key → sets !! f = Some w) →
  (∀ common, s = UpdateCommon common key → common !! f = None) →
  triple (update_seen i f w key next0 b) (execute fails s)
         (fun _ => update_seen i f w key next0 (b || updates_row i s)) (fun _ _ => True).
Proof.
  intros Hsc Hu Hco.
  assert (Hweak : ∀ s', updates_row i s' = false →
            keeps fails (update_seen i f w key next0 b) (fun _ _ => True) s' →
            triple (update_seen i f w key next0 b) (execute fails s')
              (fun _ => update_seen i f w key next0 (b || updates_row i s'))
              (fun _ _ => True)).
  { intros s' -> H. by rewrite orb_false_r. }
  destruct s; simpl in Hsc; subst; try (apply Hweak; [done|by apply read_keeps_seen]).
  - apply Hweak; [done|]. apply delete_keeps_seen.
  - apply Hweak; [done|]. apply delete_returning_keeps_seen.
  - destruct (Z.eq_dec i0 i) as [->|Hne].
    + simpl. rewrite Z.eqb_refl, orb_true_r. apply this_update_is_seen. by apply Hu.
    + apply Hweak; [simpl; by apply Z.eqb_neq|]. by apply other_update_keeps_seen.
  - apply Hweak; [done|]. apply insert_keeps_seen.
  - apply Hweak; [done|]. apply common_keeps_seen. by apply Hco.
Qed.

Lemma handle_update_marks_seen orderExists x b :
  (the_id x = i → filter_allowed allowedFields_test (fields x) !! f = Some w) →
  triple (update_seen i f w key next0 b) (handle_update fails orderExists key x)
         (fun _ => update_seen i f w key next0 (b || (the_id x =? i))) (fun _ _ => True).
Proof.
  intros Hx. unfold handle_update.
  eapply (triple_bind _ _ _ (fun _ => update_seen i f w key next0 b)).
  - apply triple_when; [intros Ho|auto].
    eapply (triple_bind _ _ _ (fun _ => update_seen i f w key next0 b));
      [by apply read_keeps_seen|].
    intros r. simpl. destruct (rows r) as [|r0 ?]; [by apply triple_throw|].
    destruct (String.eqb _ _); [by apply triple_ret|by apply triple_throw].
  - intros []. simpl. case_bool_decide as Hempty.
    + apply triple_ret. intros c Hc.
      destruct (Z.eqb_spec (the_id x) i) as [Hi|Hi]; [|by rewrite orb_false_r].
      specialize (Hx Hi). by rewrite Hempty in Hx.
    + eapply (triple_bind _ _ _
                (fun _ => update_seen i f w key next0 (b || (the_id x =? i)))).
      * apply (statement_marks_seen b
                 (UpdateRow (filter_allowed allowedFields_test (fields x)) (the_id x) key));
          [done| |done].
        intros sets [= <- Hi]. by apply Hx.
      * intros r. simpl.
        destruct (_ =? _)%nat; [by apply triple_throw|by apply triple_ret].
Qed.

Lemma rows_read_seen c :
  update_seen i f w key next0 true c →
  ∀ row, In row (sort_by row_id (List.filter (in_order key) (working c))) →
    row_id row = i → cols row !! f = Some w.
Proof.
  intros [_ Hc] row Hrow Hid. apply sort_by_In in Hrow.
  apply filter_In in Hrow as [Hrow Hk]. by apply Hc.
Qed.

Lemma transaction_test_update_seen today allItems u :
  In u (itemsToUpdate allItems) → the_id u = i →
  (∀ x, In x (itemsToUpdate allItems) → the_id x = i →
        filter_allowed allowedFields_test (fields x) !! f = Some w) →
  f ∉ commonFields →
  triple (update_seen i f w key next0 false) (transaction_test fails today key allItems)
         (fun r _ => ∀ row, In row (data r) → row_id row = i → cols row !! f = Some w)
         (fun _ _ => True).
Proof.
  intros Hu Hi Hall Hf.
  set (P := update_seen i f w key next0).
  assert (Hex : existsb (fun x => the_id x =? i) (itemsToUpdate allItems) = true).
  { apply existsb_exists. exists u. split; [done|]. by apply Z.eqb_eq. }
  unfold transaction_test.
  eapply (triple_bind _ _ _ (fun _ => P false)); [by apply read_keeps_seen|].
  intros _. eapply (triple_bind _ _ _ (fun _ => P false)); [by apply read_keeps_seen|].
  intros orderCheck. simpl. eapply (triple_bind _ _ _ (fun _ => P false)).
  { destruct (_ && _); [by apply triple_throw|by apply triple_ret]. }
  intros []. eapply (triple_bind _ _ _ (fun _ => P false)).
  { apply handle_deletions_stable.
    - intros _ ids. by apply read_keeps_seen.
    - intros _ missing. apply raises_anything.
    - intros ids. by apply triple_execute_unbound. }
  intros []. eapply (triple_bind _ _ _ (fun _ => P true)).
  { apply triple_when.
    - intros _.
      eapply triple_weaken;
        [apply (triple_for_each_mark (fun x => the_id x =? i) P (itemsToUpdate allItems)
                  (handle_update fails _ key) (fun _ _ => True))|done| |done].
      + intros x b Hx. apply handle_update_marks_seen. intros Hxi. by apply Hall.
      + intros ? c Hc. simpl in Hc. by rewrite Hex in Hc.
    - intros Hnn. apply negb_false_iff in Hnn.
      destruct (itemsToUpdate allItems); [done|done]. }
  intros []. eapply (triple_bind _ _ _ (fun _ => P true)).
  { apply triple_when; [intros _|auto].
    apply triple_for_each. intros x _. apply handle_insert_stable.
    intros vals. by apply insert_keeps_seen. }
  intros []. eapply (triple_bind _ _ _ (fun _ => P true)).
  { apply triple_when; [intros _|auto].
    eapply (triple_bind _ _ _ (fun _ => P true)).
    - apply common_keeps_seen. by apply commonOrderDetails_off.
    - intros r. by apply triple_ret. }
  intros []. eapply (triple_bind _ _ _ (fun _ => P true)).
  { apply triple_commit. intros c Hc0. by destruct (fails _ _). }
  intros [].
  eapply (triple_bind _ _ _
            (fun r _ => ∀ row, In row (rows r) → row_id row = i → cols row !! f = Some w)).
  { apply triple_execute. intros c Hc0. destruct (fails _ _); [done|].
    simpl. by apply rows_read_seen. }
  intros r. by apply triple_ret.
Qed.

Lemma put_order_routes_update_seen toOracleDate now body u :
  In u (itemsToUpdate (sort_items body)) → the_id u = i →
  (∀ x, In x (itemsToUpdate (sort_items body)) → the_id x = i →
        update_values toOracleDate (filter_allowed allowedFields (fields x)) !! f = Some w) →
  triple (update_seen i f w key next0 false)
         (put_order_routes fails toOracleDate now key body)
         (fun r _ => ∀ row, In row (data r) → row_id row = i → cols row !! f = Some w)
         (fun _ _ => True).
Proof.
  intros Hu Hi Hall.
  set (P := update_seen i f w key next0).
  assert (Hex : existsb (updates_row i) (operations toOracleDate now key (sort_items body))
                = true).
  { apply existsb_exists.
    exists (UpdateRow (update_values toOracleDate (filter_allowed allowedFields (fields u)))
              (the_id u) key).
    split; [|simpl; by apply Z.eqb_eq].
    unfold operations. apply in_app_iff. right. apply in_app_iff. left.
    apply in_flat_map. exists u. split; [done|]. unfold update_operation.
    case_bool_decide as Hempty; [|by left].
    specialize (Hall u Hu Hi). rewrite Hempty in Hall.
    by rewrite (update_values_off toOracleDate ∅ f (lookup_empty f)) in Hall. }
  unfold put_order_routes.
  destruct (blank key); [by apply triple_throw|].
  destruct (null _); [by apply triple_throw|].
  eapply (triple_bind _ _ _
            (fun _ c => P true (Conn (committed c) (committed c) (next_id c) (log c)))).
  { unfold executeTransaction.
    apply triple_try_rollback with (E' := fun _ _ => True); [|done].
    eapply (triple_bind _ _ _ (fun _ => P true)).
    - eapply triple_weaken;
        [apply (triple_execute_all_mark fails (updates_row i) P
                  (operations toOracleDate now key (sort_items body)) (fun _ _ => True))
        |done| |done].
      + intros s b Hs. apply statement_marks_seen.
        * by apply (operations_scoped toOracleDate now key (sort_items body)).
        * intros sets ->. unfold operations in Hs. rewrite !in_app_iff in Hs.
          destruct Hs as [Hs|[Hs|Hs]].
          -- destruct (null _); [done|]. by destruct Hs as [?|[]].
          -- apply in_flat_map in Hs as (x & Hx & Hs). unfold update_operation in Hs.
             case_bool_decide; [done|]. destruct Hs as [[= <- Hxi]|[]]. by apply Hall.
          -- by apply in_map_iff in Hs as (x & ? & _).
        * intros common ->. unfold operations in Hs. rewrite !in_app_iff in Hs.
          destruct Hs as [Hs|[Hs|Hs]].
          -- destruct (null _); [done|]. by destruct Hs as [?|[]].
          -- apply in_flat_map in Hs as (x & Hx & Hs). unfold update_operation in Hs.
             case_bool_decide; [done|]. by destruct Hs as [?|[]].
          -- by apply in_map_iff in Hs as (x & ? & _).
      + intros ? c Hc. simpl in Hc. by rewrite Hex in Hc.
    - intros results.
      eapply (triple_bind _ _ _
                (fun _ c => P true (Conn (committed c) (committed c) (next_id c) (log c)))).
      + apply triple_commit. intros c Hc. by destruct (fails _ _).
      + intros []. by apply triple_ret. }
  intros _.
  eapply (triple_bind _ _ _
            (fun r _ => ∀ row, In row (rows r) → row_id row = i → cols row !! f = Some w)).
  { apply triple_executeQuery. apply triple_execute.
    intros c (c0 & Hc0 & ->). simpl. destruct (fails _ _); [done|].
    simpl. by apply (rows_read_seen _ Hc0). }
  intros r. by apply triple_ret.
Qed.
End UpdateSeen.

Lemma In_itemsToUpdate_sorted body u :
  In u (itemsToUpdate (sort_items body)) ↔ In u body ∧ is_update u = true.
Proof.
  unfold itemsToUpdate, sort_items. rewrite filter_In. by rewrite sort_by_In.
Qed.

(** X23.  A successful call of [PUT /orders-by-number/:order_no] has written
    what an update item asks for: when the item is the only update of the
    body for its id, the id is one the sequence has already passed, and
    the property [f] of the item is on the allow-list of the handler
    (and, for src/test.js, is not an order-level field, which the header
    overwrites), every row of the answer with this id has the value of
    the item in column [f], the two dates as [toOracleDate] gives them in
    src/routes/orders.js. *)
Theorem update_takes_effect fails today toOracleDate now h key body d r c' u f v :
  put_order fails today toOracleDate now h key body (connect d) = (inr r, c') →
  In u body → is_update u = true →
  (∀ x, In x body → is_update x = true → the_id x = the_id u → x = u) →
  the_id u < db_next_id d →
  fields u !! f = Some v →
  f ∈ allow_list h →
  (h = TestJs → f ∉ commonFields) →
  ∀ row, In row (data r) → row_id row = the_id u →
    cols row !! f = Some (written toOracleDate h f v).
Proof.
  intros Hrun Hu Hup Huniq Hid Hv Hf Hcommon.
  assert (Hin : In u (itemsToUpdate (sort_items body))) by (by apply In_itemsToUpdate_sorted).
  assert (Hstart : update_seen (the_id u) f (written toOracleDate h f v) key (db_next_id d)
                     false (connect d)).
  { split; [simpl; lia|done]. }
  destruct h; simpl in Hrun, Hf.
  - unfold put_order_test in Hrun.
    destruct (blank key); [done|]. destruct (null _); [done|].
    pose proof (transaction_test_update_seen fails (the_id u) f v key (db_next_id d) Hid
                  today (sort_items body) u Hin eq_refl) as H.
    unfold try_rollback in Hrun.
    specialize (H (fun x Hx Hxi =>
                     match proj1 (In_itemsToUpdate_sorted body x) Hx with
                     | conj Hb Hxu =>
                         eq_ind_r (fun y => filter_allowed allowedFields_test (fields y) !! f
                                            = Some v)
                           (filter_allowed_on _ _ _ _ Hf Hv) (Huniq x Hb Hxu Hxi)
                     end) (Hcommon eq_refl) (connect d) Hstart).
    destruct (transaction_test _ _ _ _ _) as [[e|a] c1]; [done|].
    by injection Hrun as -> ->.
  - pose proof (put_order_routes_update_seen fails (the_id u) f
                  (written toOracleDate RoutesJs f v) key (db_next_id d) Hid
                  toOracleDate now body u Hin eq_refl) as H.
    assert (Hall : ∀ x, In x (itemsToUpdate (sort_items body)) → the_id x = the_id u →
              update_values toOracleDate (filter_allowed allowedFields (fields x)) !! f
              = Some (written toOracleDate RoutesJs f v)).
    { intros x [Hb Hxu]%In_itemsToUpdate_sorted Hxi. rewrite (Huniq x Hb Hxu Hxi).
      apply update_values_on. by apply filter_allowed_on. }
    specialize (H Hall (connect d) Hstart). by rewrite Hrun in H.
Qed.

Lemma triple_for_each_reach {A} (I R : conn → Prop) (l : list A) body u E :
  In u l →
  (∀ x, triple I (body x) (fun _ => I) E) →
  triple I (body u) (fun _ => R) E →
  (∀ x, triple R (body x) (fun _ => R) E) →
  triple I (for_each l body) (fun _ => R) E.
Proof.
  intros Hu HI Hreach HR. induction l as [|x l IH]; [done|]. simpl.
  destruct Hu as [->|Hu].
  - eapply (triple_bind _ _ _ (fun _ => R)); [exact Hreach|].
    intros []. apply triple_for_each. intros y _. apply HR.
  - eapply (triple_bind _ _ _ (fun _ => I)); [apply HI|].
    intros []. by apply IH.
Qed.

Section RowThere.
Variable fails : nat → statement → bool.
Variable i : Z.
Variable key : string.

Lemma update_where_there p sets c :
  row_there i key c →
  row_there i key (Conn (committed c) (update_where p sets (working c)) (next_id c) (log c)).
Proof.
  intros (row & Hrow & Hk & Hid).
  exists (if p row then set_cols sets row else row). split; [|by destruct (p row)].
  simpl. apply in_map_iff. by exists row.
Qed.

Lemma statement_keeps_there s :
  (∀ ids k, s ≠ DeleteIn ids k ∧ s ≠ DeleteReturning ids k) →
  keeps fails (row_there i key) (fun _ _ => True) s.
Proof.
  intros Hs. apply triple_execute. intros c Hc. destruct (fails _ _); [done|].
  destruct s; simpl; try exact Hc.
  - by destruct (Hs ids key0) as [? _].
  - by destruct (Hs ids key0) as [_ ?].
  - destruct (update_where_there (fun r => has_row_id i0 r && in_order key0 r) sets c Hc)
      as (row & Hrow & H). by exists row.
  - destruct Hc as (row & Hrow & H). exists row. split; [|done].
    simpl. apply in_app_iff. by left.
  - destruct (update_where_there (in_order key0) common c Hc) as (row & Hrow & H).
    by exists row.
Qed.

Lemma handle_update_finds_row orderExists u :
  the_id u = i →
  filter_allowed allowedFields_test (fields u) ≠ ∅ →
  triple (fun _ => True) (handle_update fails orderExists key u)
         (fun _ => row_there i key) (fun _ _ => True).
Proof.
  intros Hi Hne. unfold handle_update.
  eapply (triple_bind _ _ _ (fun _ _ => True)); [apply triple_any|].
  intros []. simpl. case_bool_decide; [done|].
  eapply (triple_bind _ _ _ (fun r c => rowsAffected r ≠ 0%nat → row_there i key c)).
  - apply triple_execute. intros c _. destruct (fails _ _); [done|].
    simpl. intros Hrows. rewrite Hi in Hrows |- *.
    destruct (List.filter _ (working c)) as [|row rest] eqn:Hfilter; [done|].
    assert (Hrow : In row (List.filter (fun r => has_row_id i r && in_order key r) (working c)))
      by (rewrite Hfilter; by left).
    apply filter_In in Hrow as [Hrow Hp]. apply andb_true_iff in Hp as [Hid Hk].
    unfold has_row_id in Hid. apply Z.eqb_eq in Hid.
    exists (set_cols (filter_allowed allowedFields_test (fields u)) row).
    split; [|done]. apply in_map_iff. exists row. split; [|done].
    unfold has_row_id. rewrite Hk. by rewrite (proj2 (Z.eqb_eq _ _) Hid).
  - intros r. simpl. destruct (rowsAffected r =? 0)%nat eqn:Hz; [by apply triple_throw|].
    apply triple_ret. intros c Hc. apply Hc. by apply Nat.eqb_neq.
Qed.

Lemma transaction_test_finds_row today allItems u :
  In u (itemsToUpdate allItems) → the_id u = i →
  filter_allowed allowedFields_test (fields u) ≠ ∅ →
  triple (fun _ => True) (transaction_test fails today key allItems)
         (fun r _ => ∃ row, In row (data r) ∧ row_id row = i)
         (fun _ _ => True).
Proof.
  intros Hu Hi Hne.
  assert (Hk : ∀ s, (∀ ids k, s ≠ DeleteIn ids k ∧ s ≠ DeleteReturning ids k) →
                 keeps fails (row_there i key) (fun _ _ => True) s)
    by apply statement_keeps_there.
  unfold transaction_test.
  eapply (triple_bind _ _ _ (fun _ _ => True)); [apply triple_any|].
  intros _. eapply (triple_bind _ _ _ (fun _ _ => True)); [apply triple_any|].
  intros orderCheck. simpl. eapply (triple_bind _ _ _ (fun _ _ => True)); [apply triple_any|].
  intros []. eapply (triple_bind _ _ _ (fun _ _ => True)); [apply triple_any|].
  intros []. eapply (triple_bind _ _ _ (fun _ => row_there i key)).
  { apply triple_when.
    - intros _. apply (triple_for_each_reach (fun _ => True) (row_there i key) _ _ u);
        [done| | |].
      + intros x. apply triple_any.
      + by apply handle_update_finds_row.
      + intros x. apply handle_update_stable; try done; intros; by apply Hk.
    - intros Hnn. apply negb_false_iff in Hnn.
      destruct (itemsToUpdate allItems); [done|done]. }
  intros []. eapply (triple_bind _ _ _ (fun _ => row_there i key)).
  { apply triple_when; [intros _|auto].
    apply triple_for_each. intros x _. apply handle_insert_stable.
    intros vals. by apply Hk. }
  intros []. eapply (triple_bind _ _ _ (fun _ => row_there i key)).
  { apply triple_when; [intros _|auto].
    eapply (triple_bind _ _ _ (fun _ => row_there i key)); [by apply Hk|].
    intros r. by apply triple_ret. }
  intros []. eapply (triple_bind _ _ _ (fun _ => row_there i key)).
  { apply triple_commit. intros c Hc0. by destruct (fails _ _). }
  intros [].
  eapply (triple_bind _ _ _ (fun r _ => ∃ row, In row (rows r) ∧ row_id row = i)).
  { apply triple_execute. intros c (row & Hrow & Hkey & Hid). destruct (fails _ _); [done|].
    simpl. exists row. split; [|done]. apply sort_by_In. apply filter_In. by split. }
  intros r. by apply triple_ret.
Qed.
End RowThere.

(** X24.  In src/test.js, a call that succeeds has found the row of every
    update item that names a property of the allow-list: the answer has
    a row with the id of the item.  (An update that reaches no row of the
    order makes the call fail.) *)
Theorem updated_row_is_answered fails today key body d r c' u f v :
  put_order_test fails today key body (connect d) = (inr r, c') →
  In u body → is_update u = true →
  f ∈ allowedFields_test → fields u !! f = Some v →
  ∃ row, In row (data r) ∧ row_id row = the_id u.
Proof.
  intros Hrun Hu Hup Hf Hv.
  assert (Hin : In u (itemsToUpdate (sort_items body))) by (by apply In_itemsToUpdate_sorted).
  assert (Hne : filter_allowed allowedFields_test (fields u) ≠ ∅).
  { intros Hempty. pose proof (filter_allowed_on _ _ _ _ Hf Hv) as H.
    by rewrite Hempty in H. }
  unfold put_order_test in Hrun.
  destruct (blank key); [done|]. destruct (null _); [done|].
  pose proof (transaction_test_finds_row fails (the_id u) key today (sort_items body) u
                Hin eq_refl Hne (connect d) I) as H.
  unfold try_rollback in Hrun.
  destruct (transaction_test _ _ _ _ _) as [[e|a] c1]; [done|].
  by injection Hrun as -> ->.
Qed.

Lemma updated_row_on_sample :
  ∃ row, In row (data (answer (call nofail TestJs "A" update_row_2 sample_db)))
         ∧ row_id row = 2.
Proof.
  apply (updated_row_is_answered nofail today0 "A" update_row_2 sample_db
           (answer (call nofail TestJs "A" update_row_2 sample_db))
           (call nofail TestJs "A" update_row_2 sample_db).2
           (Item (Some 2) false {["quantity" := VNum 4]}) "quantity" (VNum 4)).
  - vm_compute. reflexivity.
  - by left.
  - reflexivity.
  - apply (bool_decide_unpack ("quantity" ∈ allowedFields_test)). vm_compute. exact I.
  - reflexivity.
Defined.

Lemma update_takes_effect_on_sample :
  Forall (fun row => row_id row = 2 → cols row !! "quantity" = Some (VNum 4))
    (data (answer (call nofail RoutesJs "A" update_row_2 sample_db))).
Proof.
  apply Forall_forall. intros row Hrow%list_elem_of_In. revert Hrow.
  apply (update_takes_effect nofail today0 bind_as_given now0 RoutesJs "A" update_row_2
           sample_db
           (answer (call nofail RoutesJs "A" update_row_2 sample_db))
           (call nofail RoutesJs "A" update_row_2 sample_db).2
           (Item (Some 2) false {["quantity" := VNum 4]}) "quantity" (VNum 4)).
  - vm_compute. reflexivity.
  - by left.
  - reflexivity.
  - intros x [<-|[]] _ _. reflexivity.
  - reflexivity.
  - reflexivity.
  - apply (bool_decide_unpack ("quantity" ∈ allow_list RoutesJs)). vm_compute. exact I.
  - discriminate.
Defined.
